(** * rss-telegram-bot: the polling-and-delivery pipeline

    A shallow embedding of the Go sources of the pipeline and the
    properties of its specification:

    - [internal/rss/fetcher.go]       ([Rss]: [Fetch], [GetNewItems])
    - [internal/telegram/client.go]   ([Telegram]: [Send], [SplitMessage])
    - [internal/formatter/formatter.go] ([Formatter]: [FormatItem])
    - [internal/app] feed worker      ([Worker]: [ProcessFeed])
    - [internal/database] feed store  ([Store])
    - [internal/scheduler/scheduler.go] ([Scheduler]: [runPendingTasks])

    Go strings are byte sequences and are modelled by [string]; [len] is
    [String.length].  Pointers that may be nil ([*string], [*time.Time],
    [*Proxy]) are [option]s.  Time instants and durations are integers in
    nanoseconds ([Z]).  Library code the sources call (the HTTP client, the
    feed parser, the HTML sanitizer, the template engine, the bot API) is
    a parameter: a field of an environment record or a method of the class
    [Formatter.Libs]. *)

From Stdlib Require Import ZArith NArith Lia List String Ascii Bool.
From Stdlib Require Import Sorting.Sorted Sorting.Permutation.
From stdpp Require Import base option list gmap strings sorting.

Local Open Scope string_scope.
Local Open Scope list_scope.
Local Open Scope Z_scope.

(* ===================================================================== *)
(** * crypto/sha256 and the [%x] verb *)
(* ===================================================================== *)

Module Sha256.

Local Open Scope N_scope.

Definition w32 (x : N) : N := x mod 4294967296.
Definition add32 (x y : N) : N := w32 (x + y).
Definition rotr (n x : N) : N :=
  w32 (N.lor (N.shiftr x n) (N.shiftl x (32 - n))).
Definition shr (n x : N) : N := N.shiftr x n.
Definition not32 (x : N) : N := N.lxor x 4294967295.

Definition Ch (x y z : N) : N := N.lxor (N.land x y) (N.land (not32 x) z).
Definition Maj (x y z : N) : N :=
  N.lxor (N.lxor (N.land x y) (N.land x z)) (N.land y z).
Definition bsig0 (x : N) : N := N.lxor (N.lxor (rotr 2 x) (rotr 13 x)) (rotr 22 x).
Definition bsig1 (x : N) : N := N.lxor (N.lxor (rotr 6 x) (rotr 11 x)) (rotr 25 x).
Definition ssig0 (x : N) : N := N.lxor (N.lxor (rotr 7 x) (rotr 18 x)) (shr 3 x).
Definition ssig1 (x : N) : N := N.lxor (N.lxor (rotr 17 x) (rotr 19 x)) (shr 10 x).

(** The primes below 312: the first 64. *)
Definition isPrime (n : nat) : bool :=
  forallb (fun d => negb (Nat.eqb (n mod d) 0)) (seq 2 (n - 2)).

Definition primes : list N :=
  Eval vm_compute in map N.of_nat (List.filter isPrime (seq 2 310)).

(** The integer cube root, bit by bit from bit [b - 1] down. *)
Fixpoint cbrtBits (b : nat) (x r : N) : N :=
  match b with
  | O => r
  | S b' =>
      let r' := r + N.shiftl 1 (N.of_nat b') in
      cbrtBits b' x (if r' * r' * r' <=? x then r' else r)
  end.

(** The round constants: the first 32 bits of the fractional parts of the
    cube roots of the first 64 primes. *)
Definition K : list N :=
  Eval vm_compute in map (fun p => w32 (cbrtBits 40 (N.shiftl p 96) 0)) primes.

(** The initial hash value: the first 32 bits of the fractional parts of
    the square roots of the first 8 primes. *)
Definition H0 : list N :=
  Eval vm_compute in map (fun p => w32 (N.sqrt (N.shiftl p 64))) (firstn 8 primes).

(** Big-endian encodings. *)
Fixpoint be_bytes (n : nat) (x : N) : list N :=
  match n with
  | O => []
  | S n' => be_bytes n' (N.shiftr x 8) ++ [x mod 256]
  end.

Fixpoint be_word (bs : list N) (acc : N) : N :=
  match bs with
  | [] => acc
  | b :: r => be_word r (acc * 256 + b)
  end.

(** Padding: 0x80, zeros up to 56 mod 64, the bit length on 64 bits. *)
Definition pad (msg : list N) : list N :=
  let l := N.of_nat (length msg) in
  let z := N.to_nat ((64 + 55 - (l mod 64)) mod 64) in
  msg ++ [128] ++ repeat 0 z ++ be_bytes 8 (8 * l).

Fixpoint words (fuel : nat) (bs : list N) : list N :=
  match fuel, bs with
  | S f, a :: b :: c :: d :: r => be_word [a; b; c; d] 0 :: words f r
  | _, _ => []
  end.

(** The message schedule, most recent word first. *)
Fixpoint schedule (n : nat) (wrev : list N) : list N :=
  match n with
  | O => wrev
  | S n' =>
      let w := add32 (add32 (ssig1 (nth 1 wrev 0)) (nth 6 wrev 0))
                     (add32 (ssig0 (nth 14 wrev 0)) (nth 15 wrev 0)) in
      schedule n' (w :: wrev)
  end.

Record regs := Regs { ra : N; rb : N; rc : N; rd : N; re : N; rf : N; rg : N; rh : N }.

Definition round (s : regs) (kw : N * N) : regs :=
  let t1 := add32 (add32 (add32 (rh s) (bsig1 (re s))) (add32 (Ch (re s) (rf s) (rg s)) (fst kw))) (snd kw) in
  let t2 := add32 (bsig0 (ra s)) (Maj (ra s) (rb s) (rc s)) in
  Regs (add32 t1 t2) (ra s) (rb s) (rc s) (add32 (rd s) t1) (re s) (rf s) (rg s).

Definition regs_of (h : list N) : regs :=
  Regs (nth 0 h 0) (nth 1 h 0) (nth 2 h 0) (nth 3 h 0)
       (nth 4 h 0) (nth 5 h 0) (nth 6 h 0) (nth 7 h 0).

Definition list_of (s : regs) : list N :=
  [ra s; rb s; rc s; rd s; re s; rf s; rg s; rh s].

Definition block (h : list N) (blk : list N) : list N :=
  let w := rev (schedule 48 (rev (words 16 blk))) in
  let s := fold_left round (combine K w) (regs_of h) in
  map (fun p => add32 (fst p) (snd p)) (combine h (list_of s)).

Fixpoint blocks (fuel : nat) (h : list N) (bs : list N) : list N :=
  match fuel with
  | O => h
  | S f =>
      match bs with
      | [] => h
      | _ => blocks f (block h (firstn 64 bs)) (skipn 64 bs)
      end
  end.

(** [sha256.Sum256]: the digest as 32 bytes. *)
Definition Sum256 (msg : list N) : list N :=
  let p := pad msg in
  flat_map (be_bytes 4) (blocks (S (length p / 64)) H0 p).

Definition hexdigit (d : N) : ascii :=
  if d <? 10 then ascii_of_N (48 + d) else ascii_of_N (87 + d).

(** [fmt.Sprintf("%x", bytes)]: two lower-case hex digits per byte. *)
Fixpoint hex (bs : list N) : string :=
  match bs with
  | [] => EmptyString
  | b :: r => String (hexdigit (b / 16)) (String (hexdigit (b mod 16)) (hex r))
  end.

Fixpoint bytes_of_string (s : string) : list N :=
  match s with
  | EmptyString => []
  | String c r => N_of_ascii c :: bytes_of_string r
  end.

End Sha256.

(** [fmt.Sprintf("%x", sha256.Sum256([]byte(s)))] *)
Definition sha256hex (s : string) : string :=
  Sha256.hex (Sha256.Sum256 (Sha256.bytes_of_string s)).

(* ===================================================================== *)
(** * Errors and results *)
(* ===================================================================== *)

(** [context.Canceled] and [context.DeadlineExceeded]. *)
Inductive CtxErr := Canceled | DeadlineExceeded.

(** Go [error] values: the two context sentinels, opaque library errors,
    errors made with [fmt.Errorf] and errors wrapping a cause with [%w]. *)
Inductive error :=
| ErrCtx (e : CtxErr)
| ErrLib (what : string)
| ErrMsg (msg : string)
| ErrStatus (attempt : nat) (status : Z)
| ErrWrap (msg : string) (cause : error).

Inductive result (A : Type) :=
| Ok (a : A)
| Err (e : error).
Arguments Ok {A} a.
Arguments Err {A} e.

Definition CtxErr_eqb (a b : CtxErr) : bool :=
  match a, b with
  | Canceled, Canceled | DeadlineExceeded, DeadlineExceeded => true
  | _, _ => false
  end.

(** [errors.Is(err, target)] for a context sentinel: follows the [%w] chain. *)
Fixpoint errorsIs (err : error) (target : CtxErr) : bool :=
  match err with
  | ErrCtx e => CtxErr_eqb e target
  | ErrWrap _ cause => errorsIs cause target
  | _ => false
  end.

Definition isOk {A} (r : result A) : bool :=
  match r with Ok _ => true | Err _ => false end.

(** [s == ""] *)
Definition isEmpty (s : string) : bool :=
  match s with EmptyString => true | String _ _ => false end.

(* ===================================================================== *)
(** * internal/rss/fetcher.go *)
(* ===================================================================== *)

Module Rss.

(** [gofeed.Item], the fields the pipeline reads. *)
Record Item := mkItem {
  GUID : string;
  Link : string;
  Title : string;
  Content : string;
  Description : string;
  Author : option string;          (* Author.Name, nil when there is no author *)
  PublishedParsed : option Z;
  UpdatedParsed : option Z
}.

(** [gofeed.Feed] *)
Record Feed := mkFeed { Items : list Item }.

(** [interfaces.FetchResult] *)
Record FetchResult := mkFetchResult {
  ResFeed : option Feed;
  NewEtag : option string;
  NewLastModified : option string
}.

Definition maxFetchRetries : nat := 3.
Definition second : Z := 1000000000.
Definition initialRetryDelay : Z := 2 * second.
Definition maxRetryDelay : Z := 30 * second.

(** The request [Fetch] builds: the conditional headers are set only for a
    non-nil, non-empty cache value. *)
Record Request := mkRequest {
  reqURL : string;
  reqIfNoneMatch : option string;
  reqIfModifiedSince : option string;
  reqUserAgent : string
}.

(** What [httpClient.Do] gives back: a response, of which [Fetch] reads the
    status, the two cache headers and the body as [gofeed] parses it
    ([None]: the parser fails), or an error. *)
Record Response := mkResponse {
  StatusCode : Z;
  HeaderETag : option string;          (* None: the header is absent *)
  HeaderLastModified : option string;
  ParsedBody : option Feed
}.

(** The world a call of [Fetch] runs in, attempt by attempt. *)
Record FetchEnv := mkFetchEnv {
  getClientErr : nat -> option error;          (* clientFactory.GetClient *)
  newRequestErr : option error;                (* http.NewRequestWithContext *)
  doRequest : nat -> Request -> result Response; (* httpClient.Do *)
  ctxDoneInBackoff : nat -> option CtxErr      (* ctx.Done() wins the select *)
}.

Inductive FetchEvent :=
| EvSleep (d : Z)                 (* time.After(currentDelay) fired *)
| EvAttempt (n : nat) (r : Request).

(** [Header.Get]: the empty string when the header is absent. *)
Definition headerGet (h : option string) : string :=
  match h with Some v => v | None => "" end.

Definition condHeader (v : option string) : option string :=
  match v with
  | Some s => if isEmpty s then None else Some s
  | None => None
  end.

Definition StatusOK : Z := 200.
Definition StatusNotModified : Z := 304.

(** The body of the [for attempt := 0; attempt <= maxFetchRetries; attempt++]
    loop; [remaining] counts the iterations left. *)
Fixpoint fetchLoop (env : FetchEnv) (url : string) (etag lastModified : option string)
    (remaining attempt : nat) (currentDelay : Z) (lastErr : option error)
    (tr : list FetchEvent) : list FetchEvent * result FetchResult :=
  match remaining with
  | O =>
      (tr, Err (match lastErr with
                | Some e => ErrWrap "all fetch attempts failed" e
                | None => ErrMsg "all fetch attempts failed"
                end))
  | S remaining' =>
      let backoff :=
        if (0 <? attempt)%nat then
          match ctxDoneInBackoff env attempt with
          | Some ce => inl (ErrWrap "fetch context cancelled during retry backoff" (ErrCtx ce))
          | None =>
              let d := currentDelay * 2 in
              inr (if maxRetryDelay <? d then maxRetryDelay else d, tr ++ [EvSleep currentDelay])
          end
        else inr (currentDelay, tr) in
      match backoff with
      | inl e => (tr, Err e)
      | inr (currentDelay, tr) =>
          match getClientErr env attempt with
          | Some e => (tr, Err (ErrWrap "failed to get HTTP client" e))
          | None =>
          match newRequestErr env with
          | Some e => (tr, Err (ErrWrap "failed to create request" e))
          | None =>
              let req := mkRequest url (condHeader etag) (condHeader lastModified)
                                   "RSSBot/1.0 (+https://your.bot.contact.info)" in
              let tr := tr ++ [EvAttempt attempt req] in
              match doRequest env attempt req with
              | Err errDo =>
                  let lastErr := ErrWrap "failed to fetch feed" errDo in
                  if errorsIs errDo Canceled || errorsIs errDo DeadlineExceeded
                  then (tr, Err lastErr)
                  else fetchLoop env url etag lastModified remaining' (S attempt)
                                 currentDelay (Some lastErr) tr
              | Ok resp =>
                  if StatusCode resp =? StatusNotModified then
                    (tr, Ok (mkFetchResult None etag lastModified))
                  else if negb (StatusCode resp =? StatusOK) then
                    let lastErr := ErrStatus attempt (StatusCode resp) in
                    if (400 <=? StatusCode resp) && (StatusCode resp <? 500)
                    then (tr, Err lastErr)
                    else fetchLoop env url etag lastModified remaining' (S attempt)
                                   currentDelay (Some lastErr) tr
                  else
                    match ParsedBody resp with
                    | None =>
                        fetchLoop env url etag lastModified remaining' (S attempt)
                                  currentDelay (Some (ErrWrap "failed to parse feed" (ErrLib "gofeed"))) tr
                    | Some feed =>
                        let newEtagHeader := headerGet (HeaderETag resp) in
                        let newLastModifiedHeader := headerGet (HeaderLastModified resp) in
                        (tr, Ok (mkFetchResult (Some feed) (Some newEtagHeader)
                                               (Some newLastModifiedHeader)))
                    end
              end
          end
          end
      end
  end.

(** [GoFeedFetcher.Fetch]: the events of the call and what it returns. *)
Definition Fetch (env : FetchEnv) (url : string) (etag lastModified : option string)
    : list FetchEvent * result FetchResult :=
  fetchLoop env url etag lastModified (S maxFetchRetries) 0 initialRetryDelay None [].

(** The item's identifier: the GUID, or the link when the GUID is empty. *)
Definition identifierOf (item : Item) : string :=
  if isEmpty (GUID item) then Link item else GUID item.

(** The date the sort compares: [PublishedParsed], else [UpdatedParsed]. *)
Definition dateOf (item : Item) : option Z :=
  match PublishedParsed item with
  | Some d => Some d
  | None => UpdatedParsed item
  end.

(** The [less] closure given to [sort.SliceStable]; [a] and [b] are
    [feedData.Items[i]] and [feedData.Items[j]]. *)
Definition less (i j : nat) (a b : Item) : bool :=
  match dateOf a, dateOf b with
  | None, None => (i <? j)%nat
  | None, Some _ => false
  | Some _, None => true
  | Some dateI, Some dateJ => dateJ <? dateI          (* dateI.After(dateJ) *)
  end.

(** [sort.SliceStable] is the insertion sort of package [sort]:
    [for j := i; j > a && less(j, j-1); j-- { swap(j, j-1) }].
    [sink x revpre] moves the element [x], at index [length revpre], down
    the sorted prefix, which is given reversed (element [j-1] first); the
    result is the new prefix, reversed.  (Beyond 20 elements the library
    merges sorted blocks; it still only asks [less(j, i)] with [i < j], and
    a stable sort has one result.) *)
Fixpoint sink (x : Item) (revpre : list Item) : list Item :=
  match revpre with
  | [] => [x]
  | y :: rest =>
      if less (length revpre) (length revpre - 1) x y
      then y :: sink x rest
      else x :: revpre
  end.

Definition sliceStable (items : list Item) : list Item :=
  rev (fold_left (fun revpre x => sink x revpre) items []).

(** The [for _, item := range feedData.Items] loop. *)
Fixpoint collectNew (isItemProcessedFunc : string -> result bool)
    (items newItems : list Item) : result (list Item) :=
  match items with
  | [] => Ok newItems
  | item :: rest =>
      let itemIdentifier := identifierOf item in
      if isEmpty itemIdentifier then collectNew isItemProcessedFunc rest newItems
      else
        let hash := sha256hex itemIdentifier in
        match isItemProcessedFunc hash with
        | Err e => Err (ErrWrap "checking if item processed" e)
        | Ok processed =>
            if negb processed
            then collectNew isItemProcessedFunc rest (newItems ++ [item])
            else collectNew isItemProcessedFunc rest newItems
        end
  end.

(** [GetNewItems]: the new items, oldest first, and the hash of the newest
    item of the fetched feed. *)
Definition GetNewItems (feedData : option Feed)
    (isItemProcessedFunc : string -> result bool) : result (list Item * string) :=
  match feedData with
  | None => Ok ([], "")
  | Some fd =>
      match Items fd with
      | [] => Ok ([], "")
      | _ =>
          let sorted := sliceStable (Items fd) in
          let latestItemHash :=
            match sorted with
            | newestItemInFeed :: _ =>
                let identifier := identifierOf newestItemInFeed in
                if negb (isEmpty identifier) then sha256hex identifier else ""
            | [] => ""
            end in
          match collectNew isItemProcessedFunc sorted [] with
          | Err e => Err e
          | Ok newItems => Ok (rev newItems, latestItemHash)
          end
      end
  end.

End Rss.

(* ===================================================================== *)
(** * internal/database: models *)
(* ===================================================================== *)

Module Database.

Record Proxy := mkProxy {
  ProxyID : Z;
  ProxyName : string;
  ProxyType : string;
  ProxyAddress : string;
  IsDefaultForRSS : bool;
  IsDefaultForTelegram : bool
}.

Record FormattingProfileConfig := mkConfig {
  TitleTemplate : string;
  MessageTemplate : string;
  Hashtags : list string;
  IncludeAuthor : bool;
  OmitGenericTitleRegex : string;
  UseTelegraphThresholdChars : Z;
  ReplaceEmojiImagesWithAlt : bool
}.

(** The zero value [FormattingProfileConfig{}]. *)
Definition zeroConfig : FormattingProfileConfig :=
  mkConfig "" "" [] false "" 0 false.

Record FormattingProfile := mkProfile {
  ProfileID : Z;
  ProfileName : string;
  ConfigJSON : string
}.

Record Feed := mkFeed {
  ID : Z;
  URL : string;
  UserTitle : option string;
  FrequencySeconds : Z;
  TelegramBotID : option Z;
  TelegramChatID : string;
  LastProcessedItemGUIDHash : option string;
  LastFetchedAt : option Z;
  IsEnabled : bool;
  HTTPEtag : option string;
  HTTPLastModified : option string;
  Proxy_ : option Proxy;
  FormattingProfile_ : option FormattingProfile
}.

End Database.

(* ===================================================================== *)
(** * context.Context and golang.org/x/time/rate *)
(* ===================================================================== *)

Module Context.

(** A context, seen from the code that waits on it: the instant its [Done]
    channel closes, if ever, and the error [Err] then returns. *)
Record Ctx := mkCtx {
  doneAt : option Z;
  errOf : CtxErr
}.

(** [context.Background()]: never done. *)
Definition Background : Ctx := mkCtx None Canceled.

Definition isDone (ctx : Ctx) (now : Z) : bool :=
  match doneAt ctx with
  | Some t => t <=? now
  | None => false
  end.

End Context.

Module Rate.

Import Context.

(** A token bucket.  Tokens are counted in billionths, so that [limit]
    tokens a second is [limit] units a nanosecond. *)
Record Limiter := mkLimiter {
  limit : Z;          (* tokens per second *)
  burst : Z;
  tokens : Z;         (* billionths of a token; negative while reserved ahead *)
  last : Z
}.

Definition unit : Z := 1000000000.

(** [rate.NewLimiter(r, b)]: the bucket starts full. *)
Definition NewLimiter (r b : Z) (now : Z) : Limiter :=
  mkLimiter r b (b * unit) now.

(** The tokens at [now]: refilled at [limit] a second, up to [burst]. *)
Definition advance (lim : Limiter) (now : Z) : Z :=
  let elapsed := Z.max 0 (now - last lim) in
  Z.min (burst lim * unit) (tokens lim + elapsed * limit lim).

(** [Limiter.Wait(ctx)] called at [now]: the instant it returns, the
    limiter after it, and its error.  It fails at once on a done context,
    reserves one token otherwise and sleeps until the token is there, unless
    the context is done first, which gives the token back. *)
Definition Wait (lim : Limiter) (ctx : Ctx) (now : Z) : Z * Limiter * option error :=
  if isDone ctx now then (now, lim, Some (ErrCtx (errOf ctx)))
  else
    let t := advance lim now - unit in
    let delay := if t <? 0 then (- t + limit lim - 1) / limit lim else 0 in
    match doneAt ctx with
    | Some d =>
        if d <? now + delay
        then (d, mkLimiter (limit lim) (burst lim) (advance lim now) now,
              Some (ErrCtx (errOf ctx)))
        else (now + delay, mkLimiter (limit lim) (burst lim) t now, None)
    | None => (now + delay, mkLimiter (limit lim) (burst lim) t now, None)
    end.

End Rate.

(* ===================================================================== *)
(** * unicode/utf8: the conversions [[]rune(s)] and [string(runes)] *)
(* ===================================================================== *)

Module Utf8.

Local Open Scope N_scope.

Definition RuneError : N := 0xFFFD.

Definition cont (b : N) : bool := (0x80 <=? b) && (b <=? 0xBF).

(** [[]rune(s)] on the bytes of [s]: an ill-formed byte decodes to
    [RuneError] and one byte is consumed. *)
Fixpoint decode (bs : list N) : list N :=
  match bs with
  | [] => []
  | b0 :: r0 =>
      if b0 <? 0x80 then b0 :: decode r0
      else
        match r0 with
        | b1 :: r1 =>
            if (0xC2 <=? b0) && (b0 <=? 0xDF) && cont b1
            then ((b0 - 0xC0) * 64 + (b1 - 0x80)) :: decode r1
            else
              match r1 with
              | b2 :: r2 =>
                  let lo := if b0 =? 0xE0 then 0xA0 else 0x80 in
                  let hi := if b0 =? 0xED then 0x9F else 0xBF in
                  if (0xE0 <=? b0) && (b0 <=? 0xEF) && (lo <=? b1) && (b1 <=? hi) && cont b2
                  then ((b0 - 0xE0) * 4096 + (b1 - 0x80) * 64 + (b2 - 0x80)) :: decode r2
                  else
                    match r2 with
                    | b3 :: r3 =>
                        let lo := if b0 =? 0xF0 then 0x90 else 0x80 in
                        let hi := if b0 =? 0xF4 then 0x8F else 0xBF in
                        if (0xF0 <=? b0) && (b0 <=? 0xF4) && (lo <=? b1) && (b1 <=? hi)
                           && cont b2 && cont b3
                        then ((b0 - 0xF0) * 262144 + (b1 - 0x80) * 4096
                              + (b2 - 0x80) * 64 + (b3 - 0x80)) :: decode r3
                        else RuneError :: decode r0
                    | [] => RuneError :: decode r0
                    end
              | [] => RuneError :: decode r0
              end
        | [] => [RuneError]
        end
  end.

(** [utf8.EncodeRune]: surrogates and values beyond U+10FFFF encode as
    [RuneError]. *)
Definition encodeRune (r : N) : list N :=
  if r <? 0x80 then [r]
  else if r <? 0x800 then [0xC0 + r / 64; 0x80 + r mod 64]
  else if ((0xD800 <=? r) && (r <=? 0xDFFF)) || (0x10FFFF <? r) then [0xEF; 0xBF; 0xBD]
  else if r <? 0x10000 then [0xE0 + r / 4096; 0x80 + (r / 64) mod 64; 0x80 + r mod 64]
  else [0xF0 + r / 262144; 0x80 + (r / 4096) mod 64; 0x80 + (r / 64) mod 64; 0x80 + r mod 64].

Fixpoint string_of_bytes (bs : list N) : string :=
  match bs with
  | [] => EmptyString
  | b :: r => String (ascii_of_N b) (string_of_bytes r)
  end.

(** [[]rune(s)] *)
Definition runes (s : string) : list N := decode (Sha256.bytes_of_string s).

(** [string(runes)] *)
Definition toString (rs : list N) : string :=
  string_of_bytes (flat_map encodeRune rs).

End Utf8.

(* ===================================================================== *)
(** * internal/telegram/client.go *)
(* ===================================================================== *)

Module Telegram.

Import Context.

(** [interfaces.FormattedMessagePart] *)
Record FormattedMessagePart := mkPart {
  Text : string;
  ParseMode : string;
  PhotoURL : string;
  DocumentURL : string;
  DocumentCaption : string;
  DocumentName : string
}.

Definition textPart (text parseMode : string) : FormattedMessagePart :=
  mkPart text parseMode "" "" "" "".

Definition telegramMaxMessageLength : nat := 4096.
Definition globalMessagesPerSecond : Z := 25.
Definition chatMessagesPerSecond : Z := 1.

(** The chat a message goes to: [BaseChat.ChatID] or [BaseChat.ChannelUsername]. *)
Inductive Target :=
| ChatID (id : Z)
| ChannelUsername (name : string).

(** [tgbotapi.Chattable]: the three configurations [Send] builds. *)
Inductive Chattable :=
| PhotoConfig (to : Target) (file caption parseMode : string)
| DocumentConfig (to : Target) (file caption parseMode : string)
| MessageConfig (to : Target) (text parseMode : string).

(** The library and the network behind the client. *)
Record Env := mkEnv {
  getClient : option Database.Proxy -> option error;  (* clientFactory.GetClient *)
  newBotAPI : string -> result string;     (* NewBotAPIWithClient: the bot's user name *)
  botSend : nat -> Chattable -> option error; (* bot.Send, by number of earlier calls *)
  sscanInt64 : string -> option Z          (* fmt.Sscan into an int64 *)
}.

(** [Client], with the clock and the record of what it did. *)
Inductive Event :=
| EvGlobalToken (index : nat) (at_ : Z)               (* globalLimiter.Wait returned nil *)
| EvChatToken (index : nat) (chat : string) (at_ : Z) (* chatLimiter.Wait returned nil *)
| EvSent (index : nat) (msg : Chattable).            (* bot.Send returned nil *)

Record Client := mkClient {
  bots : gmap string string;
  globalLimiter : Rate.Limiter;
  chatLimiters : gmap string Rate.Limiter;
  now : Z;
  apiCalls : nat;
  events : list Event
}.

Definition NewClient (t : Z) : Client :=
  mkClient ∅ (Rate.NewLimiter globalMessagesPerSecond (globalMessagesPerSecond * 2) t)
           ∅ t 0 [].

Definition getBotAPI (env : Env) (c : Client) (botToken : string)
    (proxy : option Database.Proxy) : Client * result string :=
  match bots c !! botToken with
  | Some bot => (c, Ok bot)
  | None =>
      match getClient env proxy with
      | Some e => (c, Err (ErrWrap "failed to get HTTP client for Telegram bot" e))
      | None =>
          match newBotAPI env botToken with
          | Err e => (c, Err (ErrWrap "failed to create bot API instance" e))
          | Ok api =>
              (mkClient (<[botToken := api]> (bots c)) (globalLimiter c) (chatLimiters c)
                        (now c) (apiCalls c) (events c), Ok api)
          end
      end
  end.

Definition getChatLimiter (c : Client) (chatID : string) : Rate.Limiter :=
  match chatLimiters c !! chatID with
  | Some limiter => limiter
  | None => Rate.NewLimiter chatMessagesPerSecond (chatMessagesPerSecond * 2) (now c)
  end.

(** The message [Send] builds for a part; [None] for a part with no text,
    photo or document, which is skipped. *)
Definition msgConfigOf (to : Target) (part : FormattedMessagePart) : option Chattable :=
  if negb (isEmpty (PhotoURL part)) then
    Some (PhotoConfig to (PhotoURL part) (Text part) (ParseMode part))
  else if negb (isEmpty (DocumentURL part)) then
    Some (DocumentConfig to (DocumentURL part) (DocumentCaption part) (ParseMode part))
  else if negb (isEmpty (Text part)) then
    Some (MessageConfig to (Text part) (ParseMode part))
  else None.

(** The [for i, part := range parts] loop of [Send].  Both limiters wait on
    [globalCtxLimiter], which is [context.Background()]. *)
Fixpoint sendParts (env : Env) (c : Client) (chatIDStr : string) (to : Target)
    (i : nat) (parts : list FormattedMessagePart) : Client * option error :=
  match parts with
  | [] => (c, None)
  | part :: rest =>
      let globalCtxLimiter := Background in
      let '(t1, gl, err) := Rate.Wait (globalLimiter c) globalCtxLimiter (now c) in
      let c := mkClient (bots c) gl (chatLimiters c) t1 (apiCalls c) (events c) in
      match err with
      | Some e => (c, Some (ErrWrap "global rate limiter wait" e))
      | None =>
          let c := mkClient (bots c) (globalLimiter c) (chatLimiters c) (now c) (apiCalls c)
                            (events c ++ [EvGlobalToken i t1]) in
          let chatLimiter := getChatLimiter c chatIDStr in
          let '(t2, cl, err) := Rate.Wait chatLimiter globalCtxLimiter (now c) in
          let c := mkClient (bots c) (globalLimiter c) (<[chatIDStr := cl]> (chatLimiters c))
                            t2 (apiCalls c) (events c) in
          match err with
          | Some e => (c, Some (ErrWrap "chat rate limiter wait" e))
          | None =>
              let c := mkClient (bots c) (globalLimiter c) (chatLimiters c) (now c) (apiCalls c)
                                (events c ++ [EvChatToken i chatIDStr t2]) in
              match msgConfigOf to part with
              | None => sendParts env c chatIDStr to (S i) rest
              | Some msgConfig =>
                  let r := botSend env (apiCalls c) msgConfig in
                  let c := mkClient (bots c) (globalLimiter c) (chatLimiters c) (now c)
                                    (S (apiCalls c)) (events c) in
                  match r with
                  | Some e => (c, Some (ErrWrap "sending message part to chat" e))
                  | None =>
                      let c := mkClient (bots c) (globalLimiter c) (chatLimiters c) (now c)
                                        (apiCalls c) (events c ++ [EvSent i msgConfig]) in
                      sendParts env c chatIDStr to (S i) rest
                  end
              end
          end
      end
  end.

(** [Client.Send].  The caller's [ctx] is a parameter the body never reads. *)
Definition Send (env : Env) (c : Client) (ctx : Ctx) (botToken chatIDStr : string)
    (parts : list FormattedMessagePart) (proxy : option Database.Proxy)
    : Client * option error :=
  match getBotAPI env c botToken proxy with
  | (c, Err e) => (c, Some (ErrWrap "getting bot API" e))
  | (c, Ok bot) =>
      let to :=
        match sscanInt64 env chatIDStr with
        | Some numericChatID => ChatID numericChatID
        | None => ChannelUsername chatIDStr
        end in
      sendParts env c chatIDStr to 0 parts
  end.

(** The loop of [SplitMessage] over the runes: [fuel] bounds the
    iterations, each of which takes [telegramMaxMessageLength] runes or
    what is left. *)
Fixpoint splitRunes (fuel : nat) (runes : list N) : list (list N) :=
  match fuel with
  | O => []
  | S fuel' =>
      match runes with
      | [] => []
      | _ => firstn telegramMaxMessageLength runes
             :: splitRunes fuel' (skipn telegramMaxMessageLength runes)
      end
  end.

(** [SplitMessage] *)
Definition SplitMessage (text parseMode : string) : list FormattedMessagePart :=
  if (String.length text <=? telegramMaxMessageLength)%nat then
    [textPart text parseMode]
  else
    let runes := Utf8.runes text in
    map (fun chunk => textPart (Utf8.toString chunk) parseMode)
        (splitRunes (length runes) runes).

End Telegram.

(* ===================================================================== *)
(** * Package strings and html *)
(* ===================================================================== *)

Module Strings.

Definition nl : string := String (ascii_of_nat 10) EmptyString.
Definition dquote : ascii := ascii_of_nat 34.
Definition quote : string := String dquote EmptyString.

Definition bytes (s : string) : list ascii := list_ascii_of_string s.
Definition str (l : list ascii) : string := string_of_list_ascii l.

Fixpoint hasPrefixL (p l : list ascii) : bool :=
  match p, l with
  | [], _ => true
  | a :: p', b :: l' => Ascii.eqb a b && hasPrefixL p' l'
  | _ :: _, [] => false
  end.

(** [strings.HasPrefix] *)
Definition HasPrefix (s prefix : string) : bool := hasPrefixL (bytes prefix) (bytes s).

Fixpoint containsL (sub l : list ascii) : bool :=
  hasPrefixL sub l ||
  match l with
  | [] => false
  | _ :: l' => containsL sub l'
  end.

(** [strings.Contains] *)
Definition Contains (s substr : string) : bool := containsL (bytes substr) (bytes s).

(** [strings.TrimPrefix] *)
Definition TrimPrefix (s prefix : string) : string :=
  if HasPrefix s prefix then str (skipn (length (bytes prefix)) (bytes s)) else s.

(** [strings.ReplaceAll(s, old, new)] for one-character [old] and [new]. *)
Fixpoint ReplaceAll (s : string) (old new : ascii) : string :=
  match s with
  | EmptyString => EmptyString
  | String c r => String (if Ascii.eqb c old then new else c) (ReplaceAll r old new)
  end.

(** [strings.Join] *)
Fixpoint Join (elems : list string) (sep : string) : string :=
  match elems with
  | [] => ""
  | [e] => e
  | e :: r => e +:+ sep +:+ Join r sep
  end.

(** The UTF-8 encodings of the code points of Unicode's White Space
    property, which [strings.TrimSpace] removes: U+0009..U+000D, U+0020,
    U+0085, U+00A0, U+1680, U+2000..U+200A, U+2028, U+2029, U+202F, U+205F,
    U+3000. *)
Definition spaceRunes : list N :=
  [ 0x09; 0x0A; 0x0B; 0x0C; 0x0D; 0x20; 0x85; 0xA0; 0x1680;
    0x2000; 0x2001; 0x2002; 0x2003; 0x2004; 0x2005; 0x2006; 0x2007; 0x2008; 0x2009; 0x200A;
    0x2028; 0x2029; 0x202F; 0x205F; 0x3000 ]%N.

Definition spaces : list (list ascii) :=
  map (fun r => map ascii_of_N (Utf8.encodeRune r)) spaceRunes.

(** The white-space sequence [l] starts with, if any. *)
Definition leadingSpace (seqs : list (list ascii)) (l : list ascii) : option (list ascii) :=
  find (fun w => hasPrefixL w l) seqs.

Fixpoint trimLeft (fuel : nat) (seqs : list (list ascii)) (l : list ascii) : list ascii :=
  match fuel with
  | O => l
  | S fuel' =>
      match leadingSpace seqs l with
      | Some w => trimLeft fuel' seqs (skipn (length w) l)
      | None => l
      end
  end.

(** [strings.TrimSpace]: leading white space is removed, then trailing
    white space, read backwards. *)
Definition TrimSpace (s : string) : string :=
  let l := trimLeft (length (bytes s)) spaces (bytes s) in
  str (rev (trimLeft (length l) (map (@rev ascii) spaces) (rev l))).

Definition escapeChar (c : ascii) : string :=
  if Ascii.eqb c "&" then "&amp;"
  else if Ascii.eqb c "'" then "&#39;"
  else if Ascii.eqb c "<" then "&lt;"
  else if Ascii.eqb c ">" then "&gt;"
  else if Ascii.eqb c dquote then "&#34;"
  else String c EmptyString.

(** [html.EscapeString] *)
Fixpoint EscapeString (s : string) : string :=
  match s with
  | EmptyString => EmptyString
  | String c r => escapeChar c +:+ EscapeString r
  end.

End Strings.

(* ===================================================================== *)
(** * internal/formatter/formatter.go *)
(* ===================================================================== *)

Module Formatter.

Import Strings.

(** [tgbotapi.ModeHTML] *)
Definition defaultParseMode : string := "HTML".

(** A [bluemonday.Policy], as its builder calls leave it: the elements it
    lets through and, for each, the attributes allowed on it with the
    pattern their value must match, if any. *)
Record AttrRule := mkAttrRule {
  attrName : string;
  attrPattern : option string
}.

Definition Policy := list (string * list AttrRule).

Definition NewPolicy : Policy := [].

Fixpoint allowOn (p : Policy) (el : string) (rules : list AttrRule) : Policy :=
  match p with
  | [] => [(el, rules)]
  | (e, rs) :: r =>
      if String.eqb e el then (e, rs ++ rules) :: r else (e, rs) :: allowOn r el rules
  end.

(** [p.AllowElements(names...)] *)
Definition AllowElements (names : list string) (p : Policy) : Policy :=
  fold_left (fun p el => allowOn p el []) names p.

(** [p.AllowAttrs(attr).OnElements(names...)] and
    [p.AllowAttrs(attr).Matching(re).OnElements(names...)] *)
Definition AllowAttrs (attr : string) (pattern : option string) (names : list string)
    (p : Policy) : Policy :=
  fold_left (fun p el => allowOn p el [mkAttrRule attr pattern]) names p.

(** The policy [init] builds. *)
Definition telegramHTMLPolicy : Policy :=
  let p := NewPolicy in
  let p := AllowAttrs "href" None ["a"] p in
  let p := AllowElements ["b"; "strong"; "i"; "em"; "u"; "s"; "strike"; "del"] p in
  let p := AllowElements ["code"] p in
  let p := AllowElements ["pre"] p in
  let p := AllowAttrs "class" (Some "^language-[a-zA-Z0-9]+$") ["code"] p in
  let p := AllowElements ["span"; "tg-spoiler"] p in
  let p := AllowAttrs "class" (Some "^tg-spoiler$") ["span"] p in
  p.

Definition allowedElements (p : Policy) : list string := map fst p.

(** The [templateData] map of [FormatItem]. *)
Record TemplateData := mkData {
  dFeedTitle : string;
  dFeedURL : string;
  dItemTitle : string;
  dItemLink : string;
  dItemContent : string;
  dItemSummary : string;
  dItemAuthor : string;
  dItemDate : option Z;
  dHashtags : string
}.

(** The libraries [FormatItem] calls. *)
Class Libs := mkLibs {
  emojiSprint : string -> string;              (* emoji.Sprint *)
  Sanitize : Policy -> string -> string;       (* telegramHTMLPolicy.Sanitize *)
  MatchString : string -> string -> bool;      (* regexp.MatchString, [matched] *)
  templateExecute : string -> string -> TemplateData -> result string;
     (* template.New(name).Funcs(...).Parse(tmplStr), then Execute(data) *)
  jsonUnmarshal : string -> result Database.FormattingProfileConfig
}.

Section WithLibs.
Context `{Libs}.

(** [FormattingProfile.UnmarshalConfig] *)
Definition UnmarshalConfig (fp : Database.FormattingProfile)
    : result Database.FormattingProfileConfig :=
  if isEmpty (Database.ConfigJSON fp) then Ok Database.zeroConfig
  else jsonUnmarshal (Database.ConfigJSON fp).

(** [renderTemplate]; the data map has no key [name], so an empty template
    string is an error. *)
Definition renderTemplate (name tmplStr : string) (data : TemplateData) : result string :=
  if isEmpty tmplStr
  then Err (ErrMsg "template string is empty and no default value found in data")
  else templateExecute name tmplStr data.

Definition replaceEmojiImages (htmlContent : string) : string := htmlContent.

Definition createTelegraphPost (title htmlContent authorName : string) : result string :=
  Err (ErrMsg "telegraph posting not implemented").

(** The value a failed [renderTemplate] leaves in the variable. *)
Definition orEmpty (r : result string) : string :=
  match r with Ok s => s | Err _ => "" end.

Definition configOf (profile : option Database.FormattingProfile)
    : Database.FormattingProfileConfig :=
  match profile with
  | Some p =>
      match UnmarshalConfig p with
      | Ok cfg => cfg
      | Err _ => Database.zeroConfig
      end
  | None => Database.zeroConfig
  end.

(** The title after [OmitGenericTitleRegex]. *)
Definition titleOf (cfg : Database.FormattingProfileConfig) (item : Rss.Item) : string :=
  if negb (isEmpty (Database.OmitGenericTitleRegex cfg)) && negb (isEmpty (Rss.Title item))
     && MatchString (Database.OmitGenericTitleRegex cfg) (Rss.Title item)
  then "" else Rss.Title item.

Definition authorName (item : Rss.Item) : string :=
  match Rss.Author item with Some n => n | None => "" end.

(** The sanitized content: emoji shortcodes first, then the policy. *)
Definition sanitizedContentOf (cfg : Database.FormattingProfileConfig) (item : Rss.Item) : string :=
  let content := if isEmpty (Rss.Content item) then Rss.Description item else Rss.Content item in
  let contentWithEmojis := emojiSprint content in
  let sanitizedContent := Sanitize telegramHTMLPolicy contentWithEmojis in
  if Database.ReplaceEmojiImagesWithAlt cfg then replaceEmojiImages sanitizedContent
  else sanitizedContent.

Definition templateDataOf (cfg : Database.FormattingProfileConfig) (item : Rss.Item)
    (feed : Database.Feed) (itemTitle itemContent : string) : TemplateData :=
  let feedDisplayTitle :=
    match Database.UserTitle feed with
    | Some t => if isEmpty t then Database.URL feed else t
    | None => Database.URL feed
    end in
  mkData feedDisplayTitle (Database.URL feed) itemTitle (Rss.Link item) itemContent
         (Rss.Description item) (authorName item) (Rss.PublishedParsed item)
         (Join (Database.Hashtags cfg) " ").

(** [finalTitle] *)
Definition finalTitleOf (cfg : Database.FormattingProfileConfig) (item : Rss.Item)
    (feed : Database.Feed) : string :=
  let title := titleOf cfg item in
  if negb (isEmpty (Database.TitleTemplate cfg))
  then orEmpty (renderTemplate "title" (Database.TitleTemplate cfg)
                  (templateDataOf cfg item feed title (Rss.Content item)))
  else title.

(** [messageBody]: the rendered message template, or the default layout. *)
Definition messageBodyOf (cfg : Database.FormattingProfileConfig) (item : Rss.Item)
    (feed : Database.Feed) : string :=
  let sanitizedContent := sanitizedContentOf cfg item in
  if negb (isEmpty (Database.MessageTemplate cfg)) then
    orEmpty (renderTemplate "message" (Database.MessageTemplate cfg)
               (templateDataOf cfg item feed (titleOf cfg item) sanitizedContent))
  else
    let finalTitle := finalTitleOf cfg item feed in
    (if negb (isEmpty finalTitle) then "<b>" +:+ EscapeString finalTitle +:+ "</b>" +:+ nl else "")
    +:+ sanitizedContent
    +:+ (if negb (isEmpty (Rss.Link item))
         then nl +:+ "<a href=" +:+ quote +:+ EscapeString (Rss.Link item) +:+ quote
              +:+ ">Read more</a>"
         else "").

(** The author suffix. *)
Definition authorSuffix (cfg : Database.FormattingProfileConfig) (item : Rss.Item)
    (messageBody : string) : string :=
  match Rss.Author item with
  | Some name =>
      if Database.IncludeAuthor cfg && negb (isEmpty name) && negb (Contains messageBody name)
      then nl +:+ nl +:+ "<i>Author: " +:+ EscapeString name +:+ "</i>"
      else ""
  | None => ""
  end.

Definition cleanTagOf (tag : string) : string :=
  ReplaceAll (TrimPrefix tag "#") " " "_".

Fixpoint writeHashtags (tags : list string) : string :=
  match tags with
  | [] => ""
  | tag :: r =>
      let cleanTag := cleanTagOf tag in
      (if negb (isEmpty cleanTag) then "#" +:+ cleanTag +:+ " " else "") +:+ writeHashtags r
  end.

(** The hashtag suffix. *)
Definition hashtagSuffix (cfg : Database.FormattingProfileConfig) (messageBody : string) : string :=
  match Database.Hashtags cfg with
  | [] => ""
  | tags =>
      let hasHashtagsAlready :=
        existsb (fun tag => Contains messageBody ("#" +:+ ReplaceAll tag " " "_")) tags in
      if negb hasHashtagsAlready then nl +:+ nl +:+ writeHashtags tags else ""
  end.

(** [finalMessage] *)
Definition finalMessageOf (cfg : Database.FormattingProfileConfig) (item : Rss.Item)
    (feed : Database.Feed) : string :=
  let messageBody := messageBodyOf cfg item feed in
  TrimSpace (messageBody +:+ authorSuffix cfg item messageBody +:+ hashtagSuffix cfg messageBody).

(** [DefaultFormatter.FormatItem].  ([item.Title] is also cleared in place
    when the title is omitted; nothing reads it afterwards but the log.) *)
Definition FormatItem (item : Rss.Item) (feed : Database.Feed)
    (profile : option Database.FormattingProfile)
    : result (list Telegram.FormattedMessagePart) :=
  let cfg := configOf profile in
  let finalTitle := finalTitleOf cfg item feed in
  let finalMessage := finalMessageOf cfg item feed in
  let viaTelegraph :=
    if (0 <? Database.UseTelegraphThresholdChars cfg)
       && (Database.UseTelegraphThresholdChars cfg <? Z.of_nat (String.length finalMessage))
    then
      match createTelegraphPost finalTitle finalMessage (authorName item) with
      | Ok telegraphURL =>
          Some [Telegram.textPart ("View full post on Telegraph: " +:+ telegraphURL)
                                  defaultParseMode]
      | Err _ => None
      end
    else None in
  match viaTelegraph with
  | Some parts => Ok parts
  | None => Ok [Telegram.textPart finalMessage defaultParseMode]
  end.

End WithLibs.

End Formatter.

(* ===================================================================== *)
(** * internal/database: the feed store *)
(* ===================================================================== *)

Module Store.

Import Database.

(** The tables the worker writes: [feeds], with the proxy and the
    formatting profile already joined, and [processed_items], keyed by
    [(feed_id, item_guid_hash)] and holding [processed_at]. *)
Record DB := mkDB {
  feeds : gmap Z Feed;
  processed_items : gmap (Z * string) Z
}.

(** [FeedStore.GetFeedByID]: [Ok None] when there is no such row. *)
Definition GetFeedByID (fail : option error) (db : DB) (id : Z) : result (option Feed) :=
  match fail with
  | Some e => Err (ErrWrap "GetFeedByID scan" e)
  | None => Ok (feeds db !! id)
  end.

(** [FeedStore.IsItemProcessed] *)
Definition IsItemProcessed (fail : option error) (db : DB) (feedID : Z) (itemGUIDHash : string)
    : result bool :=
  match fail with
  | Some e => Err (ErrWrap "IsItemProcessed query" e)
  | None => Ok (bool_decide (is_Some (processed_items db !! (feedID, itemGUIDHash))))
  end.

(** [FeedStore.AddProcessedItem]: [INSERT OR IGNORE]. *)
Definition AddProcessedItem (fail : option error) (now : Z) (db : DB) (feedID : Z)
    (itemGUIDHash : string) : DB * option error :=
  match fail with
  | Some e => (db, Some (ErrWrap "AddProcessedItem exec" e))
  | None =>
      match processed_items db !! (feedID, itemGUIDHash) with
      | Some _ => (db, None)
      | None => (mkDB (feeds db) (<[(feedID, itemGUIDHash) := now]> (processed_items db)), None)
      end
  end.

(** [FeedStore.UpdateFeedLastProcessed]: one [UPDATE] of the four columns
    of the row [feedID]; a nil pointer is stored as NULL. *)
Definition UpdateFeedLastProcessed (fail : option error) (now : Z) (db : DB) (feedID : Z)
    (lastItemHash etag lastModified : option string) : DB * option error :=
  match fail with
  | Some e => (db, Some (ErrWrap "UpdateFeedLastProcessed exec" e))
  | None =>
      match feeds db !! feedID with
      | None => (db, None)
      | Some f =>
          let f' := mkFeed (ID f) (URL f) (UserTitle f) (FrequencySeconds f) (TelegramBotID f)
                           (TelegramChatID f) lastItemHash (Some now) (IsEnabled f)
                           etag lastModified (Proxy_ f) (FormattingProfile_ f) in
          (mkDB (<[feedID := f']> (feeds db)) (processed_items db), None)
      end
  end.

End Store.

(* ===================================================================== *)
(** * internal/app: the feed worker *)
(* ===================================================================== *)

Module Worker.

Import Database.

(** [interfaces.FeedFetcher] *)
Record FeedFetcher := mkFetcher {
  Fetch : string -> option string -> option string -> option Proxy
          -> list Rss.FetchEvent * result Rss.FetchResult
}.

(** [rss.GoFeedFetcher] behind the interface; the client factory turns the
    proxy into the HTTP client, hence into the network the fetch sees. *)
Definition GoFeedFetcher (net : option Proxy -> Rss.FetchEnv) : FeedFetcher :=
  mkFetcher (fun url etag lastModified proxy => Rss.Fetch (net proxy) url etag lastModified).

(** [interfaces.Formatter] *)
Record Formatter := mkFormatter {
  FormatItem : Rss.Item -> Feed -> option FormattingProfile
               -> result (list Telegram.FormattedMessagePart)
}.

(** [interfaces.Notifier]: the worker only sends through a
    [*telegram.Client]; any other implementation fails the type assertion. *)
Inductive Notifier :=
| TelegramClient (env : Telegram.Env)
| OtherNotifier.

(** [config.AppConfig] *)
Record AppConfig := mkAppConfig { DryRun : bool }.

(** The failures of the stores during one run, and the stores the worker
    only reads. *)
Record StoreEnv := mkStoreEnv {
  failGetFeedByID : option error;
  failIsItemProcessed : string -> option error;
  failAddProcessedItem : string -> option error;
  failUpdateFeedLastProcessed : option error;
  GetDefaultProxy : string -> result (option Proxy);  (* ProxyStore.GetDefaultProxy *)
  GetTokenByBotID : Z -> result string                (* TelegramBotStore.GetTokenByBotID *)
}.

Record FeedWorker := mkWorker {
  stores : StoreEnv;
  fetcher : FeedFetcher;
  formatter : Formatter;
  notifier : Notifier;
  appConfig : AppConfig
}.

(** What a run can change: the database, and the Telegram client with the
    clock. *)
Record World := mkWorld {
  db : Store.DB;
  client : Telegram.Client
}.

(** How a run ends, named after the metric label of the exit taken. *)
Inductive Outcome :=
| DbError | Skipped | FetchError | NotModified | FilterError | NoNewItems
| TokenError | ConfigError | SendError | Success.

Definition clock (w : World) : Z := Telegram.now (client w).

(** Time passing while the run sleeps. *)
Definition sleep (d : Z) (w : World) : World :=
  let c := client w in
  mkWorld (db w)
    (Telegram.mkClient (Telegram.bots c) (Telegram.globalLimiter c) (Telegram.chatLimiters c)
                       (Telegram.now c + d) (Telegram.apiCalls c) (Telegram.events c)).

Definition sleptIn (tr : list Rss.FetchEvent) : Z :=
  fold_right (fun ev acc => match ev with Rss.EvSleep d => d + acc | _ => acc end) 0 tr.

(** The proxy of a request: the feed's own, else, outside dry runs, the
    default one of that kind. *)
Definition resolveProxy (w : FeedWorker) (currentFeed : Feed) (kind : string) : option Proxy :=
  match Proxy_ currentFeed with
  | Some p => Some p
  | None =>
      if negb (DryRun (appConfig w)) then
        match GetDefaultProxy (stores w) kind with
        | Ok (Some p) => Some p
        | _ => None
        end
      else None
  end.

(** The [for _, item := range newItems] loop: the world after it and the
    hash of the last item processed, or the send error on which the run
    returns. *)
Fixpoint processItems (w : FeedWorker) (ctx : Context.Ctx) (currentFeed : Feed)
    (botToken : string) (telegramProxy : option Proxy)
    (newItems : list Rss.Item) (lastSuccessfullyProcessedItemHash : string)
    (wd : World) : World * result string :=
  match newItems with
  | [] => (wd, Ok lastSuccessfullyProcessedItemHash)
  | item :: rest =>
      match FormatItem (formatter w) item currentFeed (FormattingProfile_ currentFeed) with
      | Err _ =>
          processItems w ctx currentFeed botToken telegramProxy rest
                       lastSuccessfullyProcessedItemHash wd
      | Ok formattedParts =>
          let '(wd, err) :=
            if DryRun (appConfig w) then (wd, None)
            else
              match notifier w with
              | TelegramClient env =>
                  let '(c, err) := Telegram.Send env (client wd) ctx botToken
                                     (TelegramChatID currentFeed) formattedParts telegramProxy in
                  (mkWorld (db wd) c, err)
              | OtherNotifier =>
                  (wd, Some (ErrMsg "notifier type mismatch for proxy handling"))
              end in
          match err with
          | Some e => (wd, Err e)
          | None =>
              let itemIdentifier := Rss.identifierOf item in
              let currentItemHash := sha256hex itemIdentifier in
              let '(d, _) := Store.AddProcessedItem
                               (failAddProcessedItem (stores w) currentItemHash) (clock wd)
                               (db wd) (ID currentFeed) currentItemHash in
              processItems w ctx currentFeed botToken telegramProxy rest
                           currentItemHash (mkWorld d (client wd))
          end
      end
  end.

Definition fiveMinutes : Z := 5 * 60 * Rss.second.

(** [FeedWorker.ProcessFeed] *)
Definition ProcessFeed (w : FeedWorker) (feedFromScheduler : Feed) (wd : World)
    : World * Outcome :=
  let ctx := Context.mkCtx (Some (clock wd + fiveMinutes)) DeadlineExceeded in
  match Store.GetFeedByID (failGetFeedByID (stores w)) (db wd) (ID feedFromScheduler) with
  | Err _ => (wd, DbError)
  | Ok None => (wd, Skipped)
  | Ok (Some currentFeed) =>
      if negb (IsEnabled currentFeed) then (wd, Skipped) else
      let rssProxy := resolveProxy w currentFeed "rss" in
      let '(tr, fetched) := Fetch (fetcher w) (URL currentFeed) (HTTPEtag currentFeed)
                                  (HTTPLastModified currentFeed) rssProxy in
      let wd := sleep (sleptIn tr) wd in
      match fetched with
      | Err _ => (wd, FetchError)
      | Ok fetchResult =>
          match Rss.ResFeed fetchResult with
          | None =>
              let '(d, _) := Store.UpdateFeedLastProcessed
                               (failUpdateFeedLastProcessed (stores w)) (clock wd) (db wd)
                               (ID currentFeed) (LastProcessedItemGUIDHash currentFeed)
                               (HTTPEtag currentFeed) (HTTPLastModified currentFeed) in
              (mkWorld d (client wd), NotModified)
          | Some feedData =>
              let isItemProcessed := fun itemGUIDHash =>
                Store.IsItemProcessed (failIsItemProcessed (stores w) itemGUIDHash) (db wd)
                                      (ID currentFeed) itemGUIDHash in
              match Rss.GetNewItems (Some feedData) isItemProcessed with
              | Err _ => (wd, FilterError)
              | Ok (newItems, latestItemInFeedHash) =>
                  match newItems with
                  | [] =>
                      let hashToStore :=
                        if negb (isEmpty latestItemInFeedHash) then Some latestItemInFeedHash
                        else LastProcessedItemGUIDHash currentFeed in
                      let '(d, _) := Store.UpdateFeedLastProcessed
                                       (failUpdateFeedLastProcessed (stores w)) (clock wd) (db wd)
                                       (ID currentFeed) hashToStore
                                       (Rss.NewEtag fetchResult) (Rss.NewLastModified fetchResult) in
                      (mkWorld d (client wd), NoNewItems)
                  | _ =>
                      match TelegramBotID currentFeed with
                      | None => (wd, ConfigError)
                      | Some botID =>
                          match GetTokenByBotID (stores w) botID with
                          | Err _ => (wd, TokenError)
                          | Ok botToken =>
                              let telegramProxy := resolveProxy w currentFeed "telegram" in
                              match processItems w ctx currentFeed botToken telegramProxy
                                                 newItems "" wd with
                              | (wd, Err _) => (wd, SendError)
                              | (wd, Ok lastSuccessfullyProcessedItemHash) =>
                                  let finalHashToStore :=
                                    if negb (isEmpty lastSuccessfullyProcessedItemHash)
                                    then Some lastSuccessfullyProcessedItemHash
                                    else if negb (isEmpty latestItemInFeedHash)
                                    then Some latestItemInFeedHash
                                    else LastProcessedItemGUIDHash currentFeed in
                                  let '(d, _) := Store.UpdateFeedLastProcessed
                                       (failUpdateFeedLastProcessed (stores w)) (clock wd) (db wd)
                                       (ID currentFeed) finalHashToStore
                                       (Rss.NewEtag fetchResult) (Rss.NewLastModified fetchResult) in
                                  (mkWorld d (client wd), Success)
                              end
                          end
                      end
                  end
              end
          end
      end
  end.

End Worker.

(* ===================================================================== *)
(** * internal/scheduler/scheduler.go, with container/heap *)
(* ===================================================================== *)

Module Scheduler.

Import Database.

Record ScheduledTask := mkTask {
  TaskFeed : Feed;
  NextRun : Z;
  index : Z
}.

(** [PriorityQueue], a slice of tasks. *)
Abbreviation PriorityQueue := (list ScheduledTask).

Definition setIndex (t : ScheduledTask) (i : Z) : ScheduledTask :=
  mkTask (TaskFeed t) (NextRun t) i.

Definition setNextRun (t : ScheduledTask) (n : Z) : ScheduledTask :=
  mkTask (TaskFeed t) n (index t).

(** [pq.Less(i, j)]: [pq[i].NextRun.Before(pq[j].NextRun)] *)
Definition Less (pq : PriorityQueue) (i j : nat) : bool :=
  match pq !! i, pq !! j with
  | Some a, Some b => NextRun a <? NextRun b
  | _, _ => false
  end.

(** [pq.Swap(i, j)]; an index out of range panics in Go and leaves the
    queue as it is here. *)
Definition Swap (pq : PriorityQueue) (i j : nat) : PriorityQueue :=
  match pq !! i, pq !! j with
  | Some a, Some b =>
      <[j := setIndex a (Z.of_nat j)]> (<[i := setIndex b (Z.of_nat i)]> pq)
  | _, _ => pq
  end.

(** [heap.up]; [fuel] bounds the iterations, of which there are at most [j]. *)
Fixpoint up (fuel : nat) (pq : PriorityQueue) (j : nat) : PriorityQueue :=
  match fuel with
  | O => pq
  | S fuel' =>
      let i := ((j - 1) / 2)%nat in
      if (i =? j)%nat || negb (Less pq j i) then pq
      else up fuel' (Swap pq i j) i
  end.

(** [heap.down(h, i, n)] *)
Fixpoint down (fuel : nat) (pq : PriorityQueue) (i n : nat) : PriorityQueue :=
  match fuel with
  | O => pq
  | S fuel' =>
      let j1 := (2 * i + 1)%nat in
      if (n <=? j1)%nat then pq
      else
        let j2 := (j1 + 1)%nat in
        let j := if (j2 <? n)%nat && Less pq j2 j1 then j2 else j1 in
        if negb (Less pq j i) then pq
        else down fuel' (Swap pq i j) j n
  end.

(** [heap.Push(&pq, x)]: [pq.Push] appends the task with its index, then
    [up] restores the heap. *)
Definition heapPush (pq : PriorityQueue) (x : ScheduledTask) : PriorityQueue :=
  let n := length pq in
  let pq := pq ++ [setIndex x (Z.of_nat n)] in
  up (length pq) pq (length pq - 1).

(** [heap.Pop(&pq)]: the root is swapped with the last task, [down] restores
    the heap on the rest, and [pq.Pop] takes the last task off. *)
Definition heapPop (pq : PriorityQueue) : option (ScheduledTask * PriorityQueue) :=
  let n := (length pq - 1)%nat in
  let pq := Swap pq 0 n in
  let pq := down (length pq) pq 0 n in
  match pq !! n with
  | Some item => Some (setIndex item (-1), take n pq)
  | None => None
  end.

Definition second : Z := 1000000000.

(** [int64] arithmetic wraps around. *)
Definition wrap64 (z : Z) : Z := (z + 2 ^ 63) mod 2 ^ 64 - 2 ^ 63.

(** [time.Duration(n) * time.Second]: a [Duration] is an [int64] of
    nanoseconds, and the product wraps around ([int] is 64 bits wide on the
    platforms the bot is built for, so the conversion changes nothing).
    Adding a [Duration] to an instant does not wrap: a [time.Time] counts
    the seconds in an [int64] of its own. *)
Definition seconds (n : Z) : Z := wrap64 (n * second).

(** [FeedScheduler.Add] at the instant [now]; the timer is not modelled. *)
Definition Add (pq : PriorityQueue) (now : Z) (feed : Feed) : PriorityQueue :=
  let feed :=
    if FrequencySeconds feed <=? 0
    then mkFeed (ID feed) (URL feed) (UserTitle feed) 300 (TelegramBotID feed)
                (TelegramChatID feed) (LastProcessedItemGUIDHash feed) (LastFetchedAt feed)
                (IsEnabled feed) (HTTPEtag feed) (HTTPLastModified feed) (Proxy_ feed)
                (FormattingProfile_ feed)
    else feed in
  let nextRun :=
    match LastFetchedAt feed with
    | Some lastFetchedAt =>
        let potentialNextRun := lastFetchedAt + seconds (FrequencySeconds feed) in
        if now <? potentialNextRun then potentialNextRun else now + 1 * second
    | None => now + 5 * second
    end in
  heapPush pq (mkTask feed nextRun 0).

(** The loop of [FeedScheduler.runPendingTasks] at the instant [now]: the
    queue after it and the feeds whose task it started, in order.  [None]:
    the iterations allowed by [fuel] did not reach the end of the loop. *)
Fixpoint runPending (fuel : nat) (now : Z) (pq : PriorityQueue) (started : list Feed)
    : option (PriorityQueue * list Feed) :=
  match fuel with
  | O => None
  | S fuel' =>
      match pq !! 0%nat with
      | None => Some (pq, started)
      | Some task =>
          if now <? NextRun task then Some (pq, started)
          else
            match heapPop pq with
            | None => Some (pq, started)
            | Some (task, pq) =>
                let task := setNextRun task (now + seconds (FrequencySeconds (TaskFeed task))) in
                runPending fuel' now (heapPush pq task) (started ++ [TaskFeed task])
            end
      end
  end.

Definition runPendingTasks (now : Z) (pq : PriorityQueue)
    : option (PriorityQueue * list Feed) :=
  runPending (S (length pq)) now pq [].

(** The goroutine of [Start]: each time the timer set by [resetTimer]
    fires, at the first task's [NextRun] or at once when that is overdue,
    [runPendingTasks] runs.  [n] firings are followed; the result is the
    queue and the runs started, each with its feed and its instant. *)
Fixpoint loop (n : nat) (now : Z) (pq : PriorityQueue) (runs : list (Z * Z))
    : option (PriorityQueue * list (Z * Z)) :=
  match n with
  | O => Some (pq, runs)
  | S n' =>
      match pq !! 0%nat with
      | None => Some (pq, runs)
      | Some first =>
          let fire := Z.max now (NextRun first) in
          match runPendingTasks fire pq with
          | None => None
          | Some (pq, started) =>
              loop n' fire pq (runs ++ map (fun f => (ID f, fire)) started)
          end
      end
  end.

(** The runs of [feed] still going on at the instant [t], when a run
    started at [s] lasts [duration s]. *)
Definition inFlight (duration : Z -> Z) (runs : list (Z * Z)) (feed t : Z) : list (Z * Z) :=
  List.filter (fun r => (fst r =? feed) && (snd r <=? t) && (t <? snd r + duration (snd r))) runs.

End Scheduler.

(* ===================================================================== *)
(** * Vocabulary of the properties: the dedup filter and the fetcher *)
(* ===================================================================== *)

Module RssSpec.

Import Rss.

(** [a] sorts strictly before [b]: it is dated and [b] is not, or both are
    dated and [a] is the later one. *)
Definition strictlyNewer (a b : Item) : Prop :=
  match dateOf a, dateOf b with
  | Some da, Some db => db < da
  | Some _, None => True
  | None, _ => False
  end.

Definition hasIdentifier (item : Item) : bool := negb (isEmpty (identifierOf item)).

(** The order of the slice after the sort: no item is strictly newer than
    one before it. *)
Definition newestFirst : Item -> Item -> Prop := fun a b => ~ strictlyNewer b a.

(** The order of the items [GetNewItems] returns: no item is strictly newer
    than one after it, so that items without a date come first. *)
Definition oldestFirst : Item -> Item -> Prop := fun a b => ~ strictlyNewer a b.

(** The order in which dated items go oldest first and every item without
    a date comes after the dated ones. *)
Definition oldestFirstUndatedLast (a b : Item) : Prop :=
  match dateOf a, dateOf b with
  | Some da, Some db => da <= db
  | Some _, None => True
  | None, Some _ => False
  | None, None => True
  end.

(** [n] is a newest item of [items]: none is strictly newer. *)
Definition isNewest (n : Item) (items : list Item) : Prop :=
  In n items /\ forall x, In x items -> ~ strictlyNewer x n.

(** The items of [l] whose effective timestamp is [d], those without a
    timestamp when [d] is [None], in the order of [l]. *)
Definition datedAt (d : option Z) (l : list Item) : list Item :=
  List.filter (fun it => bool_decide (dateOf it = d)) l.

(** [n] is the first of the newest items of [items]: it is strictly newer
    than every item before it, and no item after it is strictly newer. *)
Definition firstNewest (n : Item) (items : list Item) : Prop :=
  exists pre post, items = pre ++ n :: post
    /\ (forall x, In x pre -> strictlyNewer n x)
    /\ (forall x, In x post -> ~ strictlyNewer x n).

(** The seen predicate that is constantly false. *)
Definition neverSeen : string -> result bool := fun _ => Ok false.

(** The seen predicate that is constantly true. *)
Definition alwaysSeen : string -> result bool := fun _ => Ok true.

(** The request of every attempt of a fetch. *)
Definition requestOf (url : string) (etag lastModified : option string) : Request :=
  mkRequest url (condHeader etag) (condHeader lastModified)
            "RSSBot/1.0 (+https://your.bot.contact.info)".

(** Whether the loop goes on to another attempt after this answer. *)
Definition retryable (o : result Response) : bool :=
  match o with
  | Err e => negb (errorsIs e Canceled || errorsIs e DeadlineExceeded)
  | Ok resp =>
      if StatusCode resp =? StatusNotModified then false
      else if StatusCode resp =? StatusOK then
        match ParsedBody resp with None => true | Some _ => false end
      else negb ((400 <=? StatusCode resp) && (StatusCode resp <? 500))
  end.

(** Nothing stops attempt [k] before its request is sent. *)
Definition starts (env : FetchEnv) (k : nat) : Prop :=
  (k = 0%nat \/ ctxDoneInBackoff env k = None) /\
  getClientErr env k = None /\ newRequestErr env = None.

(** The delay slept before attempt [k], [k >= 1]. *)
Definition backoffDelay (k : nat) : Z := Z.min (2 ^ Z.of_nat k * second) maxRetryDelay.

(** One iteration of the loop: it returns, or goes on with a new delay and
    a last error. *)
Inductive Step :=
| Stop (evs : list FetchEvent) (r : result FetchResult)
| Next (evs : list FetchEvent) (d : Z) (lastErr : error).

Definition sleepOf (attempt : nat) (d : Z) : list FetchEvent :=
  if (0 <? attempt)%nat then [EvSleep d] else [].

Definition delayAfter (attempt : nat) (d : Z) : Z :=
  if (0 <? attempt)%nat then (if maxRetryDelay <? d * 2 then maxRetryDelay else d * 2) else d.

Definition step (env : FetchEnv) (url : string) (etag lastModified : option string)
    (attempt : nat) (d : Z) : Step :=
  let requestOf := requestOf url etag lastModified in
  if (0 <? attempt)%nat && bool_decide (is_Some (ctxDoneInBackoff env attempt)) then
    Stop [] (Err (ErrWrap "fetch context cancelled during retry backoff"
                    (ErrCtx (default Canceled (ctxDoneInBackoff env attempt)))))
  else
    match getClientErr env attempt, newRequestErr env with
    | Some e, _ => Stop (sleepOf attempt d) (Err (ErrWrap "failed to get HTTP client" e))
    | None, Some e => Stop (sleepOf attempt d) (Err (ErrWrap "failed to create request" e))
    | None, None =>
        let evs := sleepOf attempt d ++ [EvAttempt attempt requestOf] in
        let o := doRequest env attempt requestOf in
        if retryable o then
          Next evs (delayAfter attempt d)
               match o with
               | Err errDo => ErrWrap "failed to fetch feed" errDo
               | Ok resp =>
                   if StatusCode resp =? StatusOK
                   then ErrWrap "failed to parse feed" (ErrLib "gofeed")
                   else ErrStatus attempt (StatusCode resp)
               end
        else
          Stop evs
               match o with
               | Err errDo => Err (ErrWrap "failed to fetch feed" errDo)
               | Ok resp =>
                   if StatusCode resp =? StatusNotModified
                   then Ok (mkFetchResult None etag lastModified)
                   else if StatusCode resp =? StatusOK
                   then Ok (mkFetchResult (ParsedBody resp) (Some (headerGet (HeaderETag resp)))
                                          (Some (headerGet (HeaderLastModified resp))))
                   else Err (ErrStatus attempt (StatusCode resp))
               end
    end.

(** What the fetch returns after an answer it does not retry. *)
Definition finalResult (etag lastModified : option string) (attempt : nat)
    (o : result Response) : result FetchResult :=
  match o with
  | Err errDo => Err (ErrWrap "failed to fetch feed" errDo)
  | Ok resp =>
      if StatusCode resp =? StatusNotModified
      then Ok (mkFetchResult None etag lastModified)
      else if StatusCode resp =? StatusOK
      then Ok (mkFetchResult (ParsedBody resp) (Some (headerGet (HeaderETag resp)))
                             (Some (headerGet (HeaderLastModified resp))))
      else Err (ErrStatus attempt (StatusCode resp))
  end.

(** The shape of a trace from attempt [k] on: attempt 0 comes first, every
    later attempt [k] right after the sleep [backoffDelay k], and no attempt
    is numbered beyond [maxFetchRetries].  A trace may end after a sleep, when
    the client or the request cannot be made. *)
Inductive Shape (req : Request) : nat -> list FetchEvent -> Prop :=
| ShapeEnd k : Shape req k []
| ShapeFirst tl : Shape req 1 tl -> Shape req 0 (EvAttempt 0 req :: tl)
| ShapeSleep k : (1 <= k <= maxFetchRetries)%nat -> Shape req k [EvSleep (backoffDelay k)]
| ShapeRetry k tl :
    (1 <= k <= maxFetchRetries)%nat -> Shape req (S k) tl ->
    Shape req k (EvSleep (backoffDelay k) :: EvAttempt k req :: tl).

(** The attempts and the sleeps of a trace, in order. *)
Definition attemptsOf (tr : list FetchEvent) : list nat :=
  flat_map (fun ev => match ev with EvAttempt n _ => [n] | _ => [] end) tr.

Definition sleepsOf (tr : list FetchEvent) : list Z :=
  flat_map (fun ev => match ev with EvSleep d => [d] | _ => [] end) tr.

End RssSpec.

(* ===================================================================== *)
(** * The sentences of the specification on the dedup filter and the
      fetcher, and the inputs they are tried on *)
(* ===================================================================== *)

Module RssClaims.

Import Rss RssSpec.

(** [SelectNew] with the constantly-false predicate, in the words of the
    specification: exactly the items with an identifier, oldest first with
    the items without a timestamp after the others, and as high-water mark
    the fingerprint of the newest item. *)
Definition SelectNew_as_stated (fd : Feed) : Prop :=
  exists out hw,
    GetNewItems (Some fd) neverSeen = Ok (out, hw)
    /\ Permutation out (List.filter hasIdentifier (Items fd))
    /\ StronglySorted oldestFirstUndatedLast out
    /\ (forall n, isNewest n (Items fd) -> hw = sha256hex (identifierOf n)).

(** A feed of three items: the newest has neither GUID nor link, one has
    no date. *)
Definition itemA : Item := mkItem "" "" "A" "" "" None (Some 30) None.
Definition itemB : Item := mkItem "b" "" "B" "" "" None None None.
Definition itemC : Item := mkItem "c" "" "C" "" "" None (Some 10) None.
Definition feedABC : Feed := mkFeed [itemA; itemB; itemC].

(** The retry policy in the words of the specification: an answer 5xx, 408
    or 429 and a transport error are followed by another attempt, as long
    as a retry is left and nothing stops it. *)
Definition retried_as_stated (env : FetchEnv) (url : string)
    (etag lastModified : option string) : Prop :=
  let req := requestOf url etag lastModified in
  let tr := (Fetch env url etag lastModified).1 in
  forall k resp,
    (k < maxFetchRetries)%nat ->
    In (EvAttempt k req) tr ->
    doRequest env k req = Ok resp ->
    (500 <= StatusCode resp < 600 \/ StatusCode resp = 408 \/ StatusCode resp = 429) ->
    starts env (S k) ->
    In (EvAttempt (S k) req) tr.

(** A server that answers every request with the given status, no cache
    header and a feed without items. *)
Definition serverAnswering (status : Z) : FetchEnv :=
  mkFetchEnv (fun _ => None) None
             (fun _ _ => Ok (mkResponse status None None (Some (mkFeed []))))
             (fun _ => None).

(** A server whose first three answers are 503 and whose fourth is 200. *)
Definition serverRecovering : FetchEnv :=
  mkFetchEnv (fun _ => None) None
             (fun k _ => Ok (mkResponse (if (k <? 3)%nat then 503 else 200) None None
                                        (Some (mkFeed []))))
             (fun _ => None).

End RssClaims.

(* ===================================================================== *)
(** * Vocabulary of the properties: the dispatcher *)
(* ===================================================================== *)

Module TelegramSpec.

Import Context Telegram.

(** The events of a send from part [i] on: for each part the global token,
    then the token of the chat, then the message if the part has one and the
    API took it. *)
Inductive Acquisitions (chat : string) : nat -> list Event -> Prop :=
| AcqEnd i : Acquisitions chat i []
| AcqSkipped i t1 t2 tl :
    Acquisitions chat (S i) tl ->
    Acquisitions chat i (EvGlobalToken i t1 :: EvChatToken i chat t2 :: tl)
| AcqSent i t1 t2 msg tl :
    Acquisitions chat (S i) tl ->
    Acquisitions chat i (EvGlobalToken i t1 :: EvChatToken i chat t2 :: EvSent i msg :: tl).

(** How long [Wait] sleeps at [now] on a context that is never done. *)
Definition grantDelay (lim : Rate.Limiter) (now : Z) : Z :=
  let t := Rate.advance lim now - Rate.unit in
  if t <? 0 then (- t + Rate.limit lim - 1) / Rate.limit lim else 0.

(** The client after the two acquisitions for part [i]. *)
Definition afterTokens (c : Client) (chat : string) (i : nat) : Client :=
  let t1 := now c + grantDelay (globalLimiter c) (now c) in
  let gl := Rate.mkLimiter (Rate.limit (globalLimiter c)) (Rate.burst (globalLimiter c))
              (Rate.advance (globalLimiter c) (now c) - Rate.unit) (now c) in
  let c1 := mkClient (bots c) gl (chatLimiters c) t1 (apiCalls c)
                     (events c ++ [EvGlobalToken i t1]) in
  let cl := getChatLimiter c1 chat in
  let t2 := t1 + grantDelay cl t1 in
  mkClient (bots c) gl
    (<[chat := Rate.mkLimiter (Rate.limit cl) (Rate.burst cl) (Rate.advance cl t1 - Rate.unit) t1]>
       (chatLimiters c))
    t2 (apiCalls c) ((events c ++ [EvGlobalToken i t1]) ++ [EvChatToken i chat t2]).

Definition withCall (c : Client) : Client :=
  mkClient (bots c) (globalLimiter c) (chatLimiters c) (now c) (S (apiCalls c)) (events c).

Definition withSent (c : Client) (i : nat) (msg : Chattable) : Client :=
  mkClient (bots c) (globalLimiter c) (chatLimiters c) (now c) (apiCalls c)
           (events c ++ [EvSent i msg]).

(** The sentence of the specification on cancellation: when the caller's
    context is done while the send is going on (time passes in the send only
    while it waits for a token), the send returns that context's error. *)
Definition cancellation_as_stated (env : Env) (c : Client) (ctx : Ctx)
    (botToken chatIDStr : string) (parts : list FormattedMessagePart)
    (proxy : option Database.Proxy) : Prop :=
  let '(c', err) := Send env c ctx botToken chatIDStr parts proxy in
  forall t, doneAt ctx = Some t -> now c <= t < now c' ->
            exists e, err = Some e /\ errorsIs e (errOf ctx) = true.

(** [fmt.Sscan] into an [int64], on unsigned decimal numerals only. *)
Fixpoint scanDigits (s : string) (acc : Z) : option Z :=
  match s with
  | EmptyString => Some acc
  | String c r =>
      let n := Z.of_N (N_of_ascii c) in
      if (48 <=? n) && (n <=? 57) then scanDigits r (acc * 10 + (n - 48)) else None
  end.

Definition scanDecimal (s : string) : option Z :=
  match s with
  | EmptyString => None
  | _ => scanDigits s 0
  end.

(** An API that accepts every bot token and every message. *)
Definition apiAccepting : Env :=
  mkEnv (fun _ => None) (fun _ => Ok "rssbot") (fun _ _ => None) scanDecimal.

(** Three text parts for one chat, and a caller's context cancelled after
    half a second. *)
Definition threeParts : list FormattedMessagePart :=
  [textPart "one" "HTML"; textPart "two" "HTML"; textPart "three" "HTML"].

Definition cancelledAtHalfSecond : Ctx := mkCtx (Some 500000000) Canceled.

End TelegramSpec.

(* ===================================================================== *)
(** * Vocabulary of the properties: the formatter *)
(* ===================================================================== *)

Module FormatterSpec.

Import Strings Formatter.

Definition lt : ascii := "<"%char.
Definition gt : ascii := ">"%char.

(** No angle bracket among the characters. *)
Definition noAngle (l : list ascii) : bool :=
  forallb (fun c => negb (Ascii.eqb c lt) && negb (Ascii.eqb c gt)) l.

(** Reading a text for its tags: outside any tag; after a [<], reading the
    name of the element ([closing] after [</]); inside the tag of an allowed
    element, up to its [>]; or failed, on a tag of another element or on a
    [<] inside a tag. *)
Inductive TagState :=
| Outside
| InName (closing : bool) (name : list ascii)
| InTag
| Failed.

Definition allowedName (allowed : list string) (name : list ascii) : bool :=
  existsb (String.eqb (str name)) allowed.

Definition tagStep (allowed : list string) (st : TagState) (c : ascii) : TagState :=
  match st with
  | Outside => if Ascii.eqb c lt then InName false [] else Outside
  | InName closing name =>
      if Ascii.eqb c gt then (if allowedName allowed name then Outside else Failed)
      else if Ascii.eqb c " " then (if allowedName allowed name then InTag else Failed)
      else if Ascii.eqb c lt then Failed
      else if Ascii.eqb c "/" then
        match name with
        | [] => if closing then Failed else InName true []
        | _ => Failed
        end
      else InName closing (name ++ [c])
  | InTag => if Ascii.eqb c gt then Outside else if Ascii.eqb c lt then Failed else InTag
  | Failed => Failed
  end.

Definition tagRun (allowed : list string) (st : TagState) (l : list ascii) : TagState :=
  fold_left (tagStep allowed) l st.

Definition isOutside (st : TagState) : bool :=
  match st with Outside => true | _ => false end.

(** Every [<] of the text starts the tag of an element the Telegram policy
    allows, and the tag is closed: no other HTML tag appears in the text. *)
Definition tagSafe (s : string) : bool :=
  isOutside (tagRun (allowedElements telegramHTMLPolicy) Outside (bytes s)).

(** The sentence of the specification on sanitization: no part that
    [FormatItem] returns carries a tag outside the allowed set. *)
Definition sanitized_as_stated `{Libs} (item : Rss.Item) (feed : Database.Feed)
    (profile : option Database.FormattingProfile) : Prop :=
  forall parts, FormatItem item feed profile = Ok parts ->
    Forall (fun p => tagSafe (Telegram.Text p) = true) parts.

(** The sentence of the specification on length: no part that [FormatItem]
    returns is longer than the platform limit. *)
Definition bounded_as_stated `{Libs} (item : Rss.Item) (feed : Database.Feed)
    (profile : option Database.FormattingProfile) : Prop :=
  forall parts, FormatItem item feed profile = Ok parts ->
    Forall (fun p => (length (Utf8.runes (Telegram.Text p)) <= Telegram.telegramMaxMessageLength)%nat)
           parts.

End FormatterSpec.

(* ===================================================================== *)
(** * A model of the libraries behind the formatter, for the scenarios *)
(* ===================================================================== *)

Module LibModel.

Import Strings Formatter FormatterSpec.

(** [emoji.Sprint] on a text that holds no shortcode. *)
Definition emojiSprint (s : string) : string := s.

(** A [>] comes before any further [<]. *)
Fixpoint closesTag (l : list ascii) : bool :=
  match l with
  | [] => false
  | c :: r => if Ascii.eqb c gt then true else if Ascii.eqb c lt then false else closesTag r
  end.

(** The name of the element of a tag, given what follows its [<]. *)
Fixpoint nameOf (l : list ascii) : list ascii :=
  match l with
  | [] => []
  | c :: r =>
      if Ascii.eqb c gt || Ascii.eqb c " " || Ascii.eqb c "/" then [] else c :: nameOf r
  end.

Definition tagName (l : list ascii) : string :=
  str (nameOf (match l with
               | c :: r => if Ascii.eqb c "/" then r else l
               | [] => l
               end)).

(** A sanitizer: a tag whose element the policy does not allow is removed,
    what is between the tags is kept.  [skip] is true inside a tag that is
    being removed. *)
Fixpoint sanitizeL (p : Policy) (skip : bool) (l : list ascii) : list ascii :=
  match l with
  | [] => []
  | c :: r =>
      if skip then sanitizeL p (negb (Ascii.eqb c gt)) r
      else if Ascii.eqb c lt then
        if existsb (String.eqb (tagName r)) (allowedElements p) && closesTag r
        then c :: sanitizeL p false r
        else sanitizeL p true r
      else c :: sanitizeL p false r
  end.

Definition Sanitize (p : Policy) (s : string) : string := str (sanitizeL p false (bytes s)).

(** [regexp.MatchString] for a pattern without metacharacters: the text
    contains it. *)
Definition MatchString (pattern s : string) : bool := Contains s pattern.

Definition field (data : TemplateData) (name : list ascii) : option string :=
  let n := str name in
  if String.eqb n "FeedTitle" then Some (dFeedTitle data)
  else if String.eqb n "FeedURL" then Some (dFeedURL data)
  else if String.eqb n "ItemTitle" then Some (dItemTitle data)
  else if String.eqb n "ItemLink" then Some (dItemLink data)
  else if String.eqb n "ItemContent" then Some (dItemContent data)
  else if String.eqb n "ItemSummary" then Some (dItemSummary data)
  else if String.eqb n "ItemAuthor" then Some (dItemAuthor data)
  else if String.eqb n "Hashtags" then Some (dHashtags data)
  else None.

(** The template engine on templates made of text and of actions
    [{{.Field}}]: [act] holds the characters of the action being read. *)
Fixpoint renderL (data : TemplateData) (act : option (list ascii)) (l : list ascii)
    : option (list ascii) :=
  match l with
  | [] => match act with None => Some [] | Some _ => None end
  | c :: r =>
      match act with
      | None =>
          if Ascii.eqb c "{" then
            match r with
            | c1 :: c2 :: r' =>
                if Ascii.eqb c1 "{" && Ascii.eqb c2 "." then
                  match renderL data (Some []) r with
                  | Some out => Some out
                  | None => None
                  end
                else option_map (cons c) (renderL data None r)
            | _ => option_map (cons c) (renderL data None r)
            end
          else option_map (cons c) (renderL data None r)
      | Some buf =>
          if Ascii.eqb c "{" || Ascii.eqb c "." then renderL data (Some buf) r
          else if Ascii.eqb c "}" then
            match r with
            | c1 :: r' =>
                if Ascii.eqb c1 "}" then
                  match field data (rev buf), renderL data None r with
                  | Some v, Some out => Some (bytes v ++ skipn 1 out)
                  | _, _ => None
                  end
                else None
            | [] => None
            end
          else renderL data (Some (c :: buf)) r
      end
  end.

Definition templateExecute (name tmplStr : string) (data : TemplateData) : result string :=
  match renderL data None (bytes tmplStr) with
  | Some out => Ok (str out)
  | None => Err (ErrLib "text/template")
  end.

(** [json.Unmarshal] on the two documents of the scenarios. *)
Definition headlineTemplate : string := "<h1>{{.ItemTitle}}</h1>{{.ItemContent}}".

Definition headlineJSON : string :=
  "{" +:+ quote +:+ "message_template" +:+ quote +:+ ":" +:+ quote
  +:+ headlineTemplate +:+ quote +:+ "}".

Definition authorJSON : string :=
  "{" +:+ quote +:+ "include_author" +:+ quote +:+ ":true}".

Definition jsonUnmarshal (s : string) : result Database.FormattingProfileConfig :=
  if String.eqb s headlineJSON then
    Ok (Database.mkConfig "" headlineTemplate [] false "" 0 false)
  else if String.eqb s authorJSON then
    Ok (Database.mkConfig "" "" [] true "" 0 false)
  else Err (ErrLib "encoding/json").

#[export] Instance libs : Libs :=
  mkLibs emojiSprint Sanitize MatchString templateExecute jsonUnmarshal.

End LibModel.

(* ===================================================================== *)
(** * Vocabulary of the properties: the feed worker *)
(* ===================================================================== *)

Module WorkerSpec.

Import Database Worker.

(** The row of a feed in the database of a world. *)
Definition row (wd : World) (id : Z) : option Feed := Store.feeds (db wd) !! id.

(** The messages the API took, in order. *)
Definition sentMessages (wd : World) : list Telegram.Chattable :=
  flat_map (fun ev => match ev with Telegram.EvSent _ msg => [msg] | _ => [] end)
           (Telegram.events (client wd)).

(** Nothing was asked of the limiters or of the API between two worlds. *)
Definition noDispatch (wd wd' : World) : Prop :=
  Telegram.events (client wd') = Telegram.events (client wd)
  /\ Telegram.apiCalls (client wd') = Telegram.apiCalls (client wd)
  /\ Telegram.globalLimiter (client wd') = Telegram.globalLimiter (client wd)
  /\ Telegram.chatLimiters (client wd') = Telegram.chatLimiters (client wd)
  /\ Telegram.bots (client wd') = Telegram.bots (client wd).

(** What the fetch of a run returns: the worker calls its fetcher with the
    URL and the cache values of the row and with the proxy it resolves. *)
Definition fetchOf (w : FeedWorker) (currentFeed : Feed)
    : list Rss.FetchEvent * result Rss.FetchResult :=
  Fetch (fetcher w) (URL currentFeed) (HTTPEtag currentFeed) (HTTPLastModified currentFeed)
        (resolveProxy w currentFeed "rss").

(** The sentence of the specification on a fetch that returns 304: no
    item is dispatched, [last_fetched_at] advances, to an instant of the run,
    the stored cache values are retained and the fingerprint is left
    untouched. *)
Definition not_modified_as_stated (w : FeedWorker) (feed : Feed) (wd : World) : Prop :=
  (ProcessFeed w feed wd).2 = NotModified ->
  noDispatch wd (ProcessFeed w feed wd).1
  /\ exists cur rw t,
       row wd (ID feed) = Some cur /\ row (ProcessFeed w feed wd).1 (ID feed) = Some rw
       /\ LastFetchedAt rw = Some t /\ clock wd <= t
       /\ HTTPEtag rw = HTTPEtag cur /\ HTTPLastModified rw = HTTPLastModified cur
       /\ LastProcessedItemGUIDHash rw = LastProcessedItemGUIDHash cur.

(** The sentence of the specification on dry runs: a dry run writes no
    [processed_items] row and changes nothing in the database. *)
Definition dry_run_as_stated (w : FeedWorker) (feed : Feed) (wd : World) : Prop :=
  DryRun (appConfig w) = true ->
  let wd' := (ProcessFeed w feed wd).1 in
  noDispatch wd wd' /\ db wd' = db wd.

(** The sentence of the specification on a failed dispatch: the run
    stores, with [last_fetched_at] and the new cache headers, the fingerprint
    of the last item delivered, or the high-water mark when none was. *)
Definition send_error_as_stated (w : FeedWorker) (feed : Feed) (wd : World)
    (lastDelivered : option string) (highWater : string) (res : Rss.FetchResult) : Prop :=
  (ProcessFeed w feed wd).2 = SendError ->
  exists r, row (ProcessFeed w feed wd).1 (ID feed) = Some r
    /\ LastProcessedItemGUIDHash r = Some (default highWater lastDelivered)
    /\ (exists t, LastFetchedAt r = Some t /\ clock wd <= t)
    /\ HTTPEtag r = Rss.NewEtag res
    /\ HTTPLastModified r = Rss.NewLastModified res.

(** The sentences of the specification on the cache headers of a 2xx
    answer: the fetch returns them, and the run stores them. *)
Definition fetch_2xx_as_stated (env : Rss.FetchEnv) (url : string)
    (etag lastModified : option string) : Prop :=
  let req := RssSpec.requestOf url etag lastModified in
  forall k resp,
    In (Rss.EvAttempt k req) (Rss.Fetch env url etag lastModified).1 ->
    Rss.doRequest env k req = Ok resp ->
    200 <= Rss.StatusCode resp < 300 ->
    exists res, (Rss.Fetch env url etag lastModified).2 = Ok res
      /\ Rss.NewEtag res = Some (Rss.headerGet (Rss.HeaderETag resp))
      /\ Rss.NewLastModified res = Some (Rss.headerGet (Rss.HeaderLastModified resp)).

Definition headers_stored_as_stated (w : FeedWorker) (feed currentFeed : Feed) (wd : World) : Prop :=
  forall res feedData,
    (fetchOf w currentFeed).2 = Ok res -> Rss.ResFeed res = Some feedData ->
    exists r, row (ProcessFeed w feed wd).1 (ID feed) = Some r
      /\ HTTPEtag r = Rss.NewEtag res
      /\ HTTPLastModified r = Rss.NewLastModified res.

End WorkerSpec.

(* ===================================================================== *)
(** * The scenarios of the specification *)
(* ===================================================================== *)

Module Scenarios.

Import Database Worker WorkerSpec.

(** A feed polled every minute, with a bot, a chat and cache state from an
    earlier run. *)
Definition feed1 : Feed :=
  mkFeed 1 "https://example.org/feed" None 60 (Some 7) "@chan"
         (Some "h0") (Some 0) true (Some "E1") (Some "Mon, 01 Jan 2024 00:00:00 GMT")
         None None.

(** The same feed without a bot. *)
Definition feedNoBot : Feed :=
  mkFeed 1 "https://example.org/feed" None 60 None "@chan"
         (Some "h0") (Some 0) true (Some "E1") (Some "Mon, 01 Jan 2024 00:00:00 GMT")
         None None.

(** The same feed with the profile whose message template is
    [LibModel.headlineTemplate]. *)
Definition feedHeadline : Feed :=
  mkFeed 1 "https://example.org/feed" None 60 (Some 7) "@chan"
         (Some "h0") (Some 0) true (Some "E1") (Some "Mon, 01 Jan 2024 00:00:00 GMT")
         None (Some (mkProfile 1 "headline" LibModel.headlineJSON)).

Definition item1 : Rss.Item :=
  Rss.mkItem "guid-1" "https://example.org/1" "First" "<p>Hello <b>one</b></p>" ""
             None (Some 10) None.
Definition item2 : Rss.Item :=
  Rss.mkItem "guid-2" "https://example.org/2" "Second" "<p>Hello <i>two</i></p>" ""
             None (Some 20) None.
Definition item3 : Rss.Item :=
  Rss.mkItem "guid-3" "https://example.org/3" "Third" "Hello three" ""
             None (Some 30) None.

Fixpoint replicate (n : nat) (s : string) : string :=
  match n with
  | O => ""
  | S n' => s +:+ replicate n' s
  end.

(** An item whose content is 5000 characters, without title or link. *)
Definition itemLong : Rss.Item :=
  Rss.mkItem "guid-long" "" "" (replicate 5000 "a") "" None (Some 10) None.

(** A server answering 200 with the given items and cache headers. *)
Definition serverWith (items : list Rss.Item) (etag lastModified : option string)
    : Rss.FetchEnv :=
  Rss.mkFetchEnv (fun _ => None) None
    (fun _ _ => Ok (Rss.mkResponse 200 etag lastModified (Some (Rss.mkFeed items))))
    (fun _ => None).

(** An API that refuses the message of its [n]-th call and takes the
    others. *)
Definition apiRefusing (n : nat) : Telegram.Env :=
  Telegram.mkEnv (fun _ => None) (fun _ => Ok "rssbot")
                 (fun k _ => if (k =? n)%nat then Some (ErrLib "telegram") else None)
                 TelegramSpec.scanDecimal.

(** Stores that do not fail, with no default proxy. *)
Definition stores0 : StoreEnv :=
  mkStoreEnv None (fun _ => None) (fun _ => None) None (fun _ => Ok None) (fun _ => Ok "token").

Definition workerOf (dryRun : bool) (net : Rss.FetchEnv) (api : Telegram.Env) : FeedWorker :=
  mkWorker stores0 (GoFeedFetcher (fun _ => net))
           (mkFormatter (@Formatter.FormatItem LibModel.libs))
           (TelegramClient api) (mkAppConfig dryRun).

(** Stores whose update of the row of the feed fails, and a worker over
    them. *)
Definition storesFailingUpdate : StoreEnv :=
  mkStoreEnv None (fun _ => None) (fun _ => None) (Some (ErrLib "database is locked"))
             (fun _ => Ok None) (fun _ => Ok "token").

Definition workerFailingUpdate (net : Rss.FetchEnv) (api : Telegram.Env) : FeedWorker :=
  mkWorker storesFailingUpdate (GoFeedFetcher (fun _ => net))
           (mkFormatter (@Formatter.FormatItem LibModel.libs))
           (TelegramClient api) (mkAppConfig false).

(** The world before the run: the feed's row, no processed item, a new
    client, the clock at 1000. *)
Definition worldOf (feed : Feed) : World :=
  mkWorld (Store.mkDB {[ID feed := feed]} ∅) (Telegram.NewClient 1000).

Definition fp (item : Rss.Item) : string := sha256hex (Rss.identifierOf item).

End Scenarios.

(* ===================================================================== *)
(** * Vocabulary of the properties: the scheduler *)
(* ===================================================================== *)

Module SchedulerSpec.

Import Database Scheduler.

(** An entry of the queue: the feed and the instant of its next run (the
    heap index left aside). *)
Definition entry (t : ScheduledTask) : Feed * Z := (TaskFeed t, NextRun t).

Definition entries (pq : PriorityQueue) : list (Feed * Z) := map entry pq.

(** The entry of a feed whose task starts at [now]. *)
Definition reschedule (now : Z) (e : Feed * Z) : Feed * Z :=
  (fst e, now + FrequencySeconds (fst e) * second).

(** The largest number of seconds a [Duration] holds: beyond it
    [time.Duration(n) * time.Second] wraps around. *)
Definition maxFrequencySeconds : Z := 9223372036.

(** Every feed of the queue has a frequency that is positive, as [Add]
    sees to, and that a [Duration] holds, which nothing sees to. *)
Definition frequenciesInRange (pq : PriorityQueue) : Prop :=
  Forall (fun t => 0 < FrequencySeconds (TaskFeed t) <= maxFrequencySeconds) pq.

(** The task is due at [now] and its frequency wraps around to a
    [Duration] that is not positive. *)
Definition dueForever (now : Z) (t : ScheduledTask) : Prop :=
  NextRun t <= now /\ seconds (FrequencySeconds (TaskFeed t)) <= 0.

(** The sentence of the specification on runs in flight: at no instant are
    two runs of one feed going on, however long a run lasts. *)
Definition one_in_flight_as_stated (duration : Z -> Z) (n : nat) (now : Z)
    (pq : PriorityQueue) : Prop :=
  forall pq' runs feed t,
    loop n now pq [] = Some (pq', runs) ->
    (length (inFlight duration runs feed t) <= 1)%nat.

(** Scenario 6 of the specification: a feed polled every 60 s, last
    fetched at the instant 0, whose runs take 90 s. *)
Definition feedEveryMinute : Feed :=
  mkFeed 1 "https://example.org/feed" None 60 (Some 7) "@chan" None (Some 0) true None None
         None None.

Definition queue0 : PriorityQueue := Add [] 0 feedEveryMinute.

Definition ninetySeconds : Z -> Z := fun _ => 90 * second.

(** A feed whose frequency is one second more than a [Duration] holds, and
    the queue after it was added at the instant 0. *)
Definition feedWrapping : Feed :=
  mkFeed 2 "https://example.org/slow" None 9223372037 (Some 7) "@chan" None None true None None
         None None.

Definition queueWrapping : PriorityQueue := Add [] 0 feedWrapping.

End SchedulerSpec.

(* ===================================================================== *)
(** * Vocabulary of the properties: how a fetch fails *)
(* ===================================================================== *)

Module RssFailures.

Import Rss.

(** The error [Fetch] keeps in [lastErr] for an answer it retries after. *)
Definition attemptError (attempt : nat) (o : result Response) : error :=
  match o with
  | Err errDo => ErrWrap "failed to fetch feed" errDo
  | Ok resp =>
      if StatusCode resp =? StatusOK
      then ErrWrap "failed to parse feed" (ErrLib "gofeed")
      else ErrStatus attempt (StatusCode resp)
  end.

(** The attempts before [k] all start and all get an answer the fetch
    retries after. *)
Definition retriedBefore (env : FetchEnv) (req : Request) (k : nat) : Prop :=
  forall j, (j < k)%nat ->
    RssSpec.starts env j /\ RssSpec.retryable (doRequest env j req) = true.

(** A server that always answers 503. *)
Definition serverUnavailable : FetchEnv :=
  mkFetchEnv (fun _ => None) None
             (fun _ _ => Ok (mkResponse 503 None None None)) (fun _ => None).

(** The same server, with the context of the fetch cancelled during the
    second backoff. *)
Definition cancelledInSecondBackoff : FetchEnv :=
  mkFetchEnv (fun _ => None) None
             (fun _ _ => Ok (mkResponse 503 None None None))
             (fun k => if (k =? 2)%nat then Some Canceled else None).

End RssFailures.

(* ===================================================================== *)
(** * internal/formatter: the template function [summarize] *)
(* ===================================================================== *)

Module TemplateFuncs.

(** The function [renderTemplate] installs under the name [summarize].
    [runes[:length]] panics for a negative [length]; [None] stands for the
    panic, which [text/template] turns into an error of [Execute]. *)
Definition summarize (s : string) (length : Z) : option string :=
  let runes := Utf8.runes s in
  if Z.of_nat (List.length runes) <? length then Some s
  else if length <? 0 then None
  else Some (Utf8.toString (firstn (Z.to_nat length) runes) +:+ "...").

End TemplateFuncs.

(* ===================================================================== *)
(** * internal/database/telegram_bot_store.go *)
(* ===================================================================== *)

Module BotStore.

(** [crypto/aes] with [cipher.NewGCM] and [encoding/base64], as the store
    uses them: [seal key nonce plaintext] is the base64 text of
    [gcm.Seal(nonce, nonce, plaintext, nil)], and [open key cryptoText] is
    what decoding the text, splitting the nonce off and [gcm.Open] give, or
    the error of the step that fails. *)
Record Cipher := mkCipher {
  seal : list N -> list N -> string -> string;
  open : list N -> string -> result string
}.

(** [aes.NewCipher] takes keys of 16, 24 or 32 bytes. *)
Definition aesKeySize (key : list N) : bool :=
  (length key =? 16)%nat || (length key =? 24)%nat || (length key =? 32)%nat.

(** The default key of a run without [encryption_key]. *)
Definition defaultKey : string := "a very insecure default key 123!".

(** [InitEncryptionKey]: the value it leaves in [demoEncryptionKey] and
    the error it returns. *)
Definition InitEncryptionKey (keyString : string) : list N * option error :=
  if (String.length keyString =? 0)%nat then
    let demoEncryptionKey := Sha256.bytes_of_string defaultKey in
    let demoEncryptionKey :=
      if (length demoEncryptionKey <? 32)%nat
      then demoEncryptionKey ++ repeat 0%N (32 - length demoEncryptionKey)
      else demoEncryptionKey in
    (firstn 32 demoEncryptionKey,
     Some (ErrMsg "encryption key not configured; using highly insecure default for demo"))
  else (Sha256.Sum256 (Sha256.bytes_of_string keyString), None).

(** [encryptAES]; [nonce] is what [io.ReadFull(rand.Reader, nonce)] gives. *)
Definition encryptAES (c : Cipher) (nonce : result (list N)) (key : list N)
    (plaintext : string) : string * option error :=
  if (length key =? 0)%nat then
    (plaintext,
     Some (ErrMsg "encryption key is empty, cannot encrypt (returning plaintext for demo)"))
  else if negb (aesKeySize key) then ("", Some (ErrWrap "encrypt NewCipher" (ErrLib "aes")))
  else
    match nonce with
    | Err e => ("", Some (ErrWrap "encrypt ReadFull nonce" e))
    | Ok n => (seal c key n plaintext, None)
    end.

(** [decryptAES] *)
Definition decryptAES (c : Cipher) (key : list N) (cryptoText : string)
    : string * option error :=
  if (length key =? 0)%nat then
    (cryptoText,
     Some (ErrMsg "encryption key is empty, cannot decrypt (returning cryptoText for demo)"))
  else
    match open c key cryptoText with
    | Ok plaintext => (plaintext, None)
    | Err e => ("", Some e)
    end.

(** [hashToken]: the SHA-256 of the token in hexadecimal. *)
Definition hashToken (token : string) : string := sha256hex token.

(** A row of [telegram_bots]. *)
Record TelegramBot := mkBot {
  ID : Z;
  TokenHash : string;
  EncryptedToken : option string;
  Description : option string
}.

(** The table: [id] is [AUTOINCREMENT], so a new row gets an id above
    every id given so far, and [token_hash] is [UNIQUE]. *)
Record Table := mkTable {
  rows : gmap Z TelegramBot;
  lastID : Z
}.

Definition hasTokenHash (t : Table) (h : string) : bool :=
  bool_decide (map_Exists (fun _ b => TokenHash b = h) (rows t)).

(** The failures of the database during a call of the store, [None] when
    the step goes through.  [failExec] stands for the errors of the [INSERT]
    other than the unique constraint on [token_hash], which the table
    decides, and [failQuery] for the errors of the [SELECT] other than
    [sql.ErrNoRows], which the table decides too. *)
Record DBEnv := mkDBEnv {
  failPrepare : option error;        (* s.db.PrepareContext *)
  failExec : option error;           (* stmt.ExecContext *)
  failLastInsertId : option error;   (* res.LastInsertId *)
  failQuery : option error           (* s.db.QueryRowContext(...).Scan *)
}.

(** [TelegramBotStore.CreateBot], with the key in [demoEncryptionKey]. *)
Definition CreateBot (env : DBEnv) (c : Cipher) (nonce : result (list N))
    (demoEncryptionKey : list N) (t : Table) (rawToken : string)
    (description : option string) : Table * result Z :=
  let tokenHash := hashToken rawToken in
  let '(encryptedToken, err) := encryptAES c nonce demoEncryptionKey rawToken in
  let failed :=
    match err with
    | Some e => if String.eqb encryptedToken rawToken then None else Some e
    | None => None
    end in
  match failed with
  | Some e => (t, Err (ErrWrap "CreateBot encryption failed" e))
  | None =>
      match failPrepare env with
      | Some e => (t, Err (ErrWrap "CreateBot prepare" e))
      | None =>
          match failExec env with
          | Some e => (t, Err (ErrWrap "CreateBot exec" e))
          | None =>
              if hasTokenHash t tokenHash
              then (t, Err (ErrWrap "CreateBot exec" (ErrLib "UNIQUE constraint failed")))
              else
                let id := lastID t + 1 in
                let t' :=
                  mkTable (<[id := mkBot id tokenHash (Some encryptedToken) description]>
                             (rows t)) id in
                match failLastInsertId env with     (* return res.LastInsertId() *)
                | Some e => (t', Err e)
                | None => (t', Ok id)
                end
          end
      end
  end.

(** [TelegramBotStore.GetTokenByBotID] *)
Definition GetTokenByBotID (env : DBEnv) (c : Cipher) (demoEncryptionKey : list N)
    (t : Table) (id : Z) : result string :=
  match failQuery env with
  | Some e => Err (ErrWrap "GetTokenByBotID query" e)
  | None =>
      match rows t !! id with
      | None => Err (ErrMsg "bot not found for token retrieval")
      | Some b =>
          match EncryptedToken b with
          | None => Err (ErrMsg "no encrypted token found for bot")
          | Some encryptedToken =>
              if isEmpty encryptedToken then Err (ErrMsg "no encrypted token found for bot")
              else
                let '(decryptedToken, err) := decryptAES c demoEncryptionKey encryptedToken in
                match err with
                | Some e =>
                    if String.eqb decryptedToken encryptedToken then Ok decryptedToken
                    else Err (ErrWrap "GetTokenByBotID decryption failed" e)
                | None => Ok decryptedToken
                end
          end
      end
  end.

(** The database answers every step of a call. *)
Definition answers (env : DBEnv) : Prop :=
  failPrepare env = None /\ failExec env = None /\ failLastInsertId env = None
  /\ failQuery env = None.

(** [gcm.NonceSize()] of the standard GCM. *)
Definition nonceSize : nat := 12.

(** The contract of AES-GCM the store relies on: under a key of an AES
    size and with a nonce of the size of the mode, what [seal] makes, [open]
    reads back under the same key, and a sealed text is not empty (it holds
    at least the nonce). *)
Definition sound (c : Cipher) : Prop :=
  forall key nonce plaintext,
    aesKeySize key = true -> length nonce = nonceSize ->
    open c key (seal c key nonce plaintext) = Ok plaintext
    /\ isEmpty (seal c key nonce plaintext) = false.

(** The ids of the table are not above [lastID]. *)
Definition idsBelow (t : Table) : Prop :=
  forall id b, rows t !! id = Some b -> id <= lastID t.

(** A stand-in for the cipher in the scenarios: it seals a text by putting
    a mark before it, and opens a text by taking the mark off. *)
Definition markCipher : Cipher :=
  mkCipher (fun _ _ plaintext => "!" +:+ plaintext)
           (fun _ cryptoText =>
              match cryptoText with
              | String _ plaintext => Ok plaintext
              | EmptyString => Err (ErrMsg "ciphertext too short")
              end).

(** The table before the first bot is created. *)
Definition noBots : Table := mkTable ∅ 0.

(** A database that answers. *)
Definition dbAnswering : DBEnv := mkDBEnv None None None None.

End BotStore.

(* ===================================================================== *)
(** * Vocabulary of the properties: runes *)
(* ===================================================================== *)

Module Utf8Spec.

(** A Unicode scalar value: a code point up to U+10FFFF that is not a
    surrogate. *)
Definition validRune (r : N) : bool :=
  ((r <? 0xD800) || ((0xE000 <=? r) && (r <=? 0x10FFFF)))%N.

(** A string that is well-formed UTF-8: converting it to runes and back
    gives the same bytes. *)
Definition wellFormed (s : string) : Prop := Utf8.toString (Utf8.runes s) = s.

End Utf8Spec.

(* ===================================================================== *)
(** * internal/app: [Truncate] *)
(* ===================================================================== *)

Module App.

(** [Truncate]: [s[:maxLength-3]] panics when [maxLength-3] is negative;
    [None] stands for the panic. *)
Definition Truncate (s : string) (maxLength : Z) : option string :=
  if Z.of_nat (String.length s) <=? maxLength then Some s
  else if maxLength - 3 <? 0 then None
  else Some (substring 0 (Z.to_nat (maxLength - 3)) s +:+ "...").

End App.

(* ===================================================================== *)
(** * Vocabulary of the properties: what the Telegram client sent *)
(* ===================================================================== *)

Module TelegramInv.

Import Telegram.

(** The messages the API took, in order. *)
Definition sentOf (evs : list Event) : list Chattable :=
  flat_map (fun ev => match ev with EvSent _ msg => [msg] | _ => [] end) evs.

(** The chat [Send] addresses: the number [fmt.Sscan] reads, or else the
    string as a channel user name. *)
Definition targetOf (env : Env) (chatIDStr : string) : Target :=
  match sscanInt64 env chatIDStr with
  | Some numericChatID => ChatID numericChatID
  | None => ChannelUsername chatIDStr
  end.

(** The messages of the parts that have a photo, a document or a text. *)
Definition sendable (to : Target) (parts : list FormattedMessagePart) : list Chattable :=
  omap (msgConfigOf to) parts.

(** How many tokens were taken from the global bucket, and from the bucket
    of a chat. *)
Definition globalTokens (evs : list Event) : nat :=
  length (List.filter (fun ev => match ev with EvGlobalToken _ _ => true | _ => false end) evs).

Definition chatTokens (chat : string) (evs : list Event) : nat :=
  length (List.filter (fun ev => match ev with
                                 | EvChatToken _ ch _ => String.eqb ch chat
                                 | _ => false
                                 end) evs).

(** A bucket of rate [r] and burst [b] that granted [n] tokens since the
    instant [t0], seen at [now]: it was last used in the past, it owes no
    token at [now], and it granted its burst and what [r] refills. *)
Definition bucketPaced (t0 now r b : Z) (n : nat) (lim : Rate.Limiter) : Prop :=
  Rate.limit lim = r /\ Rate.burst lim = b /\ Rate.last lim <= now
  /\ 0 <= Rate.tokens lim + (now - Rate.last lim) * r
  /\ Rate.tokens lim - Rate.last lim * r + Z.of_nat n * Rate.unit <= b * Rate.unit - t0 * r.

(** A client made at [t0] or later by [NewClient] and used since: its
    buckets are the global one, of 25 tokens a second, and one of a token a
    second for each chat it sent to; no message went out without a global
    token. *)
Definition paced (t0 : Z) (c : Client) : Prop :=
  t0 <= now c
  /\ (length (sentOf (events c)) <= globalTokens (events c))%nat
  /\ bucketPaced t0 (now c) globalMessagesPerSecond (globalMessagesPerSecond * 2)
                 (globalTokens (events c)) (globalLimiter c)
  /\ forall chat,
       match chatLimiters c !! chat with
       | Some lim => bucketPaced t0 (now c) chatMessagesPerSecond (chatMessagesPerSecond * 2)
                                 (chatTokens chat (events c)) lim
       | None => chatTokens chat (events c) = 0%nat
       end.

End TelegramInv.

(* ===================================================================== *)
(** * Vocabulary of the properties: invariants of the feed worker *)
(* ===================================================================== *)

Module WorkerInv.

Import Database Worker.

(** The [feeds] table is keyed by its [id] column. *)
Definition keyedById (d : Store.DB) : Prop :=
  forall k f, Store.feeds d !! k = Some f -> ID f = k.

(** The item has its row in [processed_items] under the feed [feedID]. *)
Definition recorded (wd : World) (feedID : Z) (item : Rss.Item) : Prop :=
  is_Some (Store.processed_items (db wd) !! (feedID, sha256hex (Rss.identifierOf item))).

(** The formatter never returns an error, as [DefaultFormatter] does not. *)
Definition neverFails (f : Formatter) : Prop :=
  forall item feed profile, exists parts, FormatItem f item feed profile = Ok parts.

(** The stores answer the item loop and the dedup filter without error. *)
Definition itemStoresWork (s : StoreEnv) : Prop :=
  (forall h, failIsItemProcessed s h = None) /\ (forall h, failAddProcessedItem s h = None).

(** The columns of a feed's row that hold its configuration. *)
Definition sameConfig (a b : Feed) : Prop :=
  ID a = ID b /\ URL a = URL b /\ UserTitle a = UserTitle b
  /\ FrequencySeconds a = FrequencySeconds b /\ TelegramBotID a = TelegramBotID b
  /\ TelegramChatID a = TelegramChatID b /\ IsEnabled a = IsEnabled b
  /\ Proxy_ a = Proxy_ b /\ FormattingProfile_ a = FormattingProfile_ b.

(** What a run for the feed [feedID] may change in the database: the
    other rows of [feeds] stay as they are, the row of the feed stays, with
    its configuration, if it is there and is not created if it is not, and
    [processed_items] keeps its rows, with their timestamps, and gains rows
    under [feedID] only. *)
Definition onlyTouches (feedID : Z) (d d' : Store.DB) : Prop :=
  (forall id, id <> feedID -> Store.feeds d' !! id = Store.feeds d !! id)
  /\ match Store.feeds d !! feedID with
     | Some f => exists f', Store.feeds d' !! feedID = Some f' /\ sameConfig f' f
     | None => Store.feeds d' !! feedID = None
     end
  /\ (forall k t, Store.processed_items d !! k = Some t -> Store.processed_items d' !! k = Some t)
  /\ (forall f h, is_Some (Store.processed_items d' !! (f, h)) ->
        is_Some (Store.processed_items d !! (f, h)) \/ f = feedID).

(** A world in which [Scenarios.item1] was delivered by an earlier run of
    [Scenarios.feed1]. *)
Definition worldAfterItem1 : World :=
  mkWorld (Store.mkDB {[ID Scenarios.feed1 := Scenarios.feed1]}
                      {[(ID Scenarios.feed1, Scenarios.fp Scenarios.item1) := 900]})
          (Telegram.NewClient 1000).

End WorkerInv.

(* ===================================================================== *)
(** * Vocabulary of the properties: the queue as a heap *)
(* ===================================================================== *)

Module HeapSpec.

Import Database Scheduler.

(** The instant of the next run of the task at position [k]. *)
Definition keyAt (pq : PriorityQueue) (k : nat) : option Z := NextRun <$> pq !! k.

(** [c] is a child of [p] in the binary tree [container/heap] lays out in
    the slice. *)
Definition isChild (p c : nat) : Prop := c = (2 * p + 1)%nat \/ c = (2 * p + 2)%nat.

(** The heap order among the first [n] tasks: no task is to run before its
    parent. *)
Definition heapOrderedTo (n : nat) (pq : PriorityQueue) : Prop :=
  forall p c x y, isChild p c -> (c < n)%nat ->
    keyAt pq p = Some x -> keyAt pq c = Some y -> x <= y.

Definition heapOrdered (pq : PriorityQueue) : Prop := heapOrderedTo (length pq) pq.

(** The heap order but for the task at [j], which may be to run before
    its parent: the state of [heap.up] on its way to the root. *)
Definition heapButUp (j : nat) (pq : PriorityQueue) : Prop :=
  (forall p c x y, isChild p c -> c <> j ->
     keyAt pq p = Some x -> keyAt pq c = Some y -> x <= y)
  /\ (forall g c x y, isChild g j -> isChild j c ->
        keyAt pq g = Some x -> keyAt pq c = Some y -> x <= y).

(** The heap order among the first [n] tasks but for the task at [i],
    which may be to run after its children: the state of [heap.down] on its
    way to the leaves. *)
Definition heapButDown (i n : nat) (pq : PriorityQueue) : Prop :=
  (forall p c x y, isChild p c -> (c < n)%nat -> p <> i ->
     keyAt pq p = Some x -> keyAt pq c = Some y -> x <= y)
  /\ (forall g c x y, isChild g i -> isChild i c -> (c < n)%nat ->
        keyAt pq g = Some x -> keyAt pq c = Some y -> x <= y).

(** Every task holds its position in its [index] field. *)
Definition indexed (pq : PriorityQueue) : Prop :=
  forall k t, pq !! k = Some t -> index t = Z.of_nat k.

(** The feed as [Add] schedules it: a frequency that is not positive
    becomes 300 seconds. *)
Definition withDefaultFrequency (feed : Feed) : Feed :=
  if FrequencySeconds feed <=? 0
  then mkFeed (ID feed) (URL feed) (UserTitle feed) 300 (TelegramBotID feed)
              (TelegramChatID feed) (LastProcessedItemGUIDHash feed) (LastFetchedAt feed)
              (IsEnabled feed) (HTTPEtag feed) (HTTPLastModified feed) (Proxy_ feed)
              (FormattingProfile_ feed)
  else feed.

(** Three feeds for the scenarios: one fetched at the instant 0 and polled
    every minute, one never fetched, one whose frequency is not set. *)
Definition feedFetched : Feed :=
  mkFeed 1 "https://example.org/a" None 60 (Some 7) "@chan" None (Some 0) true None None
         None None.
Definition feedNeverFetched : Feed :=
  mkFeed 2 "https://example.org/b" None 30 (Some 7) "@chan" None None true None None
         None None.
Definition feedNoFrequency : Feed :=
  mkFeed 3 "https://example.org/c" None 0 (Some 7) "@chan" None (Some 0) true None None
         None None.

(** The queue after the three feeds were added at the instant 0. *)
Definition threeFeeds : PriorityQueue :=
  Add (Add (Add [] 0 feedFetched) 0 feedNeverFetched) 0 feedNoFrequency.

End HeapSpec.

(* ===================================================================== *)
(** * The fingerprint function *)

Section Sha256Facts.
Import Sha256.

(** The digests of the standard test messages. *)
Example sha256hex_empty :
  sha256hex "" = "e3b0c44298fc1c149afbf4c8996fb92427ae41e4649b934ca495991b7852b855".
Proof. vm_compute. reflexivity. Qed.

Example sha256hex_abc :
  sha256hex "abc" = "ba7816bf8f01cfea414140de5dae2223b00361a396177a9cb410ff61f20015ad".
Proof. vm_compute. reflexivity. Qed.

Example sha256hex_two_blocks :
  sha256hex "abcdbcdecdefdefgefghfghighijhijkijkljklmklmnlmnomnopnopq"
  = "248d6a61d20638b8e5c026930c3e6039a33ce45964ff2167f6ecedd419db06c1".
Proof. vm_compute. reflexivity. Qed.

Lemma length_be_bytes (n : nat) (x : N) : length (be_bytes n x) = n.
Proof.
  revert x. induction n as [|n IH]; intros x; [reflexivity|].
  cbn [be_bytes]. rewrite length_app, IH. cbn. lia.
Qed.

Lemma length_block (h blk : list N) : length h = 8%nat -> length (block h blk) = 8%nat.
Proof.
  intros Hh. unfold block. rewrite length_map, length_combine, Hh. reflexivity.
Qed.

Lemma length_blocks (fuel : nat) (h bs : list N) :
  length h = 8%nat -> length (blocks fuel h bs) = 8%nat.
Proof.
  revert h bs. induction fuel as [|fuel IH]; intros h bs Hh; [exact Hh|].
  cbn [blocks]. destruct bs; [exact Hh|]. apply IH. now apply length_block.
Qed.

Lemma length_Sum256 (msg : list N) : length (Sum256 msg) = 32%nat.
Proof.
  unfold Sum256.
  assert (H : forall ws : list N, length (flat_map (be_bytes 4) ws) = (4 * length ws)%nat).
  { induction ws as [|w ws IH]; [reflexivity|].
    cbn [flat_map]. rewrite length_app, length_be_bytes, IH. cbn [length]. lia. }
  rewrite H, length_blocks; reflexivity.
Qed.

Lemma length_hex (bs : list N) : String.length (hex bs) = (2 * length bs)%nat.
Proof.
  induction bs as [|b bs IH]; [reflexivity|]. cbn [hex String.length length]. rewrite IH. lia.
Qed.

(** A fingerprint is 64 hexadecimal digits; it is never the empty
    string. *)
Lemma sha256hex_length (s : string) : String.length (sha256hex s) = 64%nat.
Proof. unfold sha256hex. now rewrite length_hex, length_Sum256. Qed.

Lemma sha256hex_nonempty (s : string) : isEmpty (sha256hex s) = false.
Proof.
  pose proof (sha256hex_length s) as H. destruct (sha256hex s); [discriminate|reflexivity].
Qed.

End Sha256Facts.


(* ===================================================================== *)
(** * The dedup filter *)
(* ===================================================================== *)

Section RssSelect.
Import Rss RssSpec.


Lemma less_later_earlier (i j : nat) (a b : Item) :
  (j < i)%nat -> less i j a b = true <-> strictlyNewer a b.
Proof.
  intros Hij. unfold less, strictlyNewer.
  destruct (dateOf a), (dateOf b); try (split; [discriminate|tauto]); try tauto.
  - rewrite Z.ltb_lt. tauto.
  - split; [|tauto]. intros Hlt. apply Nat.ltb_lt in Hlt. lia.
Qed.

Lemma strictlyNewer_irrefl (a : Item) : ~ strictlyNewer a a.
Proof. unfold strictlyNewer. destruct (dateOf a); [lia | tauto]. Qed.

Lemma strictlyNewer_asym (a b : Item) : strictlyNewer a b -> ~ strictlyNewer b a.
Proof. unfold strictlyNewer. destruct (dateOf a), (dateOf b); try tauto. lia. Qed.

Lemma strictlyNewer_negtrans (a b c : Item) :
  ~ strictlyNewer a b -> ~ strictlyNewer b c -> ~ strictlyNewer a c.
Proof.
  unfold strictlyNewer. destruct (dateOf a), (dateOf b), (dateOf c); try tauto. lia.
Qed.


Lemma sink_Permutation (x : Item) (revpre : list Item) :
  Permutation (sink x revpre) (x :: revpre).
Proof.
  induction revpre as [|y rest IH]; simpl; [reflexivity|].
  destruct (less _ _ x y); [|reflexivity].
  rewrite IH. apply perm_swap.
Qed.

Lemma sink_sorted (x : Item) (revpre : list Item) :
  StronglySorted (flip newestFirst) revpre ->
  StronglySorted (flip newestFirst) (sink x revpre).
Proof.
  induction revpre as [|y rest IH]; intros Hs.
  - simpl. repeat constructor.
  - apply StronglySorted_inv in Hs as [Hrest Hy].
    cbn [sink].
    destruct (less (length (y :: rest)) (length (y :: rest) - 1) x y) eqn:Hl.
    + apply less_later_earlier in Hl; [|simpl; lia].
      constructor; [auto|].
      rewrite (sink_Permutation x rest). constructor; [|exact Hy].
      unfold flip, newestFirst. now apply strictlyNewer_asym.
    + assert (Hxy : ~ strictlyNewer x y).
      { intros Hn. apply (less_later_earlier (length (y :: rest)) (length (y :: rest) - 1)) in Hn;
          [congruence | simpl; lia]. }
      constructor; [constructor; assumption|].
      constructor; [exact Hxy|].
      rewrite Forall_forall in Hy |- *. intros a Ha.
      unfold flip, newestFirst in *. eapply strictlyNewer_negtrans; eauto.
Qed.

Lemma sliceStable_Permutation (items : list Item) : Permutation (sliceStable items) items.
Proof.
  unfold sliceStable.
  assert (H : forall acc, Permutation (fold_left (fun revpre x => sink x revpre) items acc)
                                      (rev items ++ acc)).
  { induction items as [|x r IH]; intros acc; simpl; [reflexivity|].
    rewrite IH, sink_Permutation, <- app_assoc. simpl.
    apply Permutation_app_head. reflexivity. }
  rewrite <- Permutation_rev, H, app_nil_r, <- Permutation_rev. reflexivity.
Qed.

Lemma StronglySorted_rev_flip {A} (R : A -> A -> Prop) (l : list A) :
  StronglySorted (flip R) l -> StronglySorted R (rev l).
Proof.
  induction l as [|x l IH]; intros Hs; simpl; [constructor|].
  apply StronglySorted_inv in Hs as [Hl Hx].
  apply StronglySorted_app_2; [|auto|repeat constructor].
  intros a b Ha Hb. apply list_elem_of_singleton in Hb as ->.
  rewrite Forall_forall in Hx. apply Hx. apply list_elem_of_In, in_rev, list_elem_of_In. exact Ha.
Qed.

Lemma sliceStable_sorted (items : list Item) : StronglySorted newestFirst (sliceStable items).
Proof.
  unfold sliceStable. apply StronglySorted_rev_flip.
  assert (H : forall acc, StronglySorted (flip newestFirst) acc ->
              StronglySorted (flip newestFirst) (fold_left (fun revpre x => sink x revpre) items acc)).
  { induction items as [|x r IH]; intros acc Hacc; simpl; [exact Hacc|].
    apply IH. now apply sink_sorted. }
  apply H. constructor.
Qed.

End RssSelect.

Section RssSelectNew.
Import Rss RssSpec RssClaims.

Lemma filter_Permutation_bool {A} (f : A -> bool) (l l' : list A) :
  Permutation l l' -> Permutation (List.filter f l) (List.filter f l').
Proof.
  induction 1 as [|x l l' _ IH|x y l|l l' l'' _ IH1 _ IH2]; simpl.
  - constructor.
  - destruct (f x); [now constructor|exact IH].
  - destruct (f x), (f y); try reflexivity. apply perm_swap.
  - now transitivity (List.filter f l').
Qed.

Lemma StronglySorted_filter_bool {A} (R : A -> A -> Prop) (f : A -> bool) (l : list A) :
  StronglySorted R l -> StronglySorted R (List.filter f l).
Proof.
  induction 1 as [|x l Hl IH Hx]; simpl; [constructor|].
  destruct (f x); [|exact IH].
  constructor; [exact IH|].
  rewrite List.Forall_forall in Hx |- *. intros y Hy.
  apply filter_In in Hy as [Hy _]. now apply Hx.
Qed.

(** With a predicate that never fails, the loop keeps the items that have
    an identifier and are not seen. *)
Lemma collectNew_total (seen : string -> bool) (items newItems : list Item) :
  collectNew (fun h => Ok (seen h)) items newItems =
  Ok (newItems ++ List.filter (fun it => hasIdentifier it && negb (seen (sha256hex (identifierOf it)))) items).
Proof.
  revert newItems. induction items as [|it r IH]; intros newItems; simpl.
  - now rewrite app_nil_r.
  - unfold hasIdentifier. destruct (isEmpty (identifierOf it)); cbn [negb andb]; [apply IH|].
    destruct (seen _); cbn [negb]; rewrite IH; [reflexivity|].
    now rewrite <- app_assoc.
Qed.

Lemma collectNew_neverSeen (items : list Item) :
  collectNew neverSeen items [] = Ok (List.filter hasIdentifier items).
Proof.
  unfold neverSeen. rewrite (collectNew_total (fun _ => false)). cbn [app].
  f_equal. apply filter_ext. intros it. now rewrite andb_true_r.
Qed.

(** The high-water mark does not depend on the seen predicate. *)
Lemma GetNewItems_highWater (fd : Feed) (seen seen' : string -> result bool)
    (out out' : list Item) (hw hw' : string) :
  GetNewItems (Some fd) seen = Ok (out, hw) ->
  GetNewItems (Some fd) seen' = Ok (out', hw') ->
  hw = hw'.
Proof.
  unfold GetNewItems. destruct (Items fd) as [|i0 r]; [congruence|].
  destruct (collectNew seen _ _); [|discriminate].
  destruct (collectNew seen' _ _); [|discriminate]. congruence.
Qed.

Lemma sliceStable_head_newest (items : list Item) (n : Item) (tl : list Item) :
  sliceStable items = n :: tl -> isNewest n items.
Proof.
  intros Hs. pose proof (sliceStable_sorted items) as Hsorted.
  pose proof (sliceStable_Permutation items) as Hperm.
  rewrite Hs in Hsorted, Hperm. split.
  - eapply Permutation_in; [exact Hperm|now left].
  - intros x Hx. apply (Permutation_in _ (Permutation_sym Hperm)) in Hx as [<-|Hx]. 
    + apply strictlyNewer_irrefl.
    + apply StronglySorted_inv in Hsorted as [_ Hall].
      rewrite List.Forall_forall in Hall. now apply Hall.
Qed.

(** Two items that tie in the sort have the same effective timestamp. *)
Lemma strictlyNewer_dates (a b : Item) :
  (strictlyNewer a b -> dateOf a <> dateOf b)
  /\ (dateOf a <> dateOf b -> strictlyNewer a b \/ strictlyNewer b a).
Proof.
  unfold strictlyNewer. destruct (dateOf a) as [da|], (dateOf b) as [db|]; split;
    try tauto; try (intros _; discriminate); try (intros; auto; fail).
  - intros Hlt Heq. inversion Heq. lia.
  - intros Hne. destruct (Z.lt_trichotomy da db) as [?|[->|?]]; auto. congruence.
Qed.

Lemma datedAt_app (d : option Z) (a b : list Item) :
  datedAt d (a ++ b) = datedAt d a ++ datedAt d b.
Proof. apply List.filter_app. Qed.

Lemma datedAt_rev (d : option Z) (l : list Item) : datedAt d (rev l) = rev (datedAt d l).
Proof.
  induction l as [|x l IH]; [reflexivity|].
  cbn [rev]. rewrite datedAt_app, IH. unfold datedAt at 2 3. cbn [List.filter].
  destruct (bool_decide _); [reflexivity|apply app_nil_r].
Qed.

Lemma datedAt_filter (d : option Z) (f : Item -> bool) (l : list Item) :
  datedAt d (List.filter f l) = List.filter f (datedAt d l).
Proof.
  unfold datedAt. induction l as [|x l IH]; [reflexivity|].
  cbn [List.filter]. destruct (f x) eqn:Hf, (bool_decide (dateOf x = d)) eqn:Hd;
    cbn [List.filter]; rewrite ?Hf, ?Hd, IH; reflexivity.
Qed.

(** The insertion never moves an item past one it ties with. *)
Lemma sink_datedAt (d : option Z) (x : Item) (revpre : list Item) :
  datedAt d (rev (sink x revpre)) = datedAt d (rev revpre ++ [x]).
Proof.
  induction revpre as [|y rest IH]; [reflexivity|].
  cbn [sink]. destruct (less _ _ x y) eqn:Hl; [|reflexivity].
  apply less_later_earlier in Hl; [|simpl; lia].
  apply strictlyNewer_dates in Hl.
  cbn [rev]. rewrite !datedAt_app, IH, !datedAt_app, <- !app_assoc. f_equal.
  unfold datedAt. cbn [List.filter].
  destruct (bool_decide_reflect (dateOf x = d)), (bool_decide_reflect (dateOf y = d));
    try reflexivity. congruence.
Qed.

(** The sort is stable: the items of one effective timestamp keep their
    order. *)
Lemma sliceStable_datedAt (d : option Z) (items : list Item) :
  datedAt d (sliceStable items) = datedAt d items.
Proof.
  unfold sliceStable.
  assert (H : forall acc, datedAt d (rev (fold_left (fun revpre x => sink x revpre) items acc))
                          = datedAt d (rev acc ++ items)).
  { induction items as [|x r IH]; intros acc; cbn [fold_left].
    - now rewrite app_nil_r.
    - rewrite IH, datedAt_app, sink_datedAt, <- datedAt_app, <- app_assoc. reflexivity. }
  apply (H []).
Qed.

Lemma filter_head_split {A} (f : A -> bool) (l : list A) (n : A) (r : list A) :
  List.filter f l = n :: r ->
  exists pre post, l = pre ++ n :: post /\ forall x, In x pre -> f x = false.
Proof.
  induction l as [|y l IH]; [discriminate|].
  cbn [List.filter]. destruct (f y) eqn:Hy.
  - intros H. inversion H; subst. exists [], l. split; [reflexivity|]. intros x [].
  - intros H. destruct (IH H) as (pre & post & -> & Hpre).
    exists (y :: pre), post. split; [reflexivity|]. intros x [<-|Hx]; auto.
Qed.

(** The first item after the sort is the first of the newest items of the
    feed. *)
Lemma sliceStable_head_firstNewest (items : list Item) (n : Item) (tl : list Item) :
  sliceStable items = n :: tl -> firstNewest n items.
Proof.
  intros Hs. pose proof (sliceStable_head_newest items n tl Hs) as [_ Hnew].
  pose proof (sliceStable_datedAt (dateOf n) items) as Hd.
  rewrite Hs in Hd. unfold datedAt at 1 in Hd. cbn [List.filter] in Hd.
  rewrite bool_decide_eq_true_2 in Hd by reflexivity.
  symmetry in Hd. apply filter_head_split in Hd as (pre & post & -> & Hpre).
  exists pre, post. split; [reflexivity|]. split.
  - intros x Hx. specialize (Hpre x Hx). apply bool_decide_eq_false_1 in Hpre.
    destruct (proj2 (strictlyNewer_dates n x)) as [?|Hxn]; [congruence|assumption|].
    exfalso. apply (Hnew x); [|exact Hxn]. apply in_or_app. now left.
  - intros x Hx. apply Hnew. apply in_or_app. right. now right.
Qed.

(** C5, as amended: with the constantly-false seen predicate, [GetNewItems]
    returns exactly the items that have a GUID or a link, in the reverse of
    the stable newest-first sort: no item is strictly newer than a later one
    (dated items oldest first, after the items without a date), and the items
    of one effective timestamp, like those without any, come in the reverse
    of their order in the feed.  The high-water mark is the fingerprint of
    the first of the newest items of the feed when that item has an
    identifier and the empty string when it has none, whatever the seen
    predicate is. *)
Theorem C5_SelectNew_never_seen (fd : Feed) :
  exists out hw,
    GetNewItems (Some fd) neverSeen = Ok (out, hw)
    /\ Permutation out (List.filter hasIdentifier (Items fd))
    /\ StronglySorted oldestFirst out
    /\ (forall d, datedAt d out = rev (datedAt d (List.filter hasIdentifier (Items fd))))
    /\ match Items fd with
       | [] => hw = ""
       | _ => exists n, firstNewest n (Items fd) /\ isNewest n (Items fd)
                /\ hw = if hasIdentifier n then sha256hex (identifierOf n) else ""
       end
    /\ forall seen out' hw', GetNewItems (Some fd) seen = Ok (out', hw') -> hw' = hw.
Proof.
  assert (Hmain : exists out hw,
    GetNewItems (Some fd) neverSeen = Ok (out, hw)
    /\ Permutation out (List.filter hasIdentifier (Items fd))
    /\ StronglySorted oldestFirst out
    /\ (forall d, datedAt d out = rev (datedAt d (List.filter hasIdentifier (Items fd))))
    /\ match Items fd with
       | [] => hw = ""
       | _ => exists n, firstNewest n (Items fd) /\ isNewest n (Items fd)
                /\ hw = if hasIdentifier n then sha256hex (identifierOf n) else ""
       end).
  { unfold GetNewItems. destruct (Items fd) as [|i0 r] eqn:Hitems.
    - exists [], "". repeat split; constructor.
    - rewrite <- Hitems. rewrite collectNew_neverSeen.
      eexists _, _. split; [reflexivity|]. split; [|split; [|split]].
      + rewrite <- Permutation_rev. apply filter_Permutation_bool, sliceStable_Permutation.
      + apply StronglySorted_rev_flip. apply StronglySorted_filter_bool.
        apply sliceStable_sorted.
      + intros d. rewrite datedAt_rev, !datedAt_filter, sliceStable_datedAt. reflexivity.
      + destruct (sliceStable (Items fd)) as [|n tl] eqn:Hs.
        * pose proof (sliceStable_Permutation (Items fd)) as Hp. rewrite Hs, Hitems in Hp.
          now apply Permutation_nil in Hp.
        * exists n. split; [eapply sliceStable_head_firstNewest; eauto|].
          split; [eapply sliceStable_head_newest; eauto|].
          unfold hasIdentifier. reflexivity. }
  destruct Hmain as (out & hw & Heq & Hperm & Hsort & Hstable & Hhw).
  exists out, hw. repeat (split; [assumption|]).
  intros seen out' hw' Heq'. eapply GetNewItems_highWater; eauto.
Qed.

(** C5 as stated fails on [feedABC]: the newest item, [itemA], has no
    identifier, so the high-water mark is empty and not a SHA-256
    fingerprint; and [itemB], which has no date, is returned before the dated
    [itemC]. *)
Lemma C5_counterexample :
  GetNewItems (Some feedABC) neverSeen = Ok ([itemB; itemC], "")
  /\ isNewest itemA (Items feedABC)
  /\ "" <> sha256hex (identifierOf itemA)
  /\ ~ oldestFirstUndatedLast itemB itemC
  /\ ~ SelectNew_as_stated feedABC.
Proof.
  assert (Hrun : GetNewItems (Some feedABC) neverSeen = Ok ([itemB; itemC], "")) by reflexivity.
  assert (HA : isNewest itemA (Items feedABC)).
  { split; [now left|]. intros x [<-|[<-|[<-|[]]]]; cbv; intuition discriminate. }
  assert (Hhash : "" <> sha256hex (identifierOf itemA)) by (vm_compute; discriminate).
  repeat (split; [assumption|]). split; [cbv; tauto|].
  intros (out & hw & Heq & _ & _ & Hhw).
  rewrite Hrun in Heq. inversion Heq; subst. now apply Hhash, Hhw.
Qed.

End RssSelectNew.
Section RssAlwaysSeen.
Import Rss RssSpec RssClaims.

Lemma collectNew_alwaysSeen (items : list Item) : collectNew alwaysSeen items [] = Ok [].
Proof.
  unfold alwaysSeen. rewrite (collectNew_total (fun _ => true)). cbn [app].
  induction items as [|it r IH]; [reflexivity|].
  cbn [List.filter]. rewrite andb_false_r. exact IH.
Qed.

(** When every fingerprint is already recorded, nothing is selected; the
    high-water fingerprint is still reported. *)
Lemma GetNewItems_alwaysSeen (fd : Feed) :
  exists hw, GetNewItems (Some fd) alwaysSeen = Ok ([], hw).
Proof.
  unfold GetNewItems. destruct (Items fd) as [|i r]; [now exists ""|].
  rewrite collectNew_alwaysSeen. eexists. reflexivity.
Qed.
End RssAlwaysSeen.


(* ===================================================================== *)
(** * The fetcher *)
(* ===================================================================== *)

Section RssFetch.
Import Rss RssSpec.

Variable env : FetchEnv.
Variables (url : string) (etag lastModified : option string).


Local Abbreviation requestOf := (RssSpec.requestOf url etag lastModified).
Local Abbreviation step := (RssSpec.step env url etag lastModified).
Local Abbreviation starts := (RssSpec.starts env).
Local Abbreviation Shape := (RssSpec.Shape requestOf).

Lemma backoffDelay_next (k : nat) :
  (1 <= k)%nat ->
  (if maxRetryDelay <? backoffDelay k * 2 then maxRetryDelay else backoffDelay k * 2)
  = backoffDelay (S k).
Proof.
  intros Hk. unfold backoffDelay, maxRetryDelay, second.
  rewrite Nat2Z.inj_succ, Z.pow_succ_r by lia.
  assert (0 < 2 ^ Z.of_nat k) by (apply Z.pow_pos_nonneg; lia).
  destruct (Z.ltb_spec (30 * 1000000000) (Z.min (2 ^ Z.of_nat k * 1000000000) (30 * 1000000000) * 2)); lia.
Qed.

Lemma fetchLoop_step (rem attempt : nat) (d : Z) (lastErr : option error)
    (tr : list FetchEvent) :
  fetchLoop env url etag lastModified (S rem) attempt d lastErr tr =
  match step attempt d with
  | Stop evs r => (tr ++ evs, r)
  | Next evs d' e => fetchLoop env url etag lastModified rem (S attempt) d' (Some e) (tr ++ evs)
  end.
Proof.
  cbn [fetchLoop]. unfold step, sleepOf, delayAfter. fold requestOf.
  destruct (0 <? attempt)%nat; cbn [andb];
    [destruct (ctxDoneInBackoff env attempt); cbn; [now rewrite app_nil_r|] |];
    (destruct (getClientErr env attempt); [cbn; now rewrite ?app_nil_r|]);
    (destruct (newRequestErr env); [cbn; now rewrite ?app_nil_r|]);
    unfold retryable;
    (destruct (doRequest env attempt requestOf) as [resp|errDo];
     [ destruct (StatusCode resp =? StatusNotModified) eqn:E304; [cbn; now rewrite <- ?app_assoc|];
       destruct (StatusCode resp =? StatusOK) eqn:E200; cbn [negb];
       [ destruct (ParsedBody resp); cbn; now rewrite <- ?app_assoc
       | destruct ((400 <=? StatusCode resp) && (StatusCode resp <? 500)); cbn;
         now rewrite <- ?app_assoc ]
     | destruct (errorsIs errDo Canceled || errorsIs errDo DeadlineExceeded); cbn;
       now rewrite <- ?app_assoc ]).
Qed.


Lemma fetchLoop_app (rem attempt : nat) (d : Z) (lastErr : option error)
    (tr0 : list FetchEvent) :
  fetchLoop env url etag lastModified rem attempt d lastErr tr0 =
  (tr0 ++ (fetchLoop env url etag lastModified rem attempt d lastErr []).1,
   (fetchLoop env url etag lastModified rem attempt d lastErr []).2).
Proof.
  revert attempt d lastErr tr0.
  induction rem as [|rem IH]; intros attempt d lastErr tr0.
  - simpl. now rewrite app_nil_r.
  - rewrite !fetchLoop_step. destruct (step attempt d) as [evs r|evs d' e]; [reflexivity|].
    rewrite (IH _ _ _ (tr0 ++ evs)), (IH _ _ _ ([] ++ evs)). cbn [fst snd app].
    now rewrite app_assoc.
Qed.

(** The run of the loop from attempt [a], as a relation: the events and the
    result. *)
Lemma fetchLoop_unfold (rem a : nat) (d : Z) (lastErr : option error) :
  fetchLoop env url etag lastModified (S rem) a d lastErr [] =
  match step a d with
  | Stop evs r => (evs, r)
  | Next evs d' e =>
      (evs ++ (fetchLoop env url etag lastModified rem (S a) d' (Some e) []).1,
       (fetchLoop env url etag lastModified rem (S a) d' (Some e) []).2)
  end.
Proof.
  rewrite fetchLoop_step. destruct (step a d); [reflexivity|].
  now rewrite fetchLoop_app.
Qed.

Lemma step_events (a : nat) (d : Z) :
  match step a d with
  | Stop evs _ =>
      evs = [] \/ evs = sleepOf a d \/ evs = sleepOf a d ++ [EvAttempt a requestOf]
  | Next evs d' _ =>
      evs = sleepOf a d ++ [EvAttempt a requestOf] /\ d' = delayAfter a d
  end.
Proof.
  unfold step.
  destruct ((0 <? a)%nat && bool_decide (is_Some (ctxDoneInBackoff env a))); [now left|].
  destruct (getClientErr env a); [right; now left|].
  destruct (newRequestErr env); [right; now left|].
  destruct (retryable _); [now split | right; now right].
Qed.

Lemma fetchLoop_shape (rem a : nat) (d : Z) (lastErr : option error) :
  (a + rem = S maxFetchRetries)%nat ->
  d = backoffDelay (Nat.max a 1) ->
  Shape a (fetchLoop env url etag lastModified rem a d lastErr []).1.
Proof.
  revert a d lastErr. induction rem as [|rem IH]; intros a d lastErr Ha Hd.
  - simpl. constructor.
  - rewrite fetchLoop_unfold. pose proof (step_events a d) as Hs.
    assert (Hnext : delayAfter a d = backoffDelay (Nat.max (S a) 1)).
    { unfold delayAfter. destruct a as [|a']; cbn [Nat.ltb Nat.leb]; [exact Hd|].
      subst d. replace (Nat.max (S a') 1) with (S a') by lia.
      replace (Nat.max (S (S a')) 1) with (S (S a')) by lia.
      apply backoffDelay_next. lia. }
    assert (Hsl : forall tl, Shape (S a) tl ->
                  Shape a (sleepOf a d ++ EvAttempt a requestOf :: tl)).
    { intros tl Htl. unfold sleepOf. destruct a as [|a']; cbn [Nat.ltb Nat.leb app].
      - now constructor.
      - subst d. replace (Nat.max (S a') 1) with (S a') by lia.
        constructor; [unfold maxFetchRetries in *; lia | exact Htl]. }
    destruct (step a d) as [evs r|evs d' e]; cbn [fst].
    + destruct Hs as [->|[->| ->]].
      * constructor.
      * unfold sleepOf. destruct a as [|a']; cbn [Nat.ltb Nat.leb]; [constructor|].
        subst d. replace (Nat.max (S a') 1) with (S a') by lia.
        constructor. unfold maxFetchRetries in *; lia.
      * apply Hsl. constructor.
    + destruct Hs as [-> ->]. rewrite <- app_assoc. cbn [app]. apply Hsl.
      apply IH; [lia | exact Hnext].
Qed.

(** Attempt [S k] is made exactly when attempt [k] was made, its answer is
    one the loop retries, a retry is left and nothing stops the new attempt. *)
Lemma fetchLoop_attempts (rem a : nat) (d : Z) (lastErr : option error) (j : nat) (r : Request) :
  In (EvAttempt j r) (fetchLoop env url etag lastModified rem a d lastErr []).1 ->
  r = requestOf /\ (a <= j < a + rem)%nat.
Proof.
  revert a d lastErr. induction rem as [|rem IH]; intros a d lastErr Hin.
  - destruct Hin.
  - rewrite fetchLoop_unfold in Hin. pose proof (step_events a d) as Hs.
    assert (Hev : forall evs, In (EvAttempt j r) evs ->
              evs = [] \/ evs = sleepOf a d \/ evs = sleepOf a d ++ [EvAttempt a requestOf] ->
              r = requestOf /\ j = a).
    { intros evs Hi [->|[->| ->]]; [destruct Hi| |];
        unfold sleepOf in Hi; destruct (0 <? a)%nat; cbn in Hi; intuition (try discriminate); congruence. }
    destruct (step a d) as [evs res|evs d' e]; cbn [fst] in Hin.
    + destruct (Hev _ Hin Hs) as [-> ->]. split; [reflexivity|lia].
    + destruct Hs as [Hevs _]. apply in_app_or in Hin as [Hin|Hin].
      * destruct (Hev _ Hin (or_intror (or_intror Hevs))) as [-> ->]. split; [reflexivity|lia].
      * apply IH in Hin as [-> Hj]. split; [reflexivity|lia].
Qed.

Lemma step_attempt (a : nat) (d : Z) (evs : list FetchEvent) :
  (exists r, step a d = Stop evs r) \/ (exists d' e, step a d = Next evs d' e) ->
  In (EvAttempt a requestOf) evs <-> starts a.
Proof.
  unfold step, starts, sleepOf. intros Hst.
  destruct a as [|a']; cbn [Nat.ltb Nat.leb andb] in *.
  - destruct (getClientErr env 0), (newRequestErr env).
    all: try (destruct Hst as [[r Hst]|[d' [e' Hst]]]; inversion Hst; subst; cbn;
           split; [intros []|intros (_ & ? & ?); discriminate]).
    destruct (retryable _); destruct Hst as [[r Hst]|[d' [e Hst]]]; inversion Hst; subst;
      cbn; split; auto.
  - destruct (ctxDoneInBackoff env (S a')) eqn:Hc; cbn [bool_decide] in *.
    + rewrite bool_decide_eq_true_2 in Hst by eauto.
      destruct Hst as [[r Hst]|[d' [e Hst]]]; inversion Hst; subst.
      split; [intros []|]. intros ([?|?] & _); discriminate.
    + rewrite bool_decide_eq_false_2 in Hst by (intros [? ?]; discriminate).
      destruct (getClientErr env (S a')), (newRequestErr env).
      all: try (destruct Hst as [[r Hst]|[d' [e' Hst]]]; inversion Hst; subst; cbn;
             split; [intros [?|[]]; discriminate|intros (_ & ? & ?); discriminate]).
      destruct (retryable _); destruct Hst as [[r Hst]|[d' [e Hst]]]; inversion Hst; subst;
        cbn; split; auto.
Qed.


Lemma step_retryable (a : nat) (d : Z) :
  match step a d with
  | Stop evs _ => In (EvAttempt a requestOf) evs -> retryable (doRequest env a requestOf) = false
  | Next _ _ _ => retryable (doRequest env a requestOf) = true
  end.
Proof.
  unfold step.
  destruct ((0 <? a)%nat && bool_decide (is_Some (ctxDoneInBackoff env a))); [intros []|].
  unfold sleepOf.
  destruct (getClientErr env a);
    [destruct (0 <? a)%nat; cbn; intuition discriminate|].
  destruct (newRequestErr env);
    [destruct (0 <? a)%nat; cbn; intuition discriminate|].
  destruct (retryable _); auto.
Qed.

Lemma fetchLoop_first (rem a : nat) (d : Z) (lastErr : option error) :
  In (EvAttempt a requestOf) (fetchLoop env url etag lastModified rem a d lastErr []).1
  <-> (0 < rem)%nat /\ starts a.
Proof.
  destruct rem as [|rem]; [cbn; split; [intros []|lia]|].
  rewrite fetchLoop_unfold. pose proof (step_attempt a d) as Hs.
  destruct (step a d) as [evs r|evs d' e]; cbn [fst].
  - rewrite (Hs evs) by eauto. intuition lia.
  - rewrite in_app_iff, (Hs evs) by eauto. split; [|intuition].
    intros [?|Hin]; [intuition lia|].
    apply fetchLoop_attempts in Hin. lia.
Qed.

Lemma fetchLoop_retry (rem a : nat) (d : Z) (lastErr : option error) (k : nat) :
  (a <= k)%nat ->
  let tr := (fetchLoop env url etag lastModified rem a d lastErr []).1 in
  In (EvAttempt (S k) requestOf) tr <->
  In (EvAttempt k requestOf) tr /\ retryable (doRequest env k requestOf) = true
  /\ (S k < a + rem)%nat /\ starts (S k).
Proof.
  revert a d lastErr. induction rem as [|rem IH]; intros a d lastErr Hk; cbn zeta.
  - cbn. intuition.
  - rewrite fetchLoop_unfold.
    pose proof (step_events a d) as Hev. pose proof (step_retryable a d) as Hre.
    pose proof (step_attempt a d) as Hat.
    assert (Hevs : forall evs j, In (EvAttempt j requestOf) evs ->
              evs = [] \/ evs = sleepOf a d \/ evs = sleepOf a d ++ [EvAttempt a requestOf] ->
              j = a).
    { intros evs j Hi [->|[->| ->]]; [destruct Hi| |];
        unfold sleepOf in Hi; destruct (0 <? a)%nat; cbn in Hi;
        intuition (try discriminate); congruence. }
    destruct (step a d) as [evs r|evs d' e]; cbn [fst].
    + split.
      * intros Hin. apply Hevs in Hin; [lia|exact Hev].
      * intros (Hin & Hr & _). pose proof (Hevs _ _ Hin Hev) as ->.
        rewrite (Hre Hin) in Hr. discriminate.
    + destruct Hev as [Hev _].
      assert (Hin_a : In (EvAttempt a requestOf) evs).
      { rewrite Hev. apply in_app_iff. right. now left. }
      assert (Hnot : forall j, j <> a -> ~ In (EvAttempt j requestOf) evs).
      { intros j Hj Hin. apply Hj. eapply Hevs; eauto. }
      rewrite !in_app_iff.
      destruct (Nat.eq_dec k a) as [->|Hne].
      * rewrite fetchLoop_first. split.
        -- intros [Hin|[? ?]]; [exfalso; eapply (Hnot (S a)); [lia|exact Hin]|].
           split; [now left|]. split; [exact Hre|]. split; [lia|assumption].
        -- intros (_ & _ & ? & ?). right. split; [lia|assumption].
      * rewrite (IH (S a) d' (Some e)) by lia. split.
        -- intros [Hin|(? & ? & ? & ?)]; [exfalso; eapply (Hnot (S k)); [lia|exact Hin]|].
           split; [now right|]. split; [assumption|]. split; [lia|assumption].
        -- intros ([Hin|Hin] & ? & ? & ?); [exfalso; eapply (Hnot k); eauto|].
           right. split; [assumption|]. split; [assumption|]. split; [lia|assumption].
Qed.

(** What a successful fetch returns comes from the answer to one attempt:
    a 304, echoing the cache values it was called with, or a 200 with a
    body that parses, giving the two response headers. *)
Lemma fetchLoop_ok (rem a : nat) (d : Z) (lastErr : option error) (res : FetchResult) :
  (fetchLoop env url etag lastModified rem a d lastErr []).2 = Ok res ->
  exists k resp,
    In (EvAttempt k requestOf) (fetchLoop env url etag lastModified rem a d lastErr []).1
    /\ doRequest env k requestOf = Ok resp
    /\ ((StatusCode resp = StatusNotModified /\ res = mkFetchResult None etag lastModified)
        \/ (StatusCode resp = StatusOK /\ exists feed, ParsedBody resp = Some feed
            /\ res = mkFetchResult (Some feed) (Some (headerGet (HeaderETag resp)))
                                   (Some (headerGet (HeaderLastModified resp))))).
Proof.
  revert a d lastErr. induction rem as [|rem IH]; intros a d lastErr.
  - cbn. destruct lastErr; discriminate.
  - rewrite fetchLoop_unfold.
    destruct (step a d) as [evs r|evs d' e] eqn:Hstep; cbn [fst snd].
    + intros ->. exists a. revert Hstep. unfold step.
      destruct ((0 <? a)%nat && bool_decide (is_Some (ctxDoneInBackoff env a))); [discriminate|].
      destruct (getClientErr env a); [discriminate|].
      destruct (newRequestErr env); [discriminate|].
      unfold retryable.
      destruct (doRequest env a requestOf) as [resp|errDo].
      * exists resp.
        destruct (StatusCode resp =? StatusNotModified) eqn:E304.
        { inversion Hstep; subst. split; [apply in_app_iff; right; now left|].
          split; [reflexivity|]. left. split; [now apply Z.eqb_eq|reflexivity]. }
        destruct (StatusCode resp =? StatusOK) eqn:E200.
        { destruct (ParsedBody resp) as [feed|] eqn:Hp; [|discriminate].
          inversion Hstep; subst. split; [apply in_app_iff; right; now left|].
          split; [reflexivity|]. right. split; [now apply Z.eqb_eq|eauto]. }
        destruct (negb _); discriminate.
      * destruct (negb _); discriminate.
    + intros Hres. destruct (IH _ _ _ Hres) as (k & resp & Hin & Hdo & Hcase).
      exists k, resp. split; [apply in_app_iff; now right|]. split; assumption.
Qed.

End RssFetch.

Section RssFetchPolicy.
Import Rss RssSpec RssClaims.

Lemma Shape_projections (req : Request) (k : nat) (tr : list FetchEvent) :
  Shape req k tr ->
  exists n m,
    attemptsOf tr = seq k n /\ (n = 0 \/ k + n <= S maxFetchRetries)%nat
    /\ sleepsOf tr = map backoffDelay (seq (Nat.max k 1) m)
    /\ (m = 0 \/ Nat.max k 1 + m <= S maxFetchRetries)%nat.
Proof.
  unfold attemptsOf, sleepsOf, maxFetchRetries.
  induction 1 as [k|tl _ (n & m & Ha & Hn & Hs & Hm)|k Hk|k tl Hk _ (n & m & Ha & Hn & Hs & Hm)].
  - exists 0%nat, 0%nat. cbn. auto.
  - exists (S n), m. cbn [flat_map app seq]. rewrite Ha.
    replace (Nat.max 1 1) with 1%nat in * by lia. replace (Nat.max 0 1) with 1%nat by lia.
    repeat split; auto; lia.
  - exists 0%nat, 1%nat. cbn [flat_map app seq map]. replace (Nat.max k 1) with k by lia.
    repeat split; auto. right. unfold maxFetchRetries in *. lia.
  - exists (S n), (S m). cbn [flat_map app seq map]. rewrite Ha, Hs.
    replace (Nat.max (S k) 1) with (S k) in * by lia.
    replace (Nat.max k 1) with k by lia. unfold maxFetchRetries in *.
    repeat split; auto; right; lia.
Qed.

Lemma retryable_response (resp : Response) :
  retryable (Ok resp) = true <->
  StatusCode resp <> StatusNotModified
  /\ ~ (400 <= StatusCode resp < 500)
  /\ (StatusCode resp = StatusOK -> ParsedBody resp = None).
Proof.
  unfold retryable, StatusNotModified, StatusOK.
  destruct (Z.eqb_spec (StatusCode resp) 304) as [->|H304]; [intuition (discriminate || lia)|].
  destruct (Z.eqb_spec (StatusCode resp) 200) as [H200|H200].
  - rewrite H200. destruct (ParsedBody resp); intuition (discriminate || lia || auto).
  - rewrite negb_true_iff, andb_false_iff, Z.leb_gt, Z.ltb_ge. intuition lia.
Qed.

Lemma retryable_error (e : error) :
  retryable (Err e) = true <->
  errorsIs e Canceled = false /\ errorsIs e DeadlineExceeded = false.
Proof. unfold retryable. now rewrite negb_true_iff, orb_false_iff. Qed.

(** C4, as amended: a fetch makes attempts 0, 1, ... of which there are at
    most 4, the retry [k] coming right after a sleep of [backoffDelay k],
    which is 2 s, 4 s, 8 s, doubles and never exceeds 30 s.  Attempt [k+1]
    is made exactly when attempt [k] was made, a retry is left, nothing
    stops the attempt, and the answer to attempt [k] is a transport error
    other than [context.Canceled] and [context.DeadlineExceeded], a status
    that is neither 200 nor 304 nor any 4xx (thus a 5xx), or a 200 whose
    body does not parse.  Every 4xx status, 408 and 429 included, ends the
    fetch without retry. *)
Theorem C4_fetch_retry_policy (env : FetchEnv) (url : string)
    (etag lastModified : option string) :
  let req := requestOf url etag lastModified in
  let tr := (Fetch env url etag lastModified).1 in
  Shape req 0 tr
  /\ (exists n, attemptsOf tr = seq 0 n /\ (n <= 4)%nat)
  /\ (exists m, sleepsOf tr = firstn m [2 * second; 4 * second; 8 * second])
  /\ (forall k, backoffDelay (S k) = Z.min (2 * backoffDelay k) maxRetryDelay
                /\ backoffDelay k <= 30 * second)
  /\ (In (EvAttempt 0 req) tr <-> starts env 0)
  /\ (forall k, In (EvAttempt (S k) req) tr <->
        In (EvAttempt k req) tr /\ retryable (doRequest env k req) = true
        /\ (S k <= maxFetchRetries)%nat /\ starts env (S k))
  /\ (forall resp, retryable (Ok resp) = true <->
        StatusCode resp <> 304 /\ ~ (400 <= StatusCode resp < 500)
        /\ (StatusCode resp = 200 -> ParsedBody resp = None))
  /\ (forall e, retryable (Err e) = true <->
        errorsIs e Canceled = false /\ errorsIs e DeadlineExceeded = false).
Proof.
  intros req tr.
  assert (Hshape : Shape req 0 tr).
  { apply fetchLoop_shape; [reflexivity|]. reflexivity. }
  split; [exact Hshape|].
  destruct (Shape_projections _ _ _ Hshape) as (n & m & Ha & Hn & Hs & Hm).
  unfold maxFetchRetries in *.
  split; [exists n; split; [exact Ha|lia]|].
  split.
  { exists m. rewrite Hs. cbn [Nat.max].
    destruct Hm as [->|Hm]; [reflexivity|].
    destruct m as [|[|[|[|m]]]]; try reflexivity. cbn in Hm. lia. }
  split.
  { intros k. unfold backoffDelay, maxRetryDelay, second.
    rewrite Nat2Z.inj_succ, Z.pow_succ_r by lia.
    assert (0 < 2 ^ Z.of_nat k) by (apply Z.pow_pos_nonneg; lia). lia. }
  split.
  { unfold tr, req, Fetch, maxFetchRetries. rewrite fetchLoop_first. intuition lia. }
  split.
  { intros k. pose proof (fetchLoop_retry env url etag lastModified 4 0 initialRetryDelay None k) as H.
    cbn zeta in H. unfold tr, req, Fetch, maxFetchRetries. rewrite H by lia.
    intuition lia. }
  split; [apply retryable_response|apply retryable_error].
Qed.

(** C4 as stated fails: a server answering 429 is asked once, and the
    fetch returns the status error without a retry.  (The same holds of
    408.) *)
Lemma C4_counterexample :
  Fetch (serverAnswering 429) "u" None None
  = ([EvAttempt 0 (requestOf "u" None None)], Err (ErrStatus 0 429))
  /\ Fetch (serverAnswering 408) "u" None None
  = ([EvAttempt 0 (requestOf "u" None None)], Err (ErrStatus 0 408))
  /\ ~ retried_as_stated (serverAnswering 429) "u" None None.
Proof.
  split; [reflexivity|]. split; [reflexivity|].
  intros H. specialize (H 0%nat (mkResponse 429 None None (Some (mkFeed [])))).
  cbn in H.
  assert (Hin : EvAttempt 0 (requestOf "u" None None) = EvAttempt 1 (requestOf "u" None None) \/ False).
  { apply H; [unfold maxFetchRetries; lia|now left|reflexivity|lia|].
    repeat split; auto. }
  destruct Hin as [Hin|[]]. discriminate Hin.
Qed.

(** A 503 is retried: three retries after 2 s, 4 s and 8 s, and the fourth
    attempt succeeds. *)
Example fetch_recovering :
  Fetch serverRecovering "u" None None
  = ([EvAttempt 0 (requestOf "u" None None);
      EvSleep (2 * second); EvAttempt 1 (requestOf "u" None None);
      EvSleep (4 * second); EvAttempt 2 (requestOf "u" None None);
      EvSleep (8 * second); EvAttempt 3 (requestOf "u" None None)],
     Ok (mkFetchResult (Some (mkFeed [])) (Some "") (Some ""))).
Proof. reflexivity. Qed.

End RssFetchPolicy.

Section RssFetchResult.
Import Rss RssSpec.

Variable env : FetchEnv.
Variables (url : string) (etag lastModified : option string).

Local Abbreviation requestOf := (RssSpec.requestOf url etag lastModified).
Local Abbreviation step := (RssSpec.step env url etag lastModified).

Local Abbreviation finalResult := (RssSpec.finalResult etag lastModified).

Lemma step_final (a : nat) (d : Z) (evs : list FetchEvent) (r : result FetchResult) :
  step a d = Stop evs r -> In (EvAttempt a requestOf) evs ->
  r = finalResult a (doRequest env a requestOf).
Proof.
  unfold RssSpec.step, sleepOf.
  destruct ((0 <? a)%nat && bool_decide (is_Some (ctxDoneInBackoff env a)));
    [intros H; inversion H; subst; intros []|].
  destruct (getClientErr env a);
    [intros H; inversion H; subst; destruct (0 <? a)%nat; cbn; intuition discriminate|].
  destruct (newRequestErr env);
    [intros H; inversion H; subst; destruct (0 <? a)%nat; cbn; intuition discriminate|].
  destruct (retryable _); [discriminate|].
  intros H _. inversion H; subst. reflexivity.
Qed.

Lemma fetchLoop_final (rem a : nat) (d : Z) (lastErr : option error) (k : nat) :
  In (EvAttempt k requestOf) (fetchLoop env url etag lastModified rem a d lastErr []).1 ->
  retryable (doRequest env k requestOf) = false ->
  (fetchLoop env url etag lastModified rem a d lastErr []).2
  = finalResult k (doRequest env k requestOf).
Proof.
  revert a d lastErr. induction rem as [|rem IH]; intros a d lastErr Hin Hre.
  - destruct Hin.
  - rewrite fetchLoop_unfold in Hin |- *.
    pose proof (step_events env url etag lastModified a d) as Hev.
    pose proof (step_retryable env url etag lastModified a d) as Hst.
    pose proof (step_final a d) as Hfin.
    assert (Hevs : forall evs j, In (EvAttempt j requestOf) evs ->
              evs = [] \/ evs = sleepOf a d \/ evs = sleepOf a d ++ [EvAttempt a requestOf] ->
              j = a).
    { intros evs j Hi [->|[->| ->]]; [destruct Hi| |];
        unfold sleepOf in Hi; destruct (0 <? a)%nat; cbn in Hi;
        intuition (try discriminate); congruence. }
    destruct (step a d) as [evs r|evs d' e]; cbn [fst snd] in *.
    + pose proof (Hevs _ _ Hin Hev) as ->. now apply (Hfin evs).
    + destruct Hev as [Hev _]. apply in_app_or in Hin as [Hin|Hin].
      * pose proof (Hevs _ _ Hin (or_intror (or_intror Hev))) as ->. congruence.
      * now apply IH.
Qed.

End RssFetchResult.

(* ===================================================================== *)
(** * The dispatcher *)
(* ===================================================================== *)

Section TelegramSend.
Import Context Telegram TelegramSpec.

(** On [context.Background()] a wait never fails: it returns when the
    token is there. *)
Lemma Wait_Background (lim : Rate.Limiter) (t : Z) :
  Rate.Wait lim Background t =
  (t + grantDelay lim t,
   Rate.mkLimiter (Rate.limit lim) (Rate.burst lim) (Rate.advance lim t - Rate.unit) t,
   None).
Proof. reflexivity. Qed.

(** On a context that is done, a wait fails with the context's error. *)
Lemma Wait_done (lim : Rate.Limiter) (ctx : Ctx) (t : Z) :
  isDone ctx t = true -> Rate.Wait lim ctx t = (t, lim, Some (ErrCtx (errOf ctx))).
Proof. intros H. unfold Rate.Wait. now rewrite H. Qed.

(** A wait on [Background] ends once the bucket holds a token, and not
    before. *)
Lemma Wait_Background_blocks (lim : Rate.Limiter) (t : Z) :
  0 < Rate.limit lim -> 1 <= Rate.burst lim -> Rate.last lim <= t ->
  let t' := (Rate.Wait lim Background t).1.1 in
  t <= t' /\ Rate.unit <= Rate.advance lim t'
  /\ (t < t' -> Rate.tokens lim + (t' - 1 - Rate.last lim) * Rate.limit lim < Rate.unit).
Proof.
  intros Hl Hb Hlast. rewrite Wait_Background. cbn [fst].
  unfold grantDelay, Rate.advance, Rate.unit in *.
  set (el := Z.max 0 (t - Rate.last lim)).
  set (a := Z.min (Rate.burst lim * 1000000000) (Rate.tokens lim + el * Rate.limit lim)).
  destruct (Z.ltb_spec (a - 1000000000) 0) as [Hneg|Hpos].
  - set (q := (- (a - 1000000000) + Rate.limit lim - 1) / Rate.limit lim).
    assert (Hq1 : Rate.limit lim * q <= - (a - 1000000000) + Rate.limit lim - 1).
    { apply Z.mul_div_le. lia. }
    assert (Hq2 : - (a - 1000000000) + Rate.limit lim - 1 < Rate.limit lim * (q + 1)).
    { unfold q. pose proof (Z.mod_pos_bound (- (a - 1000000000) + Rate.limit lim - 1) (Rate.limit lim) Hl).
      pose proof (Z.div_mod (- (a - 1000000000) + Rate.limit lim - 1) (Rate.limit lim)). lia. }
    assert (0 < q) by nia.
    assert (Ha : a = Rate.tokens lim + el * Rate.limit lim) by (unfold a in *; lia).
    split; [lia|]. split.
    + replace (Z.max 0 (t + q - Rate.last lim)) with (el + q) by (unfold el; lia). nia.
    + intros _. unfold el in *. nia.
  - split; [lia|]. split; [|lia]. rewrite Z.add_0_r. fold el. fold a. lia.
Qed.

Lemma sendParts_cons (env : Env) (chat : string) (to : Target)
    (part : FormattedMessagePart) (rest : list FormattedMessagePart) (c : Client) (i : nat) :
  sendParts env c chat to i (part :: rest) =
  let c2 := afterTokens c chat i in
  match msgConfigOf to part with
  | None => sendParts env c2 chat to (S i) rest
  | Some msg =>
      match botSend env (apiCalls c2) msg with
      | Some e => (withCall c2, Some (ErrWrap "sending message part to chat" e))
      | None => sendParts env (withSent (withCall c2) i msg) chat to (S i) rest
      end
  end.
Proof.
  cbn [sendParts]. rewrite Wait_Background. cbn iota beta zeta.
  cbn [bots globalLimiter chatLimiters now apiCalls events].
  rewrite Wait_Background. cbn iota beta zeta.
  cbn [bots globalLimiter chatLimiters now apiCalls events].
  unfold afterTokens, withCall, withSent. cbn [bots globalLimiter chatLimiters now apiCalls events].
  destruct (msgConfigOf to part); [|reflexivity].
  destruct (botSend env (apiCalls c) c0); reflexivity.
Qed.

(** What the loop of [Send] does: before each part the two tokens, in that
    order; it stops on the first message the API refuses and on nothing
    else. *)
Lemma sendParts_events (env : Env) (chat : string) (to : Target)
    (parts : list FormattedMessagePart) (c : Client) (i : nat) :
  exists evs,
    events (sendParts env c chat to i parts).1 = events c ++ evs
    /\ Acquisitions chat i evs
    /\ match (sendParts env c chat to i parts).2 with
       | None =>
           forall j part, parts !! j = Some part ->
             (exists t, In (EvGlobalToken (i + j) t) evs)
             /\ (exists t, In (EvChatToken (i + j) chat t) evs)
             /\ (forall msg, msgConfigOf to part = Some msg -> In (EvSent (i + j) msg) evs)
       | Some e => exists e', e = ErrWrap "sending message part to chat" e'
       end.
Proof.
  revert c i. induction parts as [|part rest IH]; intros c i.
  - exists []. cbn. rewrite app_nil_r. split; [reflexivity|]. split; [constructor|].
    intros j part Hj. discriminate.
  - rewrite sendParts_cons. cbn zeta.
    set (c2 := afterTokens c chat i).
    assert (Hev2 : events c2 = events c ++
              [EvGlobalToken i (now c + grantDelay (globalLimiter c) (now c));
               EvChatToken i chat (now c2)]).
    { unfold c2, afterTokens. cbn [events now]. now rewrite <- app_assoc. }
    destruct (msgConfigOf to part) as [msg|] eqn:Hmsg.
    + destruct (botSend env (apiCalls c2) msg) as [e|].
      * eexists. cbn [fst snd withCall events]. split; [exact Hev2|].
        split; [repeat constructor|]. eauto.
      * destruct (IH (withSent (withCall c2) i msg) (S i)) as (evs & He & Hacq & Hres).
        exists (EvGlobalToken i (now c + grantDelay (globalLimiter c) (now c))
                :: EvChatToken i chat (now c2) :: EvSent i msg :: evs).
        split.
        { rewrite He. cbn [withSent withCall events]. rewrite Hev2, <- !app_assoc. reflexivity. }
        split; [now constructor|].
        destruct (sendParts env (withSent (withCall c2) i msg) chat to (S i) rest).2; [exact Hres|].
        intros [|j] p Hj.
        -- cbn in Hj. inversion Hj; subst p. rewrite Nat.add_0_r.
           split; [eexists; now left|]. split; [eexists; right; now left|].
           intros m Hm. rewrite Hmsg in Hm. inversion Hm; subst. right; right; now left.
        -- cbn in Hj. destruct (Hres j p Hj) as ((t1 & H1) & (t2 & H2) & H3).
           replace (i + S j)%nat with (S i + j)%nat by lia.
           split; [exists t1; now do 3 right|]. split; [exists t2; now do 3 right|].
           intros m Hm. do 3 right. now apply H3.
    + destruct (IH c2 (S i)) as (evs & He & Hacq & Hres).
      exists (EvGlobalToken i (now c + grantDelay (globalLimiter c) (now c))
              :: EvChatToken i chat (now c2) :: evs).
      split.
      { rewrite He, Hev2, <- !app_assoc. reflexivity. }
      split; [now constructor|].
      destruct (sendParts env c2 chat to (S i) rest).2; [exact Hres|].
      intros [|j] p Hj.
      -- cbn in Hj. inversion Hj; subst p. rewrite Nat.add_0_r.
         split; [eexists; now left|]. split; [eexists; right; now left|].
         intros m Hm. rewrite Hmsg in Hm. discriminate.
      -- cbn in Hj. destruct (Hres j p Hj) as ((t1 & H1) & (t2 & H2) & H3).
         replace (i + S j)%nat with (S i + j)%nat by lia.
         split; [exists t1; now do 2 right|]. split; [exists t2; now do 2 right|].
         intros m Hm. do 2 right. now apply H3.
Qed.

(** C3, as amended: [Send] takes, before each part, one token from the
    global bucket and then one from the bucket of the chat; each
    acquisition waits on [context.Background()], so it blocks until the token
    is there and cannot be cancelled: the caller's context plays no part in
    the send, which fails only when the bot cannot be made or the API refuses
    a message, and never with a limiter or cancellation error. *)
Theorem C3_Send_acquisitions (env : Env) (c : Client) (ctx : Ctx)
    (botToken chatIDStr : string) (parts : list FormattedMessagePart)
    (proxy : option Database.Proxy) :
  Send env c ctx botToken chatIDStr parts proxy
  = Send env c Background botToken chatIDStr parts proxy
  /\ (forall lim t, (Rate.Wait lim Background t).2 = None)
  /\ (forall lim t, 0 < Rate.limit lim -> 1 <= Rate.burst lim -> Rate.last lim <= t ->
        let t' := (Rate.Wait lim Background t).1.1 in
        t <= t' /\ Rate.unit <= Rate.advance lim t'
        /\ (t < t' -> Rate.tokens lim + (t' - 1 - Rate.last lim) * Rate.limit lim < Rate.unit))
  /\ exists evs,
       events (Send env c ctx botToken chatIDStr parts proxy).1 = events c ++ evs
       /\ Acquisitions chatIDStr 0 evs
       /\ match (Send env c ctx botToken chatIDStr parts proxy).2 with
          | None =>
              forall j part, parts !! j = Some part ->
                (exists t, In (EvGlobalToken j t) evs)
                /\ (exists t, In (EvChatToken j chatIDStr t) evs)
          | Some e =>
              exists e', e = ErrWrap "getting bot API" e'
                         \/ e = ErrWrap "sending message part to chat" e'
          end.
Proof.
  split; [reflexivity|]. split; [reflexivity|].
  split; [apply Wait_Background_blocks|].
  unfold Send.
  destruct (getBotAPI env c botToken proxy) as [c1 [bot|e]] eqn:Hbot.
  - assert (Hev : events c1 = events c).
    { unfold getBotAPI in Hbot. destruct (bots c !! botToken); [now inversion Hbot|].
      destruct (getClient env proxy); [discriminate|].
      destruct (newBotAPI env botToken); inversion Hbot; reflexivity. }
    set (to := match sscanInt64 env chatIDStr with
               | Some n => ChatID n | None => ChannelUsername chatIDStr end).
    destruct (sendParts_events env chatIDStr to parts c1 0) as (evs & He & Hacq & Hres).
    exists evs. rewrite <- Hev. split; [exact He|]. split; [exact Hacq|].
    destruct (sendParts env c1 chatIDStr to 0 parts).2 as [e|].
    + destruct Hres as [e' ->]. eauto.
    + intros j part Hj. destruct (Hres j part Hj) as (H1 & H2 & _). auto.
  - exists []. cbn [fst snd]. 
    assert (Hev : events c1 = events c).
    { unfold getBotAPI in Hbot. destruct (bots c !! botToken); [now inversion Hbot|].
      destruct (getClient env proxy); [now inversion Hbot|].
      destruct (newBotAPI env botToken); inversion Hbot; reflexivity. }
    rewrite Hev, app_nil_r. split; [reflexivity|]. split; [constructor|]. eauto.
Qed.

(** C3 as stated fails: the third part of a send to one chat waits a
    second for the chat's token; the caller's context is cancelled half a
    second into that wait, and the send still delivers the three parts and
    returns no error.  On the caller's context the wait itself would have
    failed with [Canceled]. *)
Lemma C3_counterexample :
  let r := Send apiAccepting (NewClient 0) cancelledAtHalfSecond "token" "@chan" threeParts None in
  r.2 = None
  /\ now r.1 = 1000000000
  /\ List.filter (fun ev => match ev with EvSent _ _ => true | _ => false end) (events r.1)
     = [EvSent 0 (MessageConfig (ChannelUsername "@chan") "one" "HTML");
        EvSent 1 (MessageConfig (ChannelUsername "@chan") "two" "HTML");
        EvSent 2 (MessageConfig (ChannelUsername "@chan") "three" "HTML")]
  /\ In (EvChatToken 2 "@chan" 1000000000) (events r.1)
  /\ ~ cancellation_as_stated apiAccepting (NewClient 0) cancelledAtHalfSecond
         "token" "@chan" threeParts None.
Proof.
  cbn zeta.
  assert (Hrun : exists c', Send apiAccepting (NewClient 0) cancelledAtHalfSecond "token" "@chan"
                              threeParts None = (c', None) /\ now c' = 1000000000
                 /\ List.filter (fun ev => match ev with EvSent _ _ => true | _ => false end) (events c')
                    = [EvSent 0 (MessageConfig (ChannelUsername "@chan") "one" "HTML");
                       EvSent 1 (MessageConfig (ChannelUsername "@chan") "two" "HTML");
                       EvSent 2 (MessageConfig (ChannelUsername "@chan") "three" "HTML")]
                 /\ In (EvChatToken 2 "@chan" 1000000000) (events c')).
  { eexists. split; [vm_compute; reflexivity|]. split; [reflexivity|]. split; [reflexivity|].
    cbn. tauto. }
  destruct Hrun as (c' & Hsend & Hnow & Hsent & Htok).
  rewrite Hsend. cbn [fst snd]. split; [reflexivity|]. repeat (split; [assumption|]).
  unfold cancellation_as_stated. rewrite Hsend.
  intros H. destruct (H 500000000) as (e & He & _); [reflexivity| |discriminate].
  rewrite Hnow. cbn. lia.
Qed.

End TelegramSend.

(* ===================================================================== *)
(** * The feed worker *)
(* ===================================================================== *)

Section WorkerRuns.
Import Database Worker WorkerSpec.

Variable w : FeedWorker.

Lemma sleep_noDispatch (d : Z) (wd : World) : noDispatch wd (sleep d wd).
Proof. repeat split. Qed.

Lemma noDispatch_trans (a b c : World) : noDispatch a b -> noDispatch b c -> noDispatch a c.
Proof. unfold noDispatch. intuition congruence. Qed.

Lemma noDispatch_db (wd : World) (d : Store.DB) : noDispatch wd (mkWorld d (client wd)).
Proof. repeat split. Qed.

(** The item loop never writes the [feeds] table. *)
Lemma processItems_feeds (ctx : Context.Ctx) (cur : Feed) (botToken : string)
    (proxy : option Proxy) (items : list Rss.Item) (last : string) (wd : World) :
  Store.feeds (db (processItems w ctx cur botToken proxy items last wd).1) = Store.feeds (db wd).
Proof.
  revert last wd. induction items as [|item rest IH]; intros last wd; [reflexivity|].
  cbn [processItems].
  destruct (FormatItem (formatter w) item cur (FormattingProfile_ cur)) as [parts|e]; [|apply IH].
  destruct (DryRun (appConfig w)).
  - destruct (Store.AddProcessedItem _ _ _ _ _) as [d o] eqn:Hadd. rewrite IH. cbn [db].
    unfold Store.AddProcessedItem in Hadd.
    destruct (failAddProcessedItem _ _); [now inversion Hadd|].
    destruct (Store.processed_items (db wd) !! _); now inversion Hadd.
  - destruct (notifier w) as [env|].
    + destruct (Telegram.Send _ _ _ _ _ _ _) as [c [e|]]; [reflexivity|].
      destruct (Store.AddProcessedItem _ _ _ _ _) as [d o] eqn:Hadd. rewrite IH. cbn [db].
      unfold Store.AddProcessedItem in Hadd. cbn [db] in Hadd.
      destruct (failAddProcessedItem _ _); [now inversion Hadd|].
      destruct (Store.processed_items (db wd) !! _); now inversion Hadd.
    + reflexivity.
Qed.

(** In a dry run the item loop asks nothing of the client and cannot end
    on a send error. *)
Lemma processItems_dry (ctx : Context.Ctx) (cur : Feed) (botToken : string)
    (proxy : option Proxy) (items : list Rss.Item) (last : string) (wd : World) :
  DryRun (appConfig w) = true ->
  client (processItems w ctx cur botToken proxy items last wd).1 = client wd
  /\ exists h, (processItems w ctx cur botToken proxy items last wd).2 = Ok h.
Proof.
  intros Hdry. revert last wd. induction items as [|item rest IH]; intros last wd.
  - cbn. eauto.
  - cbn [processItems]. rewrite Hdry.
    destruct (FormatItem (formatter w) item cur (FormattingProfile_ cur)) as [parts|e]; [|apply IH].
    destruct (Store.AddProcessedItem _ _ _ _ _) as [d o].
    destruct (IH (sha256hex (Rss.identifierOf item)) (mkWorld d (client wd))) as [Hc Hr].
    split; [exact Hc|exact Hr].
Qed.

Lemma update_client (fail : option error) (t : Z) (wd : World) (id : Z)
    (h e l : option string) :
  noDispatch wd (mkWorld (Store.UpdateFeedLastProcessed fail t (db wd) id h e l).1 (client wd)).
Proof. repeat split. Qed.

(** A dry run dispatches nothing. *)
Lemma ProcessFeed_dry_no_dispatch (feed : Feed) (wd : World) :
  DryRun (appConfig w) = true -> noDispatch wd (ProcessFeed w feed wd).1.
Proof.
  intros Hdry. unfold ProcessFeed.
  destruct (Store.GetFeedByID _ _ _) as [[cur|]|e]; try (repeat split; fail).
  destruct (negb (IsEnabled cur)); [repeat split|].
  destruct (Fetch (fetcher w) _ _ _ _) as [tr [res|e]]; [|apply sleep_noDispatch].
  destruct (Rss.ResFeed res) as [feedData|].
  2:{ destruct (Store.UpdateFeedLastProcessed _ _ _ _ _ _ _) as [d o]. repeat split. }
  destruct (Rss.GetNewItems _ _) as [[newItems hw]|e]; [|apply sleep_noDispatch].
  destruct newItems as [|i0 r].
  { destruct (Store.UpdateFeedLastProcessed _ _ _ _ _ _ _) as [d o]. repeat split. }
  destruct (TelegramBotID cur); [|apply sleep_noDispatch].
  destruct (GetTokenByBotID _ _) as [tok|e]; [|apply sleep_noDispatch].
  match goal with |- context [processItems ?a ?b ?c ?d ?e ?f ?g ?h] =>
    destruct (processItems_dry b c d e f g h Hdry) as [Hc [hsh Hr]];
    destruct (processItems a b c d e f g h) as [wd2 r2] end.
  cbn [fst snd] in Hc, Hr. subst r2.
  destruct (Store.UpdateFeedLastProcessed _ _ _ _ _ _ _) as [d o]. cbn [fst].
  unfold noDispatch. cbn [client]. rewrite Hc. repeat split.
Qed.

(** A run that ends on a send error leaves the [feeds] table as it was:
    neither the fingerprint, nor [last_fetched_at], nor the cache headers are
    stored. *)
Lemma ProcessFeed_send_error_feeds (feed : Feed) (wd : World) :
  (ProcessFeed w feed wd).2 = SendError ->
  Store.feeds (db (ProcessFeed w feed wd).1) = Store.feeds (db wd).
Proof.
  unfold ProcessFeed.
  destruct (Store.GetFeedByID _ _ _) as [[cur|]|e]; try discriminate.
  destruct (negb (IsEnabled cur)); [discriminate|].
  destruct (Fetch (fetcher w) _ _ _ _) as [tr [res|e]]; [|discriminate].
  destruct (Rss.ResFeed res) as [feedData|].
  2:{ destruct (Store.UpdateFeedLastProcessed _ _ _ _ _ _ _) as [d o]. discriminate. }
  destruct (Rss.GetNewItems _ _) as [[newItems hw]|e]; [|discriminate].
  destruct newItems as [|i0 r].
  { destruct (Store.UpdateFeedLastProcessed _ _ _ _ _ _ _) as [d o]. discriminate. }
  destruct (TelegramBotID cur); [|discriminate].
  destruct (GetTokenByBotID _ _) as [tok|e]; [|discriminate].
  match goal with |- context [processItems ?a ?b ?c ?d ?e ?f ?g ?h] =>
    pose proof (processItems_feeds b c d e f g h) as Hf;
    destruct (processItems a b c d e f g h) as [wd2 [hsh|e2]] end.
  - destruct (Store.UpdateFeedLastProcessed _ _ _ _ _ _ _) as [d o]. discriminate.
  - intros _. exact Hf.
Qed.

End WorkerRuns.

Section WorkerFetch.
Import Database Worker WorkerSpec.

Lemma Shape_slept (req : Rss.Request) (k : nat) (tr : list Rss.FetchEvent) :
  RssSpec.Shape req k tr -> 0 <= sleptIn tr.
Proof.
  assert (Hd : forall j, 0 <= RssSpec.backoffDelay j).
  { intros j. unfold RssSpec.backoffDelay, Rss.maxRetryDelay, Rss.second.
    assert (0 < 2 ^ Z.of_nat j) by (apply Z.pow_pos_nonneg; lia). lia. }
  induction 1; unfold sleptIn in *; cbn [fold_right] in *; try lia;
    match goal with |- context [RssSpec.backoffDelay ?j] => specialize (Hd j); lia end.
Qed.

Lemma Fetch_slept (env : Rss.FetchEnv) (url : string) (etag lastModified : option string) :
  0 <= sleptIn (Rss.Fetch env url etag lastModified).1.
Proof.
  eapply Shape_slept. apply fetchLoop_shape; reflexivity.
Qed.


Lemma update_row (t : Z) (d : Store.DB) (f : Feed) (h e l : option string) :
  Store.feeds d !! ID f = Some f ->
  let d' := (Store.UpdateFeedLastProcessed None t d (ID f) h e l).1 in
  Store.processed_items d' = Store.processed_items d
  /\ (forall id, id <> ID f -> Store.feeds d' !! id = Store.feeds d !! id)
  /\ exists rw, Store.feeds d' !! ID f = Some rw
       /\ LastProcessedItemGUIDHash rw = h /\ HTTPEtag rw = e /\ HTTPLastModified rw = l
       /\ LastFetchedAt rw = Some t.
Proof.
  intros Hf. unfold Store.UpdateFeedLastProcessed. rewrite Hf. cbn [fst Store.feeds Store.processed_items].
  split; [reflexivity|]. split.
  - intros id Hid. now rewrite lookup_insert_ne.
  - eexists. rewrite lookup_insert_eq. split; [reflexivity|]. cbn. auto.
Qed.

Lemma update_failed (err : error) (t : Z) (d : Store.DB) (id : Z) (h e l : option string) :
  (Store.UpdateFeedLastProcessed (Some err) t d id h e l).1 = d.
Proof. reflexivity. Qed.

(** C6, as amended: when the fetch of a run ends on 304 Not Modified, the
    fetcher echoes the cache values it was given, no item is dispatched, no
    [processed_items] row is written, and the feed's row keeps its
    [last_processed_item_hash], its etag and its last-modified value.  When
    the update of the store goes through, [last_fetched_at] becomes the
    instant of the update, the clock at the end of the run, which is not
    before its start; when the update fails, the run ends as Not Modified all
    the same and the row is left as it was, [last_fetched_at] included.  No
    other row changes. *)
Theorem C6_not_modified (w : FeedWorker) (net : option Proxy -> Rss.FetchEnv)
    (feed cur : Feed) (wd : World) (k : nat) (resp : Rss.Response) :
  fetcher w = GoFeedFetcher net ->
  failGetFeedByID (stores w) = None ->
  row wd (ID feed) = Some cur -> ID cur = ID feed -> IsEnabled cur = true ->
  In (Rss.EvAttempt k (RssSpec.requestOf (URL cur) (HTTPEtag cur) (HTTPLastModified cur)))
     (fetchOf w cur).1 ->
  Rss.doRequest (net (resolveProxy w cur "rss")) k
    (RssSpec.requestOf (URL cur) (HTTPEtag cur) (HTTPLastModified cur)) = Ok resp ->
  Rss.StatusCode resp = 304 ->
  let r := ProcessFeed w feed wd in
  r.2 = NotModified
  /\ (fetchOf w cur).2 = Ok (Rss.mkFetchResult None (HTTPEtag cur) (HTTPLastModified cur))
  /\ noDispatch wd r.1
  /\ sentMessages r.1 = sentMessages wd
  /\ Store.processed_items (db r.1) = Store.processed_items (db wd)
  /\ (forall id, id <> ID feed -> row r.1 id = row wd id)
  /\ exists rw, row r.1 (ID feed) = Some rw
       /\ LastProcessedItemGUIDHash rw = LastProcessedItemGUIDHash cur
       /\ HTTPEtag rw = HTTPEtag cur
       /\ HTTPLastModified rw = HTTPLastModified cur
       /\ match failUpdateFeedLastProcessed (stores w) with
          | None => LastFetchedAt rw = Some (clock r.1) /\ clock wd <= clock r.1
          | Some _ => rw = cur
          end.
Proof.
  intros Hfetcher Hget Hrow Hid Hen Hin Hdo H304 r.
  assert (Hres : (fetchOf w cur).2
                 = Ok (Rss.mkFetchResult None (HTTPEtag cur) (HTTPLastModified cur))).
  { unfold fetchOf in *. rewrite Hfetcher in *. cbn [Fetch GoFeedFetcher] in *.
    unfold Rss.Fetch in *. rewrite (fetchLoop_final _ _ _ _ _ _ _ _ k Hin).
    - rewrite Hdo. cbn. now rewrite H304.
    - rewrite Hdo. cbn. now rewrite H304. }
  assert (Hslept : 0 <= sleptIn (fetchOf w cur).1).
  { unfold fetchOf. rewrite Hfetcher. apply Fetch_slept. }
  subst r. unfold ProcessFeed, Store.GetFeedByID. rewrite Hget.
  unfold row in Hrow. rewrite Hrow, Hen. cbn [negb].
  fold (fetchOf w cur). destruct (fetchOf w cur) as [tr fetched]. cbn [fst snd] in *.
  subst fetched. cbn [Rss.ResFeed]. rewrite Hid.
  assert (Hrow' : Store.feeds (db (sleep (sleptIn tr) wd)) !! ID cur = Some cur)
    by (rewrite Hid; exact Hrow).
  destruct (failUpdateFeedLastProcessed (stores w)) as [err|] eqn:Hfail.
  - cbn. split; [reflexivity|]. split; [reflexivity|]. split; [repeat split|].
    split; [reflexivity|]. split; [reflexivity|]. split; [reflexivity|].
    exists cur. unfold row. cbn. rewrite Hrow. auto.
  - pose proof (update_row (clock (sleep (sleptIn tr) wd)) (db (sleep (sleptIn tr) wd)) cur
                  (LastProcessedItemGUIDHash cur) (HTTPEtag cur) (HTTPLastModified cur) Hrow')
      as (Hp & Hother & rw & Hrw & Hh & He & Hl & Ht).
    rewrite Hid in *.
    destruct (Store.UpdateFeedLastProcessed None _ _ _ _ _ _) as [d o]. cbn [fst snd] in *.
    split; [reflexivity|]. split; [reflexivity|]. split; [repeat split|].
    split; [reflexivity|]. split; [exact Hp|]. split; [exact Hother|].
    exists rw. unfold row. cbn [db]. repeat (split; [assumption|]).
    try (split; [exact Ht|]). unfold clock, sleep. cbn. lia.
Qed.

End WorkerFetch.

Section WorkerScenarios.
Import Database Worker WorkerSpec Scenarios.

(** Scenario 2 of the specification, an unchanged feed: the server answers
    304, nothing is sent, the row keeps its hash and its cache values and
    [last_fetched_at] moves from 0 to the instant of the run. *)
Lemma C6_not_modified_witness :
  let w := workerOf false (RssClaims.serverAnswering 304) TelegramSpec.apiAccepting in
  let r := ProcessFeed w feed1 (worldOf feed1) in
  r.2 = NotModified
  /\ sentMessages r.1 = []
  /\ exists rw, row r.1 1 = Some rw
       /\ LastProcessedItemGUIDHash rw = Some "h0"
       /\ HTTPEtag rw = Some "E1"
       /\ LastFetchedAt rw = Some 1000.
Proof.
  cbn zeta.
  destruct (C6_not_modified
              (workerOf false (RssClaims.serverAnswering 304) TelegramSpec.apiAccepting)
              (fun _ => RssClaims.serverAnswering 304) feed1 feed1 (worldOf feed1) 0
              (Rss.mkResponse 304 None None (Some (Rss.mkFeed []))))
    as (Hout & _ & _ & Hsent & _ & _ & rw & Hrow & Hh & He & _ & Ht).
  - reflexivity.
  - reflexivity.
  - reflexivity.
  - reflexivity.
  - reflexivity.
  - left. reflexivity.
  - reflexivity.
  - reflexivity.
  - split; [exact Hout|]. split; [exact Hsent|].
    exists rw. split; [exact Hrow|]. split; [exact Hh|]. split; [exact He|].
    exact (proj1 Ht).
Defined.

(** C6 as stated fails when the update of the store fails: the run ends as
    Not Modified, the error being only logged, and the row of the feed keeps
    the [last_fetched_at] it had, the instant 0, though the run started at
    the instant 1000. *)
Lemma C6_counterexample :
  let w := workerFailingUpdate (RssClaims.serverAnswering 304) TelegramSpec.apiAccepting in
  let r := ProcessFeed w feed1 (worldOf feed1) in
  r.2 = NotModified
  /\ clock (worldOf feed1) = 1000
  /\ row r.1 1 = Some feed1
  /\ LastFetchedAt feed1 = Some 0
  /\ ~ not_modified_as_stated w feed1 (worldOf feed1).
Proof.
  cbn zeta.
  assert (Hrow : row (ProcessFeed (workerFailingUpdate (RssClaims.serverAnswering 304)
                                     TelegramSpec.apiAccepting) feed1 (worldOf feed1)).1 1
                 = Some feed1) by (vm_compute; reflexivity).
  split; [vm_compute; reflexivity|]. split; [reflexivity|]. split; [exact Hrow|].
  split; [reflexivity|].
  intros H. destruct H as (_ & cur & rw & t & _ & Hrw & Ht & Hle & _); [vm_compute; reflexivity|].
  cbn [ID feed1] in Hrw. rewrite Hrow in Hrw. inversion Hrw; subst rw.
  cbn in Ht. inversion Ht; subst t. vm_compute in Hle. apply Hle. reflexivity.
Qed.

(** C1 at its failing input: a dry run over a fresh feed of three items.
    Nothing is dispatched, yet the three [processed_items] rows are written
    and the row of the feed is updated, against the sentence of the
    specification and the help text of the [--dry-run] flag. *)
Lemma C1_dry_run_writes_rows :
  let w := workerOf true (serverWith [item3; item1; item2] None None) TelegramSpec.apiAccepting in
  let r := ProcessFeed w feed1 (worldOf feed1) in
  r.2 = Success
  /\ noDispatch (worldOf feed1) r.1
  /\ map_to_list (Store.processed_items (db r.1))
     ≡ₚ [((1, fp item1), 1000); ((1, fp item2), 1000); ((1, fp item3), 1000)]
  /\ row r.1 1 = Some (mkFeed 1 "https://example.org/feed" None 60 (Some 7) "@chan"
                         (Some (fp item3)) (Some 1000) true (Some "") (Some "") None None)
  /\ ~ dry_run_as_stated w feed1 (worldOf feed1).
Proof.
  cbn zeta.
  assert (Hrow : row (ProcessFeed (workerOf true (serverWith [item3; item1; item2] None None)
                          TelegramSpec.apiAccepting) feed1 (worldOf feed1)).1 1
                 = Some (mkFeed 1 "https://example.org/feed" None 60 (Some 7) "@chan"
                         (Some (fp item3)) (Some 1000) true (Some "") (Some "") None None))
    by (vm_compute; reflexivity).
  split; [vm_compute; reflexivity|].
  split; [now apply ProcessFeed_dry_no_dispatch|].
  split.
  { assert (H : map_to_list (Store.processed_items (db (ProcessFeed
                  (workerOf true (serverWith [item3; item1; item2] None None)
                     TelegramSpec.apiAccepting) feed1 (worldOf feed1)).1))
                = [((1, fp item1), 1000); ((1, fp item3), 1000); ((1, fp item2), 1000)])
      by (vm_compute; reflexivity).
    rewrite H. apply perm_skip, perm_swap. }
  split; [exact Hrow|].
  intros H. destruct (H eq_refl) as [_ Hdb].
  unfold row in Hrow. rewrite Hdb in Hrow. vm_compute in Hrow. discriminate Hrow.
Qed.

(** C2 at its failing input, scenario 3 of the specification: the API
    refuses the second item.  The first item was delivered and has its row,
    the third is not sent, and the run returns without storing anything in
    the row of the feed: not the fingerprint of the first item, not
    [last_fetched_at], not the cache headers. *)
Lemma C2_send_error_stores_nothing :
  let w := workerOf false (serverWith [item3; item1; item2] None None) (apiRefusing 1) in
  let r := ProcessFeed w feed1 (worldOf feed1) in
  r.2 = SendError
  /\ length (sentMessages r.1) = 1%nat
  /\ Telegram.apiCalls (client r.1) = 2%nat
  /\ map_to_list (Store.processed_items (db r.1)) = [((1, fp item1), 1000)]
  /\ row r.1 1 = Some feed1
  /\ ~ send_error_as_stated w feed1 (worldOf feed1) (Some (fp item1)) (fp item3)
         (Rss.mkFetchResult (Some (Rss.mkFeed [item3; item1; item2])) (Some "") (Some "")).
Proof.
  cbn zeta.
  assert (Hrow : row (ProcessFeed (workerOf false (serverWith [item3; item1; item2] None None)
                          (apiRefusing 1)) feed1 (worldOf feed1)).1 1 = Some feed1)
    by (vm_compute; reflexivity).
  split; [vm_compute; reflexivity|].
  split; [vm_compute; reflexivity|].
  split; [vm_compute; reflexivity|].
  split; [vm_compute; reflexivity|].
  split; [exact Hrow|].
  intros H. destruct H as (rw & Hrw & Hh & _); [vm_compute; reflexivity|].
  cbn [ID feed1] in Hrw. rewrite Hrow in Hrw. inversion Hrw; subst rw.
  vm_compute in Hh. discriminate Hh.
Qed.

End WorkerScenarios.

Section WorkerCacheHeaders.
Import Database Worker WorkerSpec Scenarios.

(** C10, as amended: when the fetch of a run ends on a 200 OK whose body
    parses, the fetcher returns non-nil cache values holding exactly the ETag
    and Last-Modified headers of that response, the empty string for a header
    the server omits; and a run that ends with no new item, or after its item
    loop, hands them as they are to its one update of the row.  When that
    update goes through they are stored, so that a 200 without cache headers
    replaces the stored etag and last-modified value by empty strings; when
    it fails, the run ends in the same way and the row is left as it was. *)
Theorem C10_cache_headers_stored (w : FeedWorker) (net : option Proxy -> Rss.FetchEnv)
    (feed cur : Feed) (wd : World) (k : nat) (resp : Rss.Response) (feedData : Rss.Feed) :
  fetcher w = GoFeedFetcher net ->
  failGetFeedByID (stores w) = None ->
  row wd (ID feed) = Some cur -> ID cur = ID feed -> IsEnabled cur = true ->
  In (Rss.EvAttempt k (RssSpec.requestOf (URL cur) (HTTPEtag cur) (HTTPLastModified cur)))
     (fetchOf w cur).1 ->
  Rss.doRequest (net (resolveProxy w cur "rss")) k
    (RssSpec.requestOf (URL cur) (HTTPEtag cur) (HTTPLastModified cur)) = Ok resp ->
  Rss.StatusCode resp = 200 ->
  Rss.ParsedBody resp = Some feedData ->
  let r := ProcessFeed w feed wd in
  let newEtag := Rss.headerGet (Rss.HeaderETag resp) in
  let newLastModified := Rss.headerGet (Rss.HeaderLastModified resp) in
  (fetchOf w cur).2 = Ok (Rss.mkFetchResult (Some feedData) (Some newEtag) (Some newLastModified))
  /\ (Rss.HeaderETag resp = None -> newEtag = "")
  /\ (Rss.HeaderLastModified resp = None -> newLastModified = "")
  /\ (r.2 = NoNewItems \/ r.2 = Success ->
      exists rw, row r.1 (ID feed) = Some rw
        /\ match failUpdateFeedLastProcessed (stores w) with
           | None => HTTPEtag rw = Some newEtag /\ HTTPLastModified rw = Some newLastModified
           | Some _ => rw = cur
           end).
Proof.
  intros Hfetcher Hget Hrow Hid Hen Hin Hdo H200 Hbody r newEtag newLastModified.
  assert (Hres : (fetchOf w cur).2
                 = Ok (Rss.mkFetchResult (Some feedData) (Some newEtag) (Some newLastModified))).
  { unfold fetchOf in *. rewrite Hfetcher in *. cbn [Fetch GoFeedFetcher] in *.
    unfold Rss.Fetch in *. rewrite (fetchLoop_final _ _ _ _ _ _ _ _ k Hin).
    - rewrite Hdo. cbn. rewrite H200, Hbody. reflexivity.
    - rewrite Hdo. cbn. rewrite H200, Hbody. reflexivity. }
  split; [exact Hres|].
  split; [intros H; subst newEtag; now rewrite H|].
  split; [intros H; subst newLastModified; now rewrite H|].
  intros Hout. subst r. revert Hout.
  unfold ProcessFeed, Store.GetFeedByID. rewrite Hget.
  unfold row in Hrow. rewrite Hrow, Hen. cbn [negb].
  fold (fetchOf w cur). destruct (fetchOf w cur) as [tr fetched]. cbn [fst snd] in *.
  subst fetched. cbn [Rss.ResFeed Rss.NewEtag Rss.NewLastModified]. rewrite Hid.
  destruct (Rss.GetNewItems _ _) as [[newItems hw]|e]; [|intros [?|?]; discriminate].
  destruct newItems as [|i0 rest].
  - intros _.
    assert (Hrow' : Store.feeds (db (sleep (sleptIn tr) wd)) !! ID cur = Some cur)
      by (rewrite Hid; exact Hrow).
    destruct (failUpdateFeedLastProcessed (stores w)) as [err|].
    { exists cur. unfold row. cbn. rewrite Hrow. auto. }
    match goal with |- context [Store.UpdateFeedLastProcessed None ?t ?d _ ?h ?e ?l] =>
      pose proof (update_row t d cur h e l Hrow') as (_ & _ & rw & Hrw & _ & He & Hl & _) end.
    rewrite Hid in *.
    destruct (Store.UpdateFeedLastProcessed None _ _ _ _ _ _) as [d o]. cbn [fst snd] in *.
    exists rw. unfold row. cbn [db]. auto.
  - destruct (TelegramBotID cur); [|intros [?|?]; discriminate].
    destruct (GetTokenByBotID _ _) as [tok|e]; [|intros [?|?]; discriminate].
    match goal with |- context [processItems ?a ?b ?c ?d ?e ?f ?g ?h] =>
      pose proof (processItems_feeds a b c d e f g h) as Hf;
      destruct (processItems a b c d e f g h) as [wd2 [hsh|e2]] end;
      [|intros [?|?]; discriminate].
    intros _. cbn [fst] in Hf.
    assert (Hrow' : Store.feeds (db wd2) !! ID cur = Some cur).
    { rewrite Hf, Hid. exact Hrow. }
    destruct (failUpdateFeedLastProcessed (stores w)) as [err|].
    { exists cur. unfold row. cbn. rewrite <- Hid. auto. }
    match goal with |- context [Store.UpdateFeedLastProcessed None ?t ?d _ ?h ?e ?l] =>
      pose proof (update_row t d cur h e l Hrow') as (_ & _ & rw & Hrw & _ & He & Hl & _) end.
    rewrite Hid in *.
    destruct (Store.UpdateFeedLastProcessed None _ _ _ _ _ _) as [d o]. cbn [fst snd] in *.
    exists rw. unfold row. cbn [db]. auto.
Qed.

(** Scenario 1 of the specification with a server that sends no cache
    header: the stored etag [E1] and the stored last-modified value are
    replaced by empty strings. *)
Lemma C10_cache_headers_stored_witness :
  let w := workerOf false (serverWith [item1] None None) TelegramSpec.apiAccepting in
  let r := ProcessFeed w feed1 (worldOf feed1) in
  HTTPEtag feed1 = Some "E1"
  /\ r.2 = Success
  /\ exists rw, row r.1 1 = Some rw /\ HTTPEtag rw = Some "" /\ HTTPLastModified rw = Some "".
Proof.
  cbn zeta. split; [reflexivity|]. split; [vm_compute; reflexivity|].
  destruct (C10_cache_headers_stored
              (workerOf false (serverWith [item1] None None) TelegramSpec.apiAccepting)
              (fun _ => serverWith [item1] None None) feed1 feed1 (worldOf feed1) 0
              (Rss.mkResponse 200 None None (Some (Rss.mkFeed [item1]))) (Rss.mkFeed [item1]))
    as (_ & _ & _ & Hstored).
  - reflexivity.
  - reflexivity.
  - reflexivity.
  - reflexivity.
  - reflexivity.
  - left. reflexivity.
  - reflexivity.
  - reflexivity.
  - reflexivity.
  - apply Hstored. right. vm_compute. reflexivity.
Defined.

(** C10 as stated fails three times.  A server answering 204, a 2xx
    status, gets four attempts and the fetch returns an error, hence no cache
    value.  A run whose fetch ends on a 200 without cache headers, but whose
    feed has no bot, returns before any update: the stored etag stays.  And
    a run that delivers the item of such a fetch, but whose update of the row
    fails, ends as a success with the stored etag as it was. *)
Lemma C10_counterexample :
  (Rss.Fetch (RssClaims.serverAnswering 204) "u" None None).2
  = Err (ErrWrap "all fetch attempts failed" (ErrStatus 3 204))
  /\ ~ fetch_2xx_as_stated (RssClaims.serverAnswering 204) "u" None None
  /\ (let w := workerOf false (serverWith [item1] None None) TelegramSpec.apiAccepting in
      let r := ProcessFeed w feedNoBot (worldOf feedNoBot) in
      r.2 = ConfigError
      /\ row r.1 1 = Some feedNoBot
      /\ ~ headers_stored_as_stated w feedNoBot feedNoBot (worldOf feedNoBot))
  /\ (let w := workerFailingUpdate (serverWith [item1] None None) TelegramSpec.apiAccepting in
      let r := ProcessFeed w feed1 (worldOf feed1) in
      r.2 = Success
      /\ row r.1 1 = Some feed1
      /\ ~ headers_stored_as_stated w feed1 feed1 (worldOf feed1)).
Proof.
  split; [reflexivity|]. split; [|split].
  - intros H.
    destruct (H 0%nat (Rss.mkResponse 204 None None (Some (Rss.mkFeed [])))) as (res & Hres & _).
    + left. reflexivity.
    + reflexivity.
    + cbn. lia.
    + discriminate Hres.
  - cbn zeta.
    assert (Hrow : row (ProcessFeed (workerOf false (serverWith [item1] None None)
                          TelegramSpec.apiAccepting) feedNoBot (worldOf feedNoBot)).1 1
                   = Some feedNoBot) by (vm_compute; reflexivity).
    split; [vm_compute; reflexivity|]. split; [exact Hrow|].
    intros H.
    destruct (H (Rss.mkFetchResult (Some (Rss.mkFeed [item1])) (Some "") (Some ""))
                (Rss.mkFeed [item1])) as (rw & Hrw & He & _); [reflexivity|reflexivity|].
    cbn [ID feedNoBot] in Hrw. rewrite Hrow in Hrw. inversion Hrw; subst rw.
    discriminate He.
  - cbn zeta.
    assert (Hrow : row (ProcessFeed (workerFailingUpdate (serverWith [item1] None None)
                          TelegramSpec.apiAccepting) feed1 (worldOf feed1)).1 1
                   = Some feed1) by (vm_compute; reflexivity).
    split; [vm_compute; reflexivity|]. split; [exact Hrow|].
    intros H.
    destruct (H (Rss.mkFetchResult (Some (Rss.mkFeed [item1])) (Some "") (Some ""))
                (Rss.mkFeed [item1])) as (rw & Hrw & He & _); [reflexivity|reflexivity|].
    cbn [ID feed1] in Hrw. rewrite Hrow in Hrw. inversion Hrw; subst rw.
    discriminate He.
Qed.

End WorkerCacheHeaders.
Section WorkerExamples.
Import Database Worker WorkerSpec Scenarios.

(** Scenario 1 of the specification, a fresh feed of three items listed
    out of order: they are delivered oldest first, each gets its
    [processed_items] row, and the row of the feed ends with the fingerprint
    of the newest item. *)
Example scenario1_fresh_feed :
  let w := workerOf false (serverWith [item3; item1; item2] (Some "E2") None)
                    TelegramSpec.apiAccepting in
  let r := ProcessFeed w feed1 (worldOf feed1) in
  r.2 = Success
  /\ sentMessages r.1
     = map (fun it => Telegram.MessageConfig (Telegram.ChannelUsername "@chan")
                        (@Formatter.finalMessageOf LibModel.libs
                           (@Formatter.configOf LibModel.libs None) it feed1) "HTML")
           [item1; item2; item3]
  /\ map fst (map_to_list (Store.processed_items (db r.1)))
     ≡ₚ [(1, fp item1); (1, fp item2); (1, fp item3)]
  /\ (exists rw, row r.1 1 = Some rw
        /\ LastProcessedItemGUIDHash rw = Some (fp item3)
        /\ HTTPEtag rw = Some "E2").
Proof.
  cbn zeta. split; [vm_compute; reflexivity|]. split; [vm_compute; reflexivity|]. split.
  - assert (H : map fst (map_to_list (Store.processed_items (db (ProcessFeed
                  (workerOf false (serverWith [item3; item1; item2] (Some "E2") None)
                     TelegramSpec.apiAccepting) feed1 (worldOf feed1)).1)))
                = [(1, fp item1); (1, fp item3); (1, fp item2)])
      by (vm_compute; reflexivity).
    rewrite H. apply perm_skip, perm_swap.
  - eexists. split; [vm_compute; reflexivity|]. split; vm_compute; reflexivity.
Qed.

(** Scenario 3 of the specification, continued: after the run in which the
    API refused the second item, a run over the same server data delivers the
    second and the third item and not the first again. *)
Example scenario3_next_run :
  let net := serverWith [item3; item1; item2] None None in
  let r1 := ProcessFeed (workerOf false net (apiRefusing 1)) feed1 (worldOf feed1) in
  let r2 := ProcessFeed (workerOf false net TelegramSpec.apiAccepting) feed1 r1.1 in
  r1.2 = SendError /\ r2.2 = Success
  /\ sentMessages r2.1
     = map (fun it => Telegram.MessageConfig (Telegram.ChannelUsername "@chan")
                        (@Formatter.finalMessageOf LibModel.libs
                           (@Formatter.configOf LibModel.libs None) it feed1) "HTML")
           [item1; item2; item3]
  /\ (exists rw, row r2.1 1 = Some rw /\ LastProcessedItemGUIDHash rw = Some (fp item3)).
Proof.
  cbn zeta. split; [vm_compute; reflexivity|]. split; [vm_compute; reflexivity|].
  split; [vm_compute; reflexivity|].
  eexists. split; vm_compute; reflexivity.
Qed.
End WorkerExamples.


(* ===================================================================== *)
(** * The formatter *)
(* ===================================================================== *)

Section StringFacts.
Import Strings FormatterSpec.

Lemma bytes_app (a b : string) : bytes (a +:+ b) = bytes a ++ bytes b.
Proof.
  unfold bytes. induction a as [|c a IH]; simpl; [reflexivity|].
  f_equal. exact IH.
Qed.

Lemma bytes_str (l : list ascii) : bytes (str l) = l.
Proof. apply list_ascii_of_string_of_list_ascii. Qed.

Lemma str_bytes (s : string) : str (bytes s) = s.
Proof. apply string_of_list_ascii_of_string. Qed.

Lemma noAngle_app (a b : list ascii) : noAngle (a ++ b) = noAngle a && noAngle b.
Proof. apply forallb_app. Qed.

Lemma noAngle_rev (a : list ascii) : noAngle (rev a) = noAngle a.
Proof.
  induction a as [|c a IH]; [reflexivity|].
  cbn [rev]. rewrite noAngle_app, IH. cbn. rewrite andb_true_r. apply andb_comm.
Qed.

Lemma hasPrefixL_split (p l : list ascii) :
  hasPrefixL p l = true -> l = p ++ skipn (length p) l.
Proof.
  revert l. induction p as [|a p IH]; intros l H; [reflexivity|].
  destruct l as [|b l]; [discriminate|]. cbn in H.
  apply andb_true_iff in H as [Hab Hp]. apply Ascii.eqb_eq in Hab as ->.
  cbn. f_equal. now apply IH.
Qed.

(** What [trimLeft] removes is made of the given sequences. *)
Lemma trimLeft_split (fuel : nat) (seqs : list (list ascii)) (l : list ascii) :
  exists a, l = a ++ trimLeft fuel seqs l /\ Forall (fun c => In c (concat seqs)) a.
Proof.
  revert l. induction fuel as [|fuel IH]; intros l.
  - exists []. split; [reflexivity|constructor].
  - cbn [trimLeft]. unfold leadingSpace.
    destruct (find (fun w => hasPrefixL w l) seqs) as [w|] eqn:Hf.
    + apply find_some in Hf as [Hin Hp].
      destruct (IH (skipn (length w) l)) as (a & Ha & Hall).
      exists (w ++ a). split.
      * rewrite <- app_assoc, <- Ha. now apply hasPrefixL_split.
      * apply Forall_app. split; [|exact Hall].
        apply List.Forall_forall. intros c Hc. apply in_concat. eauto.
    + exists []. split; [reflexivity|constructor].
Qed.

Lemma spaces_noAngle :
  forallb (fun c => negb (Ascii.eqb c lt) && negb (Ascii.eqb c gt)) (concat spaces) = true
  /\ forallb (fun c => negb (Ascii.eqb c lt) && negb (Ascii.eqb c gt))
             (concat (map (@rev ascii) spaces)) = true.
Proof. split; vm_compute; reflexivity. Qed.

Lemma Forall_noAngle (seqs : list (list ascii)) (a : list ascii) :
  forallb (fun c => negb (Ascii.eqb c lt) && negb (Ascii.eqb c gt)) (concat seqs) = true ->
  Forall (fun c => In c (concat seqs)) a -> noAngle a = true.
Proof.
  intros Hs Ha. unfold noAngle. apply forallb_forall. intros c Hc.
  rewrite forallb_forall in Hs. apply Hs.
  rewrite List.Forall_forall in Ha. now apply Ha.
Qed.

(** [TrimSpace] removes, at both ends, characters that are no angle
    brackets. *)
Lemma TrimSpace_split (s : string) :
  exists a b, bytes s = a ++ bytes (TrimSpace s) ++ b
              /\ noAngle a = true /\ noAngle b = true.
Proof.
  unfold TrimSpace. rewrite bytes_str.
  destruct (trimLeft_split (length (bytes s)) spaces (bytes s)) as (a & Ha & Halla).
  set (l1 := trimLeft (length (bytes s)) spaces (bytes s)) in *.
  destruct (trimLeft_split (length l1) (map (@rev ascii) spaces) (rev l1)) as (b & Hb & Hallb).
  set (t := trimLeft (length l1) (map (@rev ascii) spaces) (rev l1)) in *.
  exists a, (rev b). split; [|split].
  - rewrite Ha at 1. f_equal. rewrite <- rev_app_distr, <- Hb. now rewrite rev_involutive.
  - eapply Forall_noAngle; [exact (proj1 spaces_noAngle)|exact Halla].
  - rewrite noAngle_rev. eapply Forall_noAngle; [exact (proj2 spaces_noAngle)|exact Hallb].
Qed.

Lemma escapeChar_noAngle (c : ascii) : noAngle (bytes (escapeChar c)) = true.
Proof.
  unfold escapeChar.
  destruct (Ascii.eqb c "&"); [reflexivity|].
  destruct (Ascii.eqb c "'"); [reflexivity|].
  destruct (Ascii.eqb c "<") eqn:Hlt; [reflexivity|].
  destruct (Ascii.eqb c ">") eqn:Hgt; [reflexivity|].
  destruct (Ascii.eqb c dquote); [reflexivity|].
  cbn. unfold lt, gt. now rewrite Hlt, Hgt.
Qed.

(** [html.EscapeString] leaves no angle bracket. *)
Lemma EscapeString_noAngle (s : string) : noAngle (bytes (EscapeString s)) = true.
Proof.
  induction s as [|c s IH]; [reflexivity|].
  cbn [EscapeString]. rewrite bytes_app, noAngle_app, escapeChar_noAngle, IH. reflexivity.
Qed.

Lemma ReplaceAll_noAngle (s : string) :
  noAngle (bytes s) = true -> noAngle (bytes (ReplaceAll s " " "_")) = true.
Proof.
  induction s as [|c s IH]; [reflexivity|].
  change (bytes (String c s)) with (c :: bytes s).
  change (bytes (ReplaceAll (String c s) " " "_"))
    with ((if Ascii.eqb c " " then "_"%char else c) :: bytes (ReplaceAll s " " "_")).
  unfold noAngle in *. cbn [forallb].
  intros H. apply andb_true_iff in H as [Hc Hs]. rewrite (IH Hs), andb_true_r.
  destruct (Ascii.eqb c " "); [reflexivity|exact Hc].
Qed.

Lemma noAngle_skipn (n : nat) (l : list ascii) : noAngle l = true -> noAngle (skipn n l) = true.
Proof.
  revert l. induction n as [|n IH]; intros l H; [exact H|].
  destruct l as [|c l]; [reflexivity|]. cbn in *.
  apply andb_true_iff in H as [_ H]. now apply IH.
Qed.

Lemma TrimPrefix_noAngle (s p : string) :
  noAngle (bytes s) = true -> noAngle (bytes (TrimPrefix s p)) = true.
Proof.
  intros H. unfold TrimPrefix. destruct (HasPrefix s p); [|exact H].
  rewrite bytes_str. now apply noAngle_skipn.
Qed.

End StringFacts.

Section TagFacts.
Import Strings Formatter FormatterSpec.

Variable allowed : list string.

Lemma tagRun_app (st : TagState) (a b : list ascii) :
  tagRun allowed st (a ++ b) = tagRun allowed (tagRun allowed st a) b.
Proof. apply fold_left_app. Qed.

Lemma tagRun_noAngle_Outside (l : list ascii) :
  noAngle l = true -> tagRun allowed Outside l = Outside.
Proof.
  induction l as [|c l IH]; [reflexivity|]. cbn.
  intros H. apply andb_true_iff in H as [Hc Hl].
  apply andb_true_iff in Hc as [Hlt _]. apply negb_true_iff in Hlt. rewrite Hlt.
  now apply IH.
Qed.

Lemma tagRun_noAngle_InTag (l : list ascii) :
  noAngle l = true -> tagRun allowed InTag l = InTag.
Proof.
  induction l as [|c l IH]; [reflexivity|]. cbn.
  intros H. apply andb_true_iff in H as [Hc Hl].
  apply andb_true_iff in Hc as [Hlt Hgt]. apply negb_true_iff in Hlt, Hgt.
  rewrite Hlt, Hgt. now apply IH.
Qed.

(** Without an angle bracket, only a text that is outside any tag stays
    so. *)
Lemma tagRun_noAngle_inv (l : list ascii) (st : TagState) :
  noAngle l = true -> tagRun allowed st l = Outside -> st = Outside.
Proof.
  revert st. induction l as [|c l IH]; intros st H Hrun; [exact Hrun|].
  cbn in H, Hrun. apply andb_true_iff in H as [Hc Hl].
  apply andb_true_iff in Hc as [Hlt Hgt]. apply negb_true_iff in Hlt, Hgt.
  apply (IH _ Hl) in Hrun. destruct st as [|closing name| |]; cbn in Hrun.
  - reflexivity.
  - rewrite Hgt, Hlt in Hrun.
    destruct (Ascii.eqb c " "); [destruct (allowedName allowed name); discriminate|].
    destruct (Ascii.eqb c "/"); [|discriminate].
    destruct name; [destruct closing|]; discriminate.
  - rewrite Hgt, Hlt in Hrun. discriminate.
  - discriminate.
Qed.

End TagFacts.

Section FormatterProps.
Import Strings Formatter FormatterSpec.
Context `{Libs}.

Local Abbreviation run := (tagRun (allowedElements telegramHTMLPolicy)).

(** [FormatItem] always returns one text part holding the whole message:
    the Telegraph branch cannot be taken and nothing splits the text. *)
Lemma FormatItem_one_part (item : Rss.Item) (feed : Database.Feed)
    (profile : option Database.FormattingProfile) :
  FormatItem item feed profile
  = Ok [Telegram.textPart (finalMessageOf (configOf profile) item feed) defaultParseMode].
Proof.
  unfold FormatItem, createTelegraphPost.
  destruct (_ && _); reflexivity.
Qed.

Lemma isOutside_eq (st : TagState) : isOutside st = true -> st = Outside.
Proof. destruct st; (reflexivity || discriminate). Qed.

Lemma run_string_noAngle (s : string) :
  noAngle (bytes s) = true -> run Outside (bytes s) = Outside.
Proof. apply tagRun_noAngle_Outside. Qed.

Lemma writeHashtags_noAngle (tags : list string) :
  forallb (fun tag => noAngle (bytes tag)) tags = true ->
  noAngle (bytes (writeHashtags tags)) = true.
Proof.
  induction tags as [|tag r IH]; [reflexivity|].
  cbn [forallb writeHashtags]. intros Ht. apply andb_true_iff in Ht as [Ht Hr].
  rewrite bytes_app, noAngle_app, (IH Hr), andb_true_r.
  destruct (negb (isEmpty (cleanTagOf tag))); [|reflexivity].
  rewrite !bytes_app, !noAngle_app. unfold cleanTagOf.
  rewrite ReplaceAll_noAngle by now apply TrimPrefix_noAngle. reflexivity.
Qed.

Lemma hashtagSuffix_noAngle (cfg : Database.FormattingProfileConfig) (body : string) :
  forallb (fun tag => noAngle (bytes tag)) (Database.Hashtags cfg) = true ->
  noAngle (bytes (hashtagSuffix cfg body)) = true.
Proof.
  intros Ht. unfold hashtagSuffix.
  destruct (Database.Hashtags cfg) as [|t0 r] eqn:Htags; [reflexivity|].
  destruct (negb _); [|reflexivity].
  rewrite !bytes_app, !noAngle_app, (writeHashtags_noAngle _ Ht). reflexivity.
Qed.

Lemma authorSuffix_safe (cfg : Database.FormattingProfileConfig) (item : Rss.Item)
    (body : string) :
  run Outside (bytes (authorSuffix cfg item body)) = Outside.
Proof.
  unfold authorSuffix. destruct (Rss.Author item) as [name|]; [|reflexivity].
  destruct (_ && _); [|reflexivity].
  rewrite !bytes_app, !tagRun_app.
  change (run Outside (bytes nl)) with Outside.
  change (run Outside (bytes nl)) with Outside.
  change (run Outside (bytes "<i>Author: ")) with Outside.
  rewrite (run_string_noAngle _ (EscapeString_noAngle name)). reflexivity.
Qed.

(** The default layout is safe when the sanitized content is. *)
Lemma defaultLayout_safe (cfg : Database.FormattingProfileConfig) (item : Rss.Item)
    (feed : Database.Feed) :
  isEmpty (Database.MessageTemplate cfg) = true ->
  tagSafe (sanitizedContentOf cfg item) = true ->
  run Outside (bytes (messageBodyOf cfg item feed)) = Outside.
Proof.
  intros Htmpl Hsafe. unfold messageBodyOf. rewrite Htmpl. cbn [negb].
  rewrite !bytes_app, !tagRun_app.
  assert (Ht : run Outside
            (bytes (if negb (isEmpty (finalTitleOf cfg item feed))
                    then "<b>" +:+ EscapeString (finalTitleOf cfg item feed) +:+ "</b>" +:+ nl
                    else "")) = Outside).
  { destruct (negb _); [|reflexivity].
    rewrite !bytes_app, !tagRun_app.
    change (run Outside (bytes "<b>")) with Outside.
    rewrite (run_string_noAngle _ (EscapeString_noAngle _)). reflexivity. }
  rewrite Ht. rewrite (isOutside_eq _ Hsafe).
  destruct (negb (isEmpty (Rss.Link item))); [|reflexivity].
  rewrite !bytes_app, !tagRun_app.
  change (run Outside (bytes nl)) with Outside.
  change (run (run Outside (bytes "<a href=")) (bytes quote)) with InTag.
  rewrite (tagRun_noAngle_InTag _ _ (EscapeString_noAngle _)). reflexivity.
Qed.

Lemma tagSafe_TrimSpace (s : string) : tagSafe s = true -> tagSafe (TrimSpace s) = true.
Proof.
  unfold tagSafe. intros Hs. apply isOutside_eq in Hs.
  destruct (TrimSpace_split s) as (a & b & Heq & Ha & Hb).
  rewrite Heq, !tagRun_app, (tagRun_noAngle_Outside _ _ Ha) in Hs.
  apply tagRun_noAngle_inv in Hs; [|exact Hb]. now rewrite Hs.
Qed.

(** C8, as amended: the Telegram policy, whose elements are [a], [b],
    [strong], [i], [em], [u], [s], [strike], [del], [code], [pre], [span] and
    [tg-spoiler], is applied to the content of the item after the emoji
    shortcodes are replaced, and before the templates are expanded.  When the
    profile sets no message template and its hashtags hold no angle bracket,
    the one part that [FormatItem] returns carries no tag outside the policy,
    as far as the sanitizer leaves none in the content.  What a message
    template renders and the hashtags are not sanitized. *)
Theorem C8_default_layout_sanitized (item : Rss.Item) (feed : Database.Feed)
    (profile : option Database.FormattingProfile) :
  let cfg := configOf profile in
  let content := if isEmpty (Rss.Content item) then Rss.Description item
                 else Rss.Content item in
  isEmpty (Database.MessageTemplate cfg) = true ->
  forallb (fun tag => noAngle (bytes tag)) (Database.Hashtags cfg) = true ->
  tagSafe (Sanitize telegramHTMLPolicy (emojiSprint content)) = true ->
  allowedElements telegramHTMLPolicy
  = ["a"; "b"; "strong"; "i"; "em"; "u"; "s"; "strike"; "del"; "code"; "pre"; "span";
     "tg-spoiler"]
  /\ sanitizedContentOf cfg item = Sanitize telegramHTMLPolicy (emojiSprint content)
  /\ exists text,
       FormatItem item feed profile = Ok [Telegram.textPart text defaultParseMode]
       /\ tagSafe text = true.
Proof.
  intros cfg content Htmpl Htags Hsafe.
  split; [reflexivity|].
  assert (Hsan : sanitizedContentOf cfg item = Sanitize telegramHTMLPolicy (emojiSprint content)).
  { unfold sanitizedContentOf, replaceEmojiImages. fold content.
    destruct (Database.ReplaceEmojiImagesWithAlt cfg); reflexivity. }
  split; [exact Hsan|].
  eexists. split; [apply FormatItem_one_part|].
  unfold finalMessageOf. fold cfg. apply tagSafe_TrimSpace. unfold tagSafe.
  rewrite !bytes_app, !tagRun_app.
  rewrite defaultLayout_safe by (try assumption; now rewrite Hsan).
  rewrite authorSuffix_safe.
  rewrite (run_string_noAngle _ (hashtagSuffix_noAngle cfg _ Htags)). reflexivity.
Qed.

End FormatterProps.

Section SplitMessageProps.
Import Telegram.

(** The chunks [SplitMessage] cuts put the runes back together. *)
Lemma splitRunes_concat (fuel : nat) (runes : list N) :
  (length runes <= fuel)%nat -> concat (splitRunes fuel runes) = runes.
Proof.
  revert runes. induction fuel as [|fuel IH]; intros runes Hlen.
  - destruct runes; [reflexivity|cbn in Hlen; lia].
  - destruct runes as [|r rs]; [reflexivity|].
    cbn [splitRunes concat]. rewrite IH; [apply firstn_skipn|].
    rewrite length_skipn. unfold telegramMaxMessageLength. cbn [length] in *. lia.
Qed.

(** No chunk is longer than the limit, and none is empty. *)
Lemma splitRunes_bound (fuel : nat) (runes : list N) :
  Forall (fun chunk => (1 <= length chunk <= telegramMaxMessageLength)%nat)
         (splitRunes fuel runes).
Proof.
  revert runes. induction fuel as [|fuel IH]; intros runes; [constructor|].
  destruct runes as [|r rs]; [constructor|].
  cbn [splitRunes]. constructor; [|apply IH].
  rewrite length_firstn. unfold telegramMaxMessageLength. cbn [length]. lia.
Qed.

Lemma SplitMessage_parseMode (text parseMode : string) :
  Forall (fun p => ParseMode p = parseMode) (SplitMessage text parseMode).
Proof.
  unfold SplitMessage. destruct (_ <=? _)%nat; [repeat constructor|].
  apply List.Forall_forall. intros p Hp. apply in_map_iff in Hp as (chunk & <- & _). reflexivity.
Qed.

Lemma SplitMessage_short (text parseMode : string) :
  (String.length text <= telegramMaxMessageLength)%nat ->
  SplitMessage text parseMode = [textPart text parseMode].
Proof.
  intros Hlen. unfold SplitMessage. apply Nat.leb_le in Hlen. now rewrite Hlen.
Qed.

End SplitMessageProps.

Section FormatterScenarios.
Import Strings Formatter FormatterSpec Database Worker WorkerSpec Scenarios.

(** The default layout on [item1]: the sanitizer removes the [p] tags of
    the content and the part carries only allowed tags. *)
Lemma C8_default_layout_sanitized_witness :
  exists text,
    @Formatter.FormatItem LibModel.libs item1 feed1 None = Ok [Telegram.textPart text defaultParseMode]
    /\ tagSafe text = true.
Proof.
  destruct (@C8_default_layout_sanitized LibModel.libs item1 feed1 None) as (_ & _ & Hparts).
  - reflexivity.
  - reflexivity.
  - vm_compute. reflexivity.
  - exact Hparts.
Defined.

(** C8 as stated fails on a profile with a message template: the content
    is sanitized (its [p] tags are gone), then the template is expanded, and
    the [h1] tag of the template reaches the part as it is. *)
Lemma C8_counterexample :
  @Formatter.FormatItem LibModel.libs item1 feedHeadline (FormattingProfile_ feedHeadline)
  = Ok [Telegram.textPart "<h1>First</h1>Hello <b>one</b>" defaultParseMode]
  /\ Contains "<h1>First</h1>Hello <b>one</b>" "<h1>" = true
  /\ existsb (String.eqb "h1") (allowedElements telegramHTMLPolicy) = false
  /\ tagSafe "<h1>First</h1>Hello <b>one</b>" = false
  /\ ~ @sanitized_as_stated LibModel.libs item1 feedHeadline (FormattingProfile_ feedHeadline).
Proof.
  assert (Hrun : @Formatter.FormatItem LibModel.libs item1 feedHeadline (FormattingProfile_ feedHeadline)
                 = Ok [Telegram.textPart "<h1>First</h1>Hello <b>one</b>" defaultParseMode])
    by (vm_compute; reflexivity).
  split; [exact Hrun|]. split; [reflexivity|]. split; [reflexivity|].
  split; [reflexivity|].
  intros Hs. specialize (Hs _ Hrun). apply List.Forall_inv in Hs. discriminate Hs.
Qed.

(** C7 at its failing input: an item whose content is 5000 characters.
    [FormatItem] returns the whole text as one part and [Send] gives it to
    the API as it is: [SplitMessage], which would cut it in two parts within
    the limit, is called by neither. *)
Lemma C7_long_text_sent_unsplit :
  let w := workerOf false (serverWith [itemLong] None None) TelegramSpec.apiAccepting in
  let r := ProcessFeed w feed1 (worldOf feed1) in
  let text := replicate 5000 "a" in
  @Formatter.FormatItem LibModel.libs itemLong feed1 None = Ok [Telegram.textPart text defaultParseMode]
  /\ r.2 = Success
  /\ sentMessages r.1 = [Telegram.MessageConfig (Telegram.ChannelUsername "@chan") text "HTML"]
  /\ String.length text = 5000%nat
  /\ length (Utf8.runes text) = 5000%nat
  /\ map (fun p => length (Utf8.runes (Telegram.Text p))) (Telegram.SplitMessage text "HTML")
     = [4096; 904]%nat
  /\ ~ @bounded_as_stated LibModel.libs itemLong feed1 None.
Proof.
  cbn zeta.
  assert (Hrun : @Formatter.FormatItem LibModel.libs itemLong feed1 None
                 = Ok [Telegram.textPart (replicate 5000 "a") defaultParseMode])
    by (vm_compute; reflexivity).
  assert (Hlen : length (Utf8.runes (replicate 5000 "a")) = 5000%nat) by (vm_compute; reflexivity).
  split; [exact Hrun|]. split; [vm_compute; reflexivity|]. split; [vm_compute; reflexivity|].
  split; [vm_compute; reflexivity|]. split; [exact Hlen|]. split; [vm_compute; reflexivity|].
  intros Hb. specialize (Hb _ Hrun). apply List.Forall_inv in Hb.
  cbn [Telegram.Text Telegram.textPart] in Hb. rewrite Hlen in Hb.
  unfold Telegram.telegramMaxMessageLength in Hb. lia.
Qed.

End FormatterScenarios.

(* ===================================================================== *)
(** * The scheduler *)
(* ===================================================================== *)

Section SchedulerHeap.
Import Database Scheduler SchedulerSpec.

Lemma insert_Permutation {A} (l : list A) (j : nat) (x y : A) :
  l !! j = Some y -> y :: <[j := x]> l ≡ₚ x :: l.
Proof.
  revert j. induction l as [|h t IH]; intros j Hj; [discriminate|].
  destruct j as [|j]; cbn in *.
  - inversion Hj; subst. apply perm_swap.
  - rewrite perm_swap, (IH _ Hj). apply perm_swap.
Qed.

(** Exchanging two elements of a list permutes it. *)
Lemma swap_Permutation {A} (l : list A) (i j : nat) (x y : A) :
  l !! i = Some x -> l !! j = Some y -> <[j := x]> (<[i := y]> l) ≡ₚ l.
Proof.
  intros Hi Hj.
  assert (Hj' : <[i := y]> l !! j = Some y).
  { destruct (decide (i = j)) as [->|Hne].
    - apply list_lookup_insert_eq. now apply lookup_lt_Some in Hi.
    - now rewrite list_lookup_insert_ne. }
  apply (Permutation_cons_inv (a := y)).
  rewrite (insert_Permutation _ _ x y Hj'). now apply insert_Permutation.
Qed.

Lemma entries_insert (pq : PriorityQueue) (i : nat) (x : ScheduledTask) :
  entries (<[i := x]> pq) = <[i := entry x]> (entries pq).
Proof.
  revert i. induction pq as [|h t IH]; intros i; [reflexivity|].
  destruct i as [|i]; cbn; [reflexivity|]. f_equal. apply IH.
Qed.

Lemma entries_lookup (pq : PriorityQueue) (i : nat) (x : ScheduledTask) :
  pq !! i = Some x -> entries pq !! i = Some (entry x).
Proof.
  revert i. induction pq as [|h t IH]; intros i Hi; [discriminate|].
  destruct i as [|i]; cbn in *; [now inversion Hi|]. now apply IH.
Qed.

Lemma entries_Swap (pq : PriorityQueue) (i j : nat) : entries (Swap pq i j) ≡ₚ entries pq.
Proof.
  unfold Swap. destruct (pq !! i) as [a|] eqn:Hi; [|reflexivity].
  destruct (pq !! j) as [b|] eqn:Hj; [|reflexivity].
  rewrite !entries_insert.
  change (entry (setIndex a (Z.of_nat j))) with (entry a).
  change (entry (setIndex b (Z.of_nat i))) with (entry b).
  apply swap_Permutation; now apply entries_lookup.
Qed.

Lemma length_Swap (pq : PriorityQueue) (i j : nat) : length (Swap pq i j) = length pq.
Proof.
  unfold Swap. destruct (pq !! i); [|reflexivity]. destruct (pq !! j); [|reflexivity].
  now rewrite !length_insert.
Qed.

Lemma Swap_lookup_ne (pq : PriorityQueue) (i j k : nat) :
  k <> i -> k <> j -> Swap pq i j !! k = pq !! k.
Proof.
  intros Hi Hj. unfold Swap. destruct (pq !! i); [|reflexivity]. destruct (pq !! j); [|reflexivity].
  now rewrite !list_lookup_insert_ne by congruence.
Qed.

Lemma entries_up (fuel : nat) (pq : PriorityQueue) (j : nat) :
  entries (up fuel pq j) ≡ₚ entries pq /\ length (up fuel pq j) = length pq.
Proof.
  revert pq j. induction fuel as [|fuel IH]; intros pq j; [split; reflexivity|].
  cbn [up]. destruct (_ || _); [split; reflexivity|].
  destruct (IH (Swap pq ((j - 1) / 2) j) ((j - 1) / 2)%nat) as [Hp Hl].
  split; [now rewrite Hp, entries_Swap | now rewrite Hl, length_Swap].
Qed.

Lemma entries_down (fuel : nat) (pq : PriorityQueue) (i n : nat) :
  entries (down fuel pq i n) ≡ₚ entries pq /\ length (down fuel pq i n) = length pq.
Proof.
  revert pq i. induction fuel as [|fuel IH]; intros pq i; [split; reflexivity|].
  cbn [down]. destruct (n <=? 2 * i + 1)%nat; [split; reflexivity|].
  destruct (negb _); [split; reflexivity|].
  match goal with |- context [down fuel (Swap pq i ?j) ?j n] =>
    destruct (IH (Swap pq i j) j) as [Hp Hl] end.
  split; [now rewrite Hp, entries_Swap | now rewrite Hl, length_Swap].
Qed.

(** [down] on the first [n] tasks leaves the others where they are. *)
Lemma down_lookup_ge (fuel : nat) (pq : PriorityQueue) (i n k : nat) :
  (i < n)%nat -> (n <= k)%nat -> down fuel pq i n !! k = pq !! k.
Proof.
  revert pq i. induction fuel as [|fuel IH]; intros pq i Hi Hk; [reflexivity|].
  cbn [down]. destruct (Nat.leb_spec n (2 * i + 1)); [reflexivity|].
  destruct (negb _); [reflexivity|].
  destruct (Nat.ltb_spec (2 * i + 1 + 1) n) as [Hj2|Hj2]; cbn [andb].
  - destruct (Less pq (2 * i + 1 + 1) (2 * i + 1)).
    + rewrite IH by lia. apply Swap_lookup_ne; lia.
    + rewrite IH by lia. apply Swap_lookup_ne; lia.
  - rewrite IH by lia. apply Swap_lookup_ne; lia.
Qed.

(** [heap.Pop] takes the first task off the queue and keeps the others. *)
Lemma heapPop_spec (pq : PriorityQueue) (first : ScheduledTask) :
  pq !! 0%nat = Some first ->
  exists t pq', heapPop pq = Some (t, pq')
    /\ entry t = entry first
    /\ entries pq ≡ₚ entry first :: entries pq'
    /\ length pq = S (length pq').
Proof.
  intros Hfirst. unfold heapPop.
  set (n := (length pq - 1)%nat).
  assert (Hlen : length pq = S n).
  { apply lookup_lt_Some in Hfirst. unfold n. lia. }
  destruct (lookup_lt_is_Some_2 pq n) as [lastTask Hlast]; [lia|].
  set (pq1 := Swap pq 0 n).
  assert (Hpq1 : pq1 !! n = Some (setIndex first (Z.of_nat n))).
  { unfold pq1, Swap. rewrite Hfirst, Hlast.
    apply list_lookup_insert_eq. rewrite length_insert. lia. }
  assert (Hl1 : length pq1 = S n) by (unfold pq1; now rewrite length_Swap).
  set (pq2 := down (length pq1) pq1 0 n).
  assert (Hpq2 : pq2 !! n = Some (setIndex first (Z.of_nat n))).
  { unfold pq2. destruct n as [|n'].
    - rewrite Hl1. cbn [down]. exact Hpq1.
    - rewrite down_lookup_ge by lia. exact Hpq1. }
  destruct (entries_down (length pq1) pq1 0 n) as [Hp2 Hl2]. fold pq2 in Hp2, Hl2.
  rewrite Hpq2. eexists _, _. split; [reflexivity|]. split; [reflexivity|].
  assert (Hsplit : pq2 = take n pq2 ++ [setIndex first (Z.of_nat n)]).
  { rewrite <- (take_drop n pq2) at 1. f_equal.
    rewrite (drop_S _ _ _ Hpq2), drop_ge by lia. reflexivity. }
  split.
  - rewrite <- (entries_Swap pq 0 n). fold pq1. rewrite <- Hp2.
    rewrite Hsplit at 1. unfold entries. rewrite map_app. cbn [map].
    rewrite <- Permutation_cons_append. reflexivity.
  - rewrite length_take. lia.
Qed.

(** [heap.Push] adds the task to the queue. *)
Lemma heapPush_spec (pq : PriorityQueue) (x : ScheduledTask) :
  entries (heapPush pq x) ≡ₚ entry x :: entries pq
  /\ length (heapPush pq x) = S (length pq).
Proof.
  unfold heapPush.
  match goal with |- context [up ?f ?q ?j] => destruct (entries_up f q j) as [Hp Hl] end.
  rewrite Hp, Hl. unfold entries. rewrite map_app, length_app. cbn [map length].
  split; [|lia]. rewrite <- Permutation_cons_append. reflexivity.
Qed.


(** A [Duration] holds a number of seconds in range as it is. *)
Lemma seconds_inRange (n : Z) :
  - maxFrequencySeconds <= n <= maxFrequencySeconds -> seconds n = n * second.
Proof.
  intros Hn. unfold seconds, wrap64, second, maxFrequencySeconds in *.
  change (2 ^ 63) with 9223372036854775808. change (2 ^ 64) with 18446744073709551616.
  rewrite Z.mod_small; lia.
Qed.

Lemma inRange_entries (pq : PriorityQueue) :
  frequenciesInRange pq
  <-> Forall (fun e => 0 < FrequencySeconds (fst e) <= maxFrequencySeconds) (entries pq).
Proof. unfold frequenciesInRange, entries. now rewrite List.Forall_map. Qed.

(** The loop of [runPendingTasks]: [fired0] are the entries of the tasks
    started so far, [rest] those not started. *)
Lemma runPending_spec (fuel : nat) (now : Z) (pq : PriorityQueue) (started : list Feed)
    (fired0 rest : list (Feed * Z)) :
  frequenciesInRange pq ->
  entries pq ≡ₚ map (reschedule now) fired0 ++ rest ->
  (length rest < fuel)%nat ->
  exists pq' fired rest',
    runPending fuel now pq started = Some (pq', started ++ map fst fired)
    /\ rest ≡ₚ fired ++ rest'
    /\ entries pq' ≡ₚ map (reschedule now) (fired0 ++ fired) ++ rest'
    /\ Forall (fun e => snd e <= now) fired
    /\ frequenciesInRange pq'.
Proof.
  revert pq started fired0 rest.
  induction fuel as [|fuel IH]; intros pq started fired0 rest Hpos Hperm Hfuel; [lia|].
  cbn [runPending].
  destruct (pq !! 0%nat) as [task|] eqn:Hfirst.
  2:{ exists pq, [], rest. rewrite !app_nil_r. repeat split; auto. }
  destruct (Z.ltb_spec now (NextRun task)) as [Hlater|Hdue].
  { exists pq, [], rest. rewrite !app_nil_r. repeat split; auto. }
  destruct (heapPop_spec pq task Hfirst) as (t & pq1 & Hpop & Hentry & Hp1 & Hl1).
  rewrite Hpop.
  assert (Htask_pos : 0 < FrequencySeconds (TaskFeed task) <= maxFrequencySeconds).
  { unfold frequenciesInRange in Hpos. rewrite List.Forall_forall in Hpos.
    apply Hpos. apply list_elem_of_In. eapply list_elem_of_lookup_2; eauto. }
  assert (Hin : In (entry task) rest).
  { assert (Hin : In (entry task) (map (reschedule now) fired0 ++ rest)).
    { eapply Permutation_in; [exact Hperm|]. rewrite Hp1. now left. }
    apply in_app_or in Hin as [Hin|Hin]; [exfalso|exact Hin].
    apply in_map_iff in Hin as (e & He & _).
    unfold reschedule, entry in He. inversion He as [[Hf Hn]].
    rewrite Hf in Hn. unfold second in Hn. lia. }
  apply in_split in Hin as (r1 & r2 & ->).
  assert (Hpq1 : entries pq1 ≡ₚ map (reschedule now) fired0 ++ r1 ++ r2).
  { apply (Permutation_cons_inv (a := entry task)).
    rewrite <- Hp1, Hperm. rewrite !app_assoc. symmetry. apply Permutation_middle. }
  set (task' := setNextRun t (now + seconds (FrequencySeconds (TaskFeed t)))).
  assert (Hfeed : TaskFeed t = TaskFeed task) by (now inversion Hentry).
  destruct (heapPush_spec pq1 task') as [Hp2 Hl2].
  assert (He' : entry task' = reschedule now (entry task)).
  { unfold task', entry, reschedule, setNextRun. cbn. rewrite Hfeed.
    rewrite seconds_inRange by (unfold maxFrequencySeconds in *; lia). reflexivity. }
  destruct (IH (heapPush pq1 task') (started ++ [TaskFeed task']) (fired0 ++ [entry task])
               (r1 ++ r2)) as (pq' & fired & rest' & Hrun & Hrest & Hq' & Hdue' & Hpos').
  - apply inRange_entries. rewrite Hp2. constructor.
    + rewrite He'. exact Htask_pos.
    + apply inRange_entries in Hpos. rewrite Hp1 in Hpos. now apply List.Forall_inv_tail in Hpos.
  - rewrite Hp2, He', Hpq1, map_app. cbn [map]. rewrite <- !app_assoc. cbn [app].
    apply Permutation_middle.
  - rewrite length_app in *. cbn [length] in Hfuel. lia.
  - exists pq', (entry task :: fired), rest'. split; [|split; [|split; [|split]]].
    + rewrite Hrun, <- app_assoc. cbn [app map].
      replace (TaskFeed task') with (entry task).1 by (cbn; now rewrite Hfeed). reflexivity.
    + cbn [app]. rewrite <- Hrest. symmetry. apply Permutation_middle.
    + rewrite Hq', <- app_assoc. reflexivity.
    + constructor; [exact Hdue|exact Hdue'].
    + exact Hpos'.
Qed.

(** [Add] coerces a frequency that is not positive, and leaves any other
    as it is: the queues it builds hold positive frequencies only, in range
    when those of the feeds added are not above it. *)
Lemma Add_inRange (pq : PriorityQueue) (now : Z) (feed : Feed) :
  frequenciesInRange pq -> FrequencySeconds feed <= maxFrequencySeconds ->
  frequenciesInRange (Add pq now feed).
Proof.
  intros Hpos Hmax. unfold Add. apply inRange_entries.
  match goal with |- context [heapPush pq ?x] => destruct (heapPush_spec pq x) as [Hp _] end.
  rewrite Hp. constructor; [|now apply inRange_entries].
  cbn. unfold maxFrequencySeconds in *.
  destruct (Z.leb_spec (FrequencySeconds feed) 0); cbn; lia.
Qed.

(** C9, as amended: when the frequencies of the queue are positive and
    not above the 9223372036 seconds a [Duration] holds, [runPendingTasks]
    ends; every task it starts at [now] was due and is back in the queue at
    once with [NextRun = now + frequency], whatever time the run will take,
    the other entries staying as they are; the queue keeps one entry for each
    entry it had, so entries never stack, and when the feeds of the queue are
    distinct no feed is started twice by the call. *)
Theorem C9_runPendingTasks_reschedules (now : Z) (pq : PriorityQueue) :
  frequenciesInRange pq ->
  exists pq' fired rest,
    runPendingTasks now pq = Some (pq', map fst fired)
    /\ entries pq ≡ₚ fired ++ rest
    /\ entries pq' ≡ₚ map (reschedule now) fired ++ rest
    /\ Forall (fun e => snd e <= now) fired
    /\ length pq' = length pq
    /\ frequenciesInRange pq'
    /\ (NoDup (map (fun e => ID (fst e)) (entries pq)) ->
        NoDup (map ID (map fst fired))).
Proof.
  intros Hpos. unfold runPendingTasks.
  destruct (runPending_spec (S (length pq)) now pq [] [] (entries pq) Hpos)
    as (pq' & fired & rest' & Hrun & Hrest & Hq' & Hdue & Hpos').
  - reflexivity.
  - unfold entries. rewrite length_map. lia.
  - exists pq', fired, rest'. cbn [app] in *.
    split; [exact Hrun|]. split; [exact Hrest|]. split; [exact Hq'|]. split; [exact Hdue|].
    split.
    { apply Permutation_length in Hq', Hrest.
      unfold entries in *. rewrite !length_app, !length_map in *. lia. }
    split; [exact Hpos'|].
    intros Hnd. rewrite map_map.
    rewrite Hrest, map_app in Hnd. now apply NoDup_app in Hnd as [Hnd _].
Qed.


(** Scenario 6 at the instant 60 s: the task of the feed is started and is
    back in the queue for the instant 120 s. *)
Lemma C9_runPendingTasks_reschedules_witness :
  exists pq' fired rest,
    runPendingTasks (60 * second) queue0 = Some (pq', map fst fired)
    /\ entries queue0 ≡ₚ fired ++ rest
    /\ entries pq' ≡ₚ map (reschedule (60 * second)) fired ++ rest.
Proof.
  destruct (C9_runPendingTasks_reschedules (60 * second) queue0)
    as (pq' & fired & rest & Hrun & Hq & Hq' & _).
  - unfold queue0. apply Add_inRange; [constructor|].
    unfold maxFrequencySeconds. cbn. lia.
  - exists pq', fired, rest. split; [exact Hrun|]. split; [exact Hq|exact Hq'].
Defined.

(** C9 as stated fails on scenario 6: the run started at 60 s lasts 90 s,
    and the task, put back for 120 s when that run started, starts a second
    run of the same feed at 120 s, while the first is still going on. *)
Lemma C9_counterexample :
  (exists pq', loop 2 0 queue0 []
               = Some (pq', [(1, 60 * second); (1, 120 * second)]))
  /\ inFlight ninetySeconds [(1, 60 * second); (1, 120 * second)] 1 (120 * second)
     = [(1, 60 * second); (1, 120 * second)]
  /\ ~ one_in_flight_as_stated ninetySeconds 2 0 queue0.
Proof.
  split; [eexists; vm_compute; reflexivity|]. split; [reflexivity|].
  intros H.
  assert (Hrun : exists pq', loop 2 0 queue0 []
                             = Some (pq', [(1, 60 * second); (1, 120 * second)]))
    by (eexists; vm_compute; reflexivity).
  destruct Hrun as [pq' Hrun].
  specialize (H pq' _ 1 (120 * second) Hrun). vm_compute in H. lia.
Qed.

End SchedulerHeap.

(* ===================================================================== *)
(** * More on the selection of new items *)
(* ===================================================================== *)

Section RssSelectGeneral.
Import Rss RssSpec.

(** X1. [GetNewItems] with a seen predicate that never fails returns
    exactly the items of the feed that have a GUID or a link and whose
    fingerprint is not seen, each as often as the feed lists it, ordered so
    that no item is strictly newer than a later one. *)
Theorem X1_GetNewItems_selects_unseen (fd : Feed) (seen : string -> bool) :
  let unseen := fun it => hasIdentifier it && negb (seen (sha256hex (identifierOf it))) in
  exists out hw,
    GetNewItems (Some fd) (fun h => Ok (seen h)) = Ok (out, hw)
    /\ Permutation out (List.filter unseen (Items fd))
    /\ StronglySorted oldestFirst out
    /\ (forall it, In it out <->
          In it (Items fd) /\ hasIdentifier it = true
          /\ seen (sha256hex (identifierOf it)) = false).
Proof.
  intros unseen.
  assert (Hmain : exists out hw,
    GetNewItems (Some fd) (fun h => Ok (seen h)) = Ok (out, hw)
    /\ Permutation out (List.filter unseen (Items fd))
    /\ StronglySorted oldestFirst out).
  { unfold GetNewItems. destruct (Items fd) as [|i0 r] eqn:Hitems.
    - exists [], "". repeat split; constructor.
    - rewrite <- Hitems. rewrite collectNew_total. cbn [app].
      eexists _, _. split; [reflexivity|]. split.
      + rewrite <- Permutation_rev. apply filter_Permutation_bool, sliceStable_Permutation.
      + apply StronglySorted_rev_flip. apply StronglySorted_filter_bool.
        apply sliceStable_sorted. }
  destruct Hmain as (out & hw & Heq & Hperm & Hsort).
  exists out, hw. split; [exact Heq|]. split; [exact Hperm|]. split; [exact Hsort|].
  intros it. split.
  - intros Hin. eapply Permutation_in in Hin; [|exact Hperm].
    apply filter_In in Hin as [Hin Hu]. unfold unseen in Hu.
    apply andb_true_iff in Hu as [Hid Hs]. apply negb_true_iff in Hs. auto.
  - intros (Hin & Hid & Hs). eapply Permutation_in; [symmetry; exact Hperm|].
    apply filter_In. split; [exact Hin|]. unfold unseen. now rewrite Hid, Hs.
Qed.

(** The loop fails exactly when the predicate fails on an item that has an
    identifier, and then with that error wrapped. *)
Lemma collectNew_Err (f : string -> result bool) (items acc : list Item) (e : error) :
  collectNew f items acc = Err e ->
  exists it e', In it items /\ hasIdentifier it = true
    /\ f (sha256hex (identifierOf it)) = Err e'
    /\ e = ErrWrap "checking if item processed" e'.
Proof.
  revert acc. induction items as [|it r IH]; intros acc H; cbn [collectNew] in H; [discriminate|].
  destruct (isEmpty (identifierOf it)) eqn:Hid.
  - destruct (IH _ H) as (x & e' & Hin & Hx). exists x, e'. split; [now right|exact Hx].
  - destruct (f (sha256hex (identifierOf it))) as [processed|e0] eqn:Hf.
    + destruct (negb processed);
        destruct (IH _ H) as (x & e' & Hin & Hx); exists x, e'; (split; [now right|exact Hx]).
    + inversion H; subst e. exists it, e0. split; [now left|].
      unfold hasIdentifier. rewrite Hid. auto.
Qed.

Lemma collectNew_fails (f : string -> result bool) (items acc : list Item) (it : Item)
    (e' : error) :
  In it items -> hasIdentifier it = true -> f (sha256hex (identifierOf it)) = Err e' ->
  exists e, collectNew f items acc = Err e.
Proof.
  intros Hin Hid Hf. revert acc. induction items as [|x r IH]; intros acc; [destruct Hin|].
  cbn [collectNew]. destruct Hin as [->|Hin].
  - unfold hasIdentifier in Hid. apply negb_true_iff in Hid. rewrite Hid, Hf. eauto.
  - destruct (isEmpty (identifierOf x)); [now apply IH|].
    destruct (f (sha256hex (identifierOf x))) as [processed|e0]; [|eauto].
    destruct (negb processed); now apply IH.
Qed.

(** X2. [GetNewItems] fails exactly when the seen predicate fails on the
    fingerprint of some item of the feed that has an identifier; the error
    is that failure wrapped, and no item is returned, not even those already
    found new. *)
Theorem X2_GetNewItems_error (fd : Feed) (isItemProcessedFunc : string -> result bool) :
  ((exists e, GetNewItems (Some fd) isItemProcessedFunc = Err e) <->
   (exists it e', In it (Items fd) /\ hasIdentifier it = true
      /\ isItemProcessedFunc (sha256hex (identifierOf it)) = Err e'))
  /\ (forall e, GetNewItems (Some fd) isItemProcessedFunc = Err e ->
        exists it e', In it (Items fd) /\ hasIdentifier it = true
          /\ isItemProcessedFunc (sha256hex (identifierOf it)) = Err e'
          /\ e = ErrWrap "checking if item processed" e').
Proof.
  assert (Hfwd : forall e, GetNewItems (Some fd) isItemProcessedFunc = Err e ->
        exists it e', In it (Items fd) /\ hasIdentifier it = true
          /\ isItemProcessedFunc (sha256hex (identifierOf it)) = Err e'
          /\ e = ErrWrap "checking if item processed" e').
  { intros e. unfold GetNewItems. destruct (Items fd) as [|i0 r] eqn:Hitems; [discriminate|].
    rewrite <- Hitems.
    destruct (collectNew isItemProcessedFunc (sliceStable (Items fd)) []) as [out|e0] eqn:Hc;
      [discriminate|].
    intros H; inversion H; subst e0.
    destruct (collectNew_Err _ _ _ _ Hc) as (it & e' & Hin & Hid & Hf & He).
    exists it, e'. split; [|auto].
    eapply Permutation_in; [apply sliceStable_Permutation|exact Hin]. }
  split; [|exact Hfwd]. split.
  - intros [e He]. destruct (Hfwd e He) as (it & e' & Hin & Hid & Hf & _). eauto.
  - intros (it & e' & Hin & Hid & Hf). unfold GetNewItems.
    destruct (Items fd) as [|i0 r] eqn:Hitems; [destruct Hin|]. rewrite <- Hitems in *.
    destruct (collectNew_fails isItemProcessedFunc (sliceStable (Items fd)) [] it e')
      as [e He]; auto.
    + eapply Permutation_in; [symmetry; apply sliceStable_Permutation|exact Hin].
    + rewrite He. eauto.
Qed.

End RssSelectGeneral.

(* ===================================================================== *)
(** * How a fetch fails *)
(* ===================================================================== *)

Section RssFetchFailures.
Import Rss RssSpec RssFailures.

Variable env : FetchEnv.
Variables (url : string) (etag lastModified : option string).

(** An iteration whose attempt starts and gets an answer to retry after. *)
Lemma step_retried (a : nat) (d : Z) :
  starts env a -> retryable (doRequest env a (requestOf url etag lastModified)) = true ->
  step env url etag lastModified a d
  = Next (sleepOf a d ++ [EvAttempt a (requestOf url etag lastModified)]) (delayAfter a d)
         (attemptError a (doRequest env a (requestOf url etag lastModified))).
Proof.
  intros (Hctx & Hcl & Hreq) Hretry. unfold step. rewrite Hcl, Hreq, Hretry.
  destruct (0 <? a)%nat eqn:Ha; cbn [andb]; [|reflexivity].
  destruct Hctx as [->|Hctx]; [discriminate|]. rewrite Hctx.
  rewrite bool_decide_eq_false_2; [reflexivity|]. intros [x Hx]. discriminate.
Qed.

(** An iteration whose backoff the context ends. *)
Lemma step_cancelled (a : nat) (d : Z) (ce : CtxErr) :
  (1 <= a)%nat -> ctxDoneInBackoff env a = Some ce ->
  step env url etag lastModified a d
  = Stop [] (Err (ErrWrap "fetch context cancelled during retry backoff" (ErrCtx ce))).
Proof.
  intros Ha Hctx. unfold step. rewrite Hctx.
  destruct (Nat.ltb_spec 0 a); [|lia]. cbn [andb].
  rewrite bool_decide_eq_true_2 by eauto. reflexivity.
Qed.

(** X20. When each of the four attempts starts and gets an answer the
    fetch retries after, [Fetch] gives up: it has sent the request four
    times, slept 2 s, 4 s and 8 s in between, and returns an error that wraps
    the error of the last attempt only. *)
Theorem X20_Fetch_gives_up_after_four_attempts :
  let req := requestOf url etag lastModified in
  retriedBefore env req 4 ->
  Fetch env url etag lastModified
  = ([EvAttempt 0 req; EvSleep (2 * second); EvAttempt 1 req; EvSleep (4 * second);
      EvAttempt 2 req; EvSleep (8 * second); EvAttempt 3 req],
     Err (ErrWrap "all fetch attempts failed" (attemptError 3 (doRequest env 3 req)))).
Proof.
  intros req Hall. unfold Fetch, maxFetchRetries.
  destruct (Hall 0%nat ltac:(lia)) as [S0 R0]. destruct (Hall 1%nat ltac:(lia)) as [S1 R1].
  destruct (Hall 2%nat ltac:(lia)) as [S2 R2]. destruct (Hall 3%nat ltac:(lia)) as [S3 R3].
  rewrite fetchLoop_step, (step_retried 0 _ S0 R0).
  rewrite fetchLoop_step, (step_retried 1 _ S1 R1).
  rewrite fetchLoop_step, (step_retried 2 _ S2 R2).
  rewrite fetchLoop_step, (step_retried 3 _ S3 R3).
  reflexivity.
Qed.

(** X21. When the context of the fetch is done during the backoff before
    attempt [k], the attempts before having been retried, [Fetch] returns at
    once: [k] requests were sent, the interrupted sleep is not slept, and the
    error wraps the error of the context, so that [errors.Is] finds it. *)
Theorem X21_Fetch_cancelled_during_backoff (k : nat) (ce : CtxErr) :
  let req := requestOf url etag lastModified in
  (1 <= k <= 3)%nat -> retriedBefore env req k -> ctxDoneInBackoff env k = Some ce ->
  exists e,
    (Fetch env url etag lastModified).2 = Err e
    /\ e = ErrWrap "fetch context cancelled during retry backoff" (ErrCtx ce)
    /\ errorsIs e ce = true
    /\ attemptsOf (Fetch env url etag lastModified).1 = seq 0 k
    /\ sleepsOf (Fetch env url etag lastModified).1
       = firstn (k - 1) [2 * second; 4 * second; 8 * second].
Proof.
  intros req Hk Hall Hctx. unfold Fetch, maxFetchRetries.
  eexists. split; [|split; [reflexivity|split; [destruct ce; reflexivity|]]].
  - destruct k as [|[|[|[|k]]]]; try lia.
    + destruct (Hall 0%nat ltac:(lia)) as [S0 R0].
      rewrite fetchLoop_step, (step_retried 0 _ S0 R0).
      rewrite fetchLoop_step, (step_cancelled 1 _ ce) by (lia || exact Hctx). reflexivity.
    + destruct (Hall 0%nat ltac:(lia)) as [S0 R0]. destruct (Hall 1%nat ltac:(lia)) as [S1 R1].
      rewrite fetchLoop_step, (step_retried 0 _ S0 R0).
      rewrite fetchLoop_step, (step_retried 1 _ S1 R1).
      rewrite fetchLoop_step, (step_cancelled 2 _ ce) by (lia || exact Hctx). reflexivity.
    + destruct (Hall 0%nat ltac:(lia)) as [S0 R0]. destruct (Hall 1%nat ltac:(lia)) as [S1 R1].
      destruct (Hall 2%nat ltac:(lia)) as [S2 R2].
      rewrite fetchLoop_step, (step_retried 0 _ S0 R0).
      rewrite fetchLoop_step, (step_retried 1 _ S1 R1).
      rewrite fetchLoop_step, (step_retried 2 _ S2 R2).
      rewrite fetchLoop_step, (step_cancelled 3 _ ce) by (lia || exact Hctx). reflexivity.
  - destruct k as [|[|[|[|k]]]]; try lia.
    + destruct (Hall 0%nat ltac:(lia)) as [S0 R0].
      rewrite fetchLoop_step, (step_retried 0 _ S0 R0).
      rewrite fetchLoop_step, (step_cancelled 1 _ ce) by (lia || exact Hctx).
      split; reflexivity.
    + destruct (Hall 0%nat ltac:(lia)) as [S0 R0]. destruct (Hall 1%nat ltac:(lia)) as [S1 R1].
      rewrite fetchLoop_step, (step_retried 0 _ S0 R0).
      rewrite fetchLoop_step, (step_retried 1 _ S1 R1).
      rewrite fetchLoop_step, (step_cancelled 2 _ ce) by (lia || exact Hctx).
      split; reflexivity.
    + destruct (Hall 0%nat ltac:(lia)) as [S0 R0]. destruct (Hall 1%nat ltac:(lia)) as [S1 R1].
      destruct (Hall 2%nat ltac:(lia)) as [S2 R2].
      rewrite fetchLoop_step, (step_retried 0 _ S0 R0).
      rewrite fetchLoop_step, (step_retried 1 _ S1 R1).
      rewrite fetchLoop_step, (step_retried 2 _ S2 R2).
      rewrite fetchLoop_step, (step_cancelled 3 _ ce) by (lia || exact Hctx).
      split; reflexivity.
Qed.

End RssFetchFailures.

Section RssFetchFailuresScenarios.
Import Rss RssSpec RssFailures.

Lemma serverUnavailable_retried (url : string) (etag lastModified : option string) (k : nat) :
  retriedBefore serverUnavailable (requestOf url etag lastModified) k.
Proof. intros j _. split; [|reflexivity]. split; [right; reflexivity|split; reflexivity]. Qed.

(** A server that answers 503 to every request. *)
Lemma X20_Fetch_gives_up_after_four_attempts_witness :
  (Fetch serverUnavailable "https://example.org/feed" None None).2
  = Err (ErrWrap "all fetch attempts failed" (ErrStatus 3 503))
  /\ sleepsOf (Fetch serverUnavailable "https://example.org/feed" None None).1
     = [2 * second; 4 * second; 8 * second].
Proof.
  rewrite (X20_Fetch_gives_up_after_four_attempts serverUnavailable
             "https://example.org/feed" None None (serverUnavailable_retried _ _ _ 4)).
  split; reflexivity.
Defined.

(** The same server, the context cancelled during the second backoff. *)
Lemma X21_Fetch_cancelled_during_backoff_witness :
  exists e,
    (Fetch cancelledInSecondBackoff "https://example.org/feed" None None).2 = Err e
    /\ errorsIs e Canceled = true
    /\ attemptsOf (Fetch cancelledInSecondBackoff "https://example.org/feed" None None).1
       = [0; 1]%nat.
Proof.
  destruct (X21_Fetch_cancelled_during_backoff cancelledInSecondBackoff
              "https://example.org/feed" None None 2 Canceled)
    as (e & Hres & _ & His & Hatt & _).
  - lia.
  - intros j Hj. split; [|reflexivity]. split; [|split; reflexivity].
    destruct j as [|[|j]]; [left; reflexivity|right; reflexivity|lia].
  - reflexivity.
  - exists e. split; [exact Hres|]. split; [exact His|exact Hatt].
Defined.

End RssFetchFailuresScenarios.

(* ===================================================================== *)
(** * The processed-items table, and [Truncate] *)
(* ===================================================================== *)

Section StoreFacts.
Import Database Store.

(** X22. Once [AddProcessedItem] has gone through, [IsItemProcessed]
    answers true for the item, and as before for every other item; the
    [feeds] table is not touched.  An item that was recorded already keeps
    its row, with its timestamp, and a new one is stamped with the instant of
    the call.  When the insert fails, the database is left as it was. *)
Theorem X22_AddProcessedItem_then_IsItemProcessed (now : Z) (d : DB) (feedID : Z)
    (itemGUIDHash : string) :
  let r := AddProcessedItem None now d feedID itemGUIDHash in
  r.2 = None
  /\ IsItemProcessed None r.1 feedID itemGUIDHash = Ok true
  /\ (forall f h, (f, h) <> (feedID, itemGUIDHash) ->
        IsItemProcessed None r.1 f h = IsItemProcessed None d f h)
  /\ feeds r.1 = feeds d
  /\ (forall t, processed_items d !! (feedID, itemGUIDHash) = Some t -> r.1 = d)
  /\ (processed_items d !! (feedID, itemGUIDHash) = None ->
        processed_items r.1 !! (feedID, itemGUIDHash) = Some now)
  /\ (forall e, AddProcessedItem (Some e) now d feedID itemGUIDHash
                = (d, Some (ErrWrap "AddProcessedItem exec" e))).
Proof.
  cbn zeta. unfold AddProcessedItem, IsItemProcessed.
  destruct (processed_items d !! (feedID, itemGUIDHash)) as [t|] eqn:Hk; cbn [fst snd feeds processed_items].
  - split; [reflexivity|]. split.
    { rewrite Hk. rewrite bool_decide_eq_true_2; [reflexivity|eauto]. }
    repeat split; try reflexivity. discriminate.
  - split; [reflexivity|]. split.
    { rewrite lookup_insert_eq. rewrite bool_decide_eq_true_2; [reflexivity|eauto]. }
    split.
    { intros f h Hne. rewrite lookup_insert_ne by congruence. reflexivity. }
    split; [reflexivity|]. split; [discriminate|]. split; [|reflexivity].
    intros _. apply lookup_insert_eq.
Qed.

End StoreFacts.

Section TruncateFacts.
Import App.

Lemma length_substring_prefix (n : nat) (s : string) :
  (n <= String.length s)%nat -> String.length (substring 0 n s) = n.
Proof.
  revert s. induction n as [|n IH]; intros s Hn.
  - destruct s; reflexivity.
  - destruct s as [|c s]; cbn in Hn; [lia|]. cbn. rewrite IH by lia. reflexivity.
Qed.

Lemma length_append (a b : string) :
  String.length (a +:+ b) = (String.length a + String.length b)%nat.
Proof. induction a as [|c a IH]; simpl; [reflexivity|now rewrite IH]. Qed.

(** X23. With a bound of at least 3, [Truncate] returns a string of at
    most [maxLength] bytes: the string itself when it fits, and otherwise its
    first [maxLength - 3] bytes followed by three dots, [maxLength] bytes in
    all. *)
Theorem X23_Truncate_bound (s : string) (maxLength : Z) :
  3 <= maxLength ->
  exists r, Truncate s maxLength = Some r
    /\ Z.of_nat (String.length r) <= maxLength
    /\ (Z.of_nat (String.length s) <= maxLength -> r = s)
    /\ (maxLength < Z.of_nat (String.length s) ->
          r = substring 0 (Z.to_nat (maxLength - 3)) s +:+ "..."
          /\ Z.of_nat (String.length r) = maxLength).
Proof.
  intros Hmax. unfold Truncate.
  destruct (Z.leb_spec (Z.of_nat (String.length s)) maxLength) as [Hle|Hgt].
  - exists s. repeat split; auto; lia.
  - destruct (Z.ltb_spec (maxLength - 3) 0) as [?|_]; [lia|].
    eexists. split; [reflexivity|].
    assert (Hlen : Z.of_nat (String.length (substring 0 (Z.to_nat (maxLength - 3)) s +:+ "..."))
                   = maxLength).
    { rewrite length_append, length_substring_prefix by lia. cbn [String.length]. lia. }
    split; [lia|]. split; [lia|]. intros _. split; [reflexivity|exact Hlen].
Qed.

(** A headline of 55 bytes cut to 50. *)
Lemma X23_Truncate_bound_witness :
  exists r, Truncate "A very long headline of a feed item that goes on and on" 50 = Some r
    /\ Z.of_nat (String.length r) <= 50.
Proof.
  destruct (X23_Truncate_bound "A very long headline of a feed item that goes on and on" 50)
    as (r & Hr & Hlen & _); [lia|].
  exists r. split; [exact Hr|exact Hlen].
Defined.

(** X24. [Truncate] panics exactly when the bound is below 3 and the
    string is longer than the bound: the slice [s[:maxLength-3]] then has a
    negative end. *)
Theorem X24_Truncate_panics (s : string) (maxLength : Z) :
  Truncate s maxLength = None <->
  maxLength < 3 /\ maxLength < Z.of_nat (String.length s).
Proof.
  unfold Truncate.
  destruct (Z.leb_spec (Z.of_nat (String.length s)) maxLength) as [Hle|Hgt].
  - split; [discriminate|lia].
  - destruct (Z.ltb_spec (maxLength - 3) 0) as [Hneg|Hok].
    + split; [lia|reflexivity].
    + split; [discriminate|lia].
Qed.

End TruncateFacts.

(* ===================================================================== *)
(** * What a run changes *)
(* ===================================================================== *)

Section WorkerInvariants.
Import Database Worker WorkerSpec WorkerInv.

Variable w : FeedWorker.

Lemma sameConfig_refl (f : Feed) : sameConfig f f.
Proof. repeat split. Qed.

Lemma sameConfig_trans (a b c : Feed) : sameConfig a b -> sameConfig b c -> sameConfig a c.
Proof. unfold sameConfig. intuition congruence. Qed.

Lemma onlyTouches_refl (id : Z) (d : Store.DB) : onlyTouches id d d.
Proof.
  unfold onlyTouches. split; [auto|]. split; [|auto].
  destruct (Store.feeds d !! id) as [f|]; [|reflexivity].
  exists f. split; [reflexivity|apply sameConfig_refl].
Qed.

Lemma onlyTouches_trans (id : Z) (a b c : Store.DB) :
  onlyTouches id a b -> onlyTouches id b c -> onlyTouches id a c.
Proof.
  intros (H1 & H2 & H3 & H4) (K1 & K2 & K3 & K4). unfold onlyTouches.
  split; [intros i Hi; rewrite K1, H1; auto|]. split; [|split].
  - destruct (Store.feeds a !! id) as [f|].
    + destruct H2 as (f' & Hf' & Hs). rewrite Hf' in K2. destruct K2 as (f'' & Hf'' & Hs').
      exists f''. split; [exact Hf''|]. eapply sameConfig_trans; eauto.
    + now rewrite H2 in K2.
  - auto.
  - intros f h Hc. destruct (K4 f h Hc) as [Hb | ->]; [|now right]. now apply H4.
Qed.

(** [UpdateFeedLastProcessed] changes the four tracking columns of one
    row, whether it fails or not. *)
Lemma update_onlyTouches (fail : option error) (t : Z) (d : Store.DB) (id : Z)
    (h e l : option string) :
  keyedById d ->
  onlyTouches id d (Store.UpdateFeedLastProcessed fail t d id h e l).1
  /\ keyedById (Store.UpdateFeedLastProcessed fail t d id h e l).1
  /\ Store.processed_items (Store.UpdateFeedLastProcessed fail t d id h e l).1
     = Store.processed_items d.
Proof.
  intros Hk. unfold Store.UpdateFeedLastProcessed.
  destruct fail; [cbn [fst]; split; [apply onlyTouches_refl|auto]|].
  destruct (Store.feeds d !! id) as [f|] eqn:Hf; [|cbn [fst]; split; [apply onlyTouches_refl|auto]].
  cbn [fst]. split; [|split; [|reflexivity]].
  - unfold onlyTouches. cbn [Store.feeds Store.processed_items]. rewrite Hf.
    split; [intros i Hi; now rewrite lookup_insert_ne|]. split; [|auto].
    eexists. rewrite lookup_insert_eq. split; [reflexivity|]. repeat split.
  - intros k f0. cbn [Store.feeds].
    destruct (decide (k = id)) as [->|Hne].
    + rewrite lookup_insert_eq. intros H; inversion H; subst f0. cbn. now apply Hk.
    + rewrite lookup_insert_ne by congruence. apply Hk.
Qed.

Lemma add_onlyTouches (fail : option error) (t : Z) (d : Store.DB) (id : Z) (h : string) :
  onlyTouches id d (Store.AddProcessedItem fail t d id h).1
  /\ Store.feeds (Store.AddProcessedItem fail t d id h).1 = Store.feeds d
  /\ (fail = None -> is_Some (Store.processed_items (Store.AddProcessedItem fail t d id h).1
                                !! (id, h))).
Proof.
  unfold Store.AddProcessedItem.
  destruct fail; [cbn [fst]; split; [apply onlyTouches_refl|split; [auto|discriminate]]|].
  destruct (Store.processed_items d !! (id, h)) as [t0|] eqn:Hk; cbn [fst].
  - split; [apply onlyTouches_refl|]. split; [reflexivity|]. intros _. rewrite Hk. eauto.
  - split; [|split; [reflexivity|]].
    + unfold onlyTouches. cbn [Store.feeds Store.processed_items].
      split; [auto|]. split; [|split].
      * destruct (Store.feeds d !! id) as [f|]; [|reflexivity].
        exists f. split; [reflexivity|apply sameConfig_refl].
      * intros k t1 Hk1. rewrite lookup_insert_ne; [exact Hk1|]. congruence.
      * intros f h0 Hs. destruct (decide ((f, h0) = (id, h))) as [Heq|Hne].
        -- right. congruence.
        -- left. now rewrite lookup_insert_ne in Hs by congruence.
    + intros _. cbn [Store.processed_items]. rewrite lookup_insert_eq. eauto.
Qed.

(** The item loop writes [processed_items] rows under the feed's id only. *)
Lemma processItems_onlyTouches (ctx : Context.Ctx) (cur : Feed) (botToken : string)
    (proxy : option Proxy) (items : list Rss.Item) (last : string) (wd : World) :
  onlyTouches (ID cur) (db wd) (db (processItems w ctx cur botToken proxy items last wd).1).
Proof.
  revert last wd. induction items as [|item rest IH]; intros last wd; [apply onlyTouches_refl|].
  cbn [processItems].
  destruct (FormatItem (formatter w) item cur (FormattingProfile_ cur)) as [parts|e]; [|apply IH].
  destruct (DryRun (appConfig w)).
  - match goal with |- context [Store.AddProcessedItem ?f ?t ?d ?i ?h] =>
      destruct (add_onlyTouches f t d i h) as (Ha & _);
      destruct (Store.AddProcessedItem f t d i h) as [d1 o] end.
    cbn [fst] in Ha. eapply onlyTouches_trans; [exact Ha|].
    match goal with |- context [processItems ?a ?b ?c ?d ?e ?f ?g ?h] =>
      apply (IH g h) end.
  - destruct (notifier w) as [env|]; [|apply onlyTouches_refl].
    destruct (Telegram.Send _ _ _ _ _ _ _) as [c [e|]]; [apply onlyTouches_refl|].
    match goal with |- context [Store.AddProcessedItem ?f ?t ?d ?i ?h] =>
      destruct (add_onlyTouches f t d i h) as (Ha & _);
      destruct (Store.AddProcessedItem f t d i h) as [d1 o] end.
    cbn [fst db] in Ha. eapply onlyTouches_trans; [exact Ha|].
    match goal with |- context [processItems ?a ?b ?c ?d ?e ?f ?g ?h] =>
      apply (IH g h) end.
Qed.

(** When the stores work and the formatter never fails, an item loop that
    ends without a send error has recorded every item it was given. *)
Lemma processItems_records (ctx : Context.Ctx) (cur : Feed) (botToken : string)
    (proxy : option Proxy) (items : list Rss.Item) (last : string) (wd : World) (h : string) :
  itemStoresWork (stores w) -> neverFails (formatter w) ->
  (processItems w ctx cur botToken proxy items last wd).2 = Ok h ->
  forall it, In it items ->
    recorded (processItems w ctx cur botToken proxy items last wd).1 (ID cur) it.
Proof.
  intros [_ Hadd] Hfmt. revert last wd.
  induction items as [|item rest IH]; intros last wd Hok it Hin; [destruct Hin|].
  revert Hok. cbn [processItems].
  destruct (Hfmt item cur (FormattingProfile_ cur)) as [parts ->].
  assert (Hstep : forall wd1 : World,
    (processItems w ctx cur botToken proxy rest (sha256hex (Rss.identifierOf item))
       (mkWorld (Store.AddProcessedItem
                   (failAddProcessedItem (stores w) (sha256hex (Rss.identifierOf item)))
                   (clock wd1) (db wd1) (ID cur) (sha256hex (Rss.identifierOf item))).1
                (client wd1))).2 = Ok h ->
    recorded (processItems w ctx cur botToken proxy rest (sha256hex (Rss.identifierOf item))
       (mkWorld (Store.AddProcessedItem
                   (failAddProcessedItem (stores w) (sha256hex (Rss.identifierOf item)))
                   (clock wd1) (db wd1) (ID cur) (sha256hex (Rss.identifierOf item))).1
                (client wd1))).1 (ID cur) it).
  { intros wd1 Hok. destruct Hin as [<- | Hin]; [|now apply IH].
    unfold recorded.
    match goal with |- context [Store.AddProcessedItem ?f ?t ?d ?i ?hh] =>
      destruct (add_onlyTouches f t d i hh) as (_ & _ & Hrec) end.
    specialize (Hrec (Hadd _)). destruct Hrec as [t0 Ht0].
    match goal with |- context [processItems ?a ?b ?c ?d ?e ?f ?g ?hh] =>
      destruct (processItems_onlyTouches b c d e f g hh) as (_ & _ & Hmono & _) end.
    cbn [db] in Hmono. rewrite (Hmono _ _ Ht0). eauto. }
  destruct (DryRun (appConfig w)).
  - destruct (Store.AddProcessedItem _ _ _ _ _) as [d1 o] eqn:Hd1.
    intros Hok. specialize (Hstep wd). rewrite Hd1 in Hstep. cbn [fst] in Hstep. now apply Hstep.
  - destruct (notifier w) as [env|]; [|discriminate].
    destruct (Telegram.Send _ _ _ _ _ _ _) as [c [e|]]; [discriminate|].
    destruct (Store.AddProcessedItem _ _ _ _ _) as [d1 o] eqn:Hd1.
    intros Hok. specialize (Hstep (mkWorld (db wd) c)). cbn [db client] in *.
    rewrite Hd1 in Hstep. cbn [fst] in Hstep. now apply Hstep.
Qed.

Lemma collectNew_ext (f g : string -> result bool) (items acc : list Rss.Item) :
  (forall h, f h = g h) -> Rss.collectNew f items acc = Rss.collectNew g items acc.
Proof.
  intros Hfg. revert acc. induction items as [|it r IH]; intros acc; [reflexivity|].
  cbn [Rss.collectNew]. rewrite Hfg.
  destruct (isEmpty (Rss.identifierOf it)); [apply IH|].
  destruct (g (sha256hex (Rss.identifierOf it))) as [p|e]; [|reflexivity].
  destruct (negb p); apply IH.
Qed.

Lemma GetNewItems_ext (fd : option Rss.Feed) (f g : string -> result bool) :
  (forall h, f h = g h) -> Rss.GetNewItems fd f = Rss.GetNewItems fd g.
Proof.
  intros Hfg. unfold Rss.GetNewItems. destruct fd as [fd|]; [|reflexivity].
  destruct (Rss.Items fd); [reflexivity|]. now rewrite (collectNew_ext f g).
Qed.

(** The items [GetNewItems] returns for a seen predicate that never fails. *)
Lemma GetNewItems_In (fd : Rss.Feed) (seen : string -> bool) (out : list Rss.Item)
    (hw : string) :
  Rss.GetNewItems (Some fd) (fun h => Ok (seen h)) = Ok (out, hw) ->
  forall it, In it out <->
    In it (Rss.Items fd) /\ RssSpec.hasIdentifier it = true
    /\ seen (sha256hex (Rss.identifierOf it)) = false.
Proof.
  unfold Rss.GetNewItems. destruct (Rss.Items fd) as [|i0 r] eqn:Hitems.
  - intros H; inversion H; subst. intros it. split; [intros []|intros [[] _]].
  - rewrite <- Hitems. rewrite collectNew_total. cbn [app]. intros H; inversion H; subst out.
    intros it. rewrite <- in_rev, filter_In, andb_true_iff, negb_true_iff.
    split; intros (Hin & Hrest); (split; [|exact Hrest]).
    + eapply Permutation_in; [apply sliceStable_Permutation|exact Hin].
    + eapply Permutation_in; [symmetry; apply sliceStable_Permutation|exact Hin].
Qed.

(** The seen predicate of a run whose store answers. *)
Lemma isItemProcessed_total (d : Store.DB) (id : Z) :
  (forall h, failIsItemProcessed (stores w) h = None) ->
  forall h, Store.IsItemProcessed (failIsItemProcessed (stores w) h) d id h
            = Ok (bool_decide (is_Some (Store.processed_items d !! (id, h)))).
Proof. intros Hf h. unfold Store.IsItemProcessed. now rewrite Hf. Qed.

(** X3. A run that ends before the dedup filter has found a new item to
    send changes nothing: when the row cannot be read, is missing or is
    disabled, the world is left exactly as it was, the clock included; when
    the fetch, the filter, the bot id or the token lookup fails, the database
    is untouched and nothing is asked of the Telegram client. *)
Theorem X3_ProcessFeed_failed_runs (feed : Feed) (wd : World) :
  let r := ProcessFeed w feed wd in
  (r.2 = DbError \/ r.2 = Skipped -> r.1 = wd)
  /\ (r.2 = FetchError \/ r.2 = FilterError \/ r.2 = TokenError \/ r.2 = ConfigError ->
       db r.1 = db wd /\ noDispatch wd r.1)
  /\ (failGetFeedByID (stores w) = None ->
       (row wd (ID feed) = None \/ exists cur, row wd (ID feed) = Some cur /\ IsEnabled cur = false) ->
       r = (wd, Skipped)).
Proof.
  cbn zeta. split; [|split].
  - unfold ProcessFeed, Store.GetFeedByID.
    repeat match goal with |- context [match ?x with _ => _ end] => destruct x end;
      cbn [fst snd]; first [intros _; reflexivity | intros [?|?]; discriminate].
  - unfold ProcessFeed, Store.GetFeedByID.
    repeat match goal with |- context [match ?x with _ => _ end] => destruct x end;
      cbn [fst snd];
      first [ intros [?|[?|[?|?]]]; discriminate
            | intros _; split; [reflexivity|apply sleep_noDispatch] ].
  - intros Hget Hcase. unfold ProcessFeed, Store.GetFeedByID, row in *. rewrite Hget.
    destruct Hcase as [->|(cur & -> & ->)]; reflexivity.
Qed.

(** X4. Whatever happens in a run for a feed, the rows of the other feeds
    stay as they are; the row of the feed is neither created nor deleted and
    keeps its configuration columns; no [processed_items] row is deleted or
    re-stamped, and the rows added are under the id of the feed.  The
    [feeds] table stays keyed by its [id] column. *)
Theorem X4_ProcessFeed_only_touches_its_feed (feed : Feed) (wd : World) :
  keyedById (db wd) ->
  onlyTouches (ID feed) (db wd) (db (ProcessFeed w feed wd).1)
  /\ keyedById (db (ProcessFeed w feed wd).1).
Proof.
  intros Hk. unfold ProcessFeed, Store.GetFeedByID.
  destruct (failGetFeedByID (stores w)) as [e|]; [split; [apply onlyTouches_refl|exact Hk]|].
  destruct (Store.feeds (db wd) !! ID feed) as [cur|] eqn:Hrow;
    [|split; [apply onlyTouches_refl|exact Hk]].
  pose proof (Hk _ _ Hrow) as Hid.
  destruct (negb (IsEnabled cur)); [split; [apply onlyTouches_refl|exact Hk]|].
  destruct (Fetch (fetcher w) _ _ _ _) as [tr [res|e]];
    [|split; [apply onlyTouches_refl|exact Hk]].
  destruct (Rss.ResFeed res) as [feedData|].
  2:{ match goal with |- context [Store.UpdateFeedLastProcessed ?f ?t ?d ?i ?h ?e ?l] =>
        destruct (update_onlyTouches f t d i h e l) as (Hu & Hk' & _); [exact Hk|];
        destruct (Store.UpdateFeedLastProcessed f t d i h e l) as [d1 o] end.
      cbn [fst db] in *. rewrite Hid in Hu. auto. }
  destruct (Rss.GetNewItems _ _) as [[newItems hw]|e];
    [|split; [apply onlyTouches_refl|exact Hk]].
  destruct newItems as [|i0 r0].
  { match goal with |- context [Store.UpdateFeedLastProcessed ?f ?t ?d ?i ?h ?e ?l] =>
      destruct (update_onlyTouches f t d i h e l) as (Hu & Hk' & _); [exact Hk|];
      destruct (Store.UpdateFeedLastProcessed f t d i h e l) as [d1 o] end.
    cbn [fst db] in *. rewrite Hid in Hu. auto. }
  destruct (TelegramBotID cur); [|split; [apply onlyTouches_refl|exact Hk]].
  destruct (GetTokenByBotID _ _) as [tok|e]; [|split; [apply onlyTouches_refl|exact Hk]].
  match goal with |- context [processItems ?a ?b ?c ?d ?e ?f ?g ?h] =>
    pose proof (processItems_onlyTouches b c d e f g h) as Hp;
    pose proof (processItems_feeds a b c d e f g h) as Hf;
    destruct (processItems a b c d e f g h) as [wd2 [hsh|e2]] end;
    cbn [fst db] in Hp, Hf; rewrite Hid in Hp.
  - assert (Hk2 : keyedById (db wd2)) by (intros k f; rewrite Hf; apply Hk).
    match goal with |- context [Store.UpdateFeedLastProcessed ?f ?t ?d ?i ?h ?e ?l] =>
      destruct (update_onlyTouches f t d i h e l) as (Hu & Hk' & _); [exact Hk2|];
      destruct (Store.UpdateFeedLastProcessed f t d i h e l) as [d1 o] end.
    cbn [fst db] in *. rewrite Hid in Hu. split; [|exact Hk'].
    eapply onlyTouches_trans; eauto.
  - cbn [fst]. split; [exact Hp|]. intros k f; rewrite Hf; apply Hk.
Qed.

(** X5. When the stores of the item loop work and the formatter never
    fails, a run that completes, with or without new items, leaves every item
    of the fetched feed that has a GUID or a link recorded in
    [processed_items] under the feed. *)
Theorem X5_completed_run_records_every_item (feed cur : Feed) (wd : World)
    (res : Rss.FetchResult) (fd : Rss.Feed) :
  keyedById (db wd) -> itemStoresWork (stores w) -> neverFails (formatter w) ->
  row wd (ID feed) = Some cur ->
  (fetchOf w cur).2 = Ok res -> Rss.ResFeed res = Some fd ->
  (ProcessFeed w feed wd).2 = Success \/ (ProcessFeed w feed wd).2 = NoNewItems ->
  forall it, In it (Rss.Items fd) -> RssSpec.hasIdentifier it = true ->
    recorded (ProcessFeed w feed wd).1 (ID feed) it.
Proof.
  intros Hk Hst Hfmt Hrow Hfetch Hfd. pose proof (Hk _ _ Hrow) as Hid.
  unfold ProcessFeed, Store.GetFeedByID. unfold row in Hrow.
  destruct (failGetFeedByID (stores w)) as [e|]; [intros [?|?]; discriminate|].
  rewrite Hrow.
  destruct (negb (IsEnabled cur)); [intros [?|?]; discriminate|].
  unfold fetchOf in Hfetch.
  destruct (Fetch (fetcher w) _ _ _ _) as [tr fetched]. cbn [snd] in Hfetch. subst fetched.
  rewrite Hfd.
  rewrite (GetNewItems_ext _ _ _ (isItemProcessed_total (db (sleep (sleptIn tr) wd)) (ID cur)
                                    (proj1 Hst))).
  destruct (Rss.GetNewItems _ _) as [[newItems hw]|e] eqn:Hnew; [|intros [?|?]; discriminate].
  pose proof (GetNewItems_In _ _ _ _ Hnew) as Hin.
  destruct newItems as [|i0 r0].
  - match goal with |- context [Store.UpdateFeedLastProcessed ?f ?t ?d ?i ?h ?e ?l] =>
      destruct (update_onlyTouches f t d i h e l) as (_ & _ & Hpi); [exact Hk|];
      destruct (Store.UpdateFeedLastProcessed f t d i h e l) as [d1 o] end.
    cbn [fst snd db] in *. intros _ it Hit Hident. unfold recorded. cbn [db]. rewrite Hpi.
    destruct (bool_decide (is_Some (Store.processed_items (db wd)
                !! (ID cur, sha256hex (Rss.identifierOf it))))) eqn:Hb.
    + apply bool_decide_eq_true_1 in Hb. now rewrite <- Hid.
    + exfalso. assert (Hx : In it []) by (apply Hin; auto). destruct Hx.
  - destruct (TelegramBotID cur); [|intros [?|?]; discriminate].
    destruct (GetTokenByBotID _ _) as [tok|e]; [|intros [?|?]; discriminate].
    match goal with |- context [processItems ?a ?b ?c ?d ?e ?f ?g ?h] =>
      pose proof (fun hh => processItems_records b c d e f g h hh Hst Hfmt) as Hrec;
      pose proof (processItems_onlyTouches b c d e f g h) as (_ & _ & Hmono & _);
      pose proof (processItems_feeds a b c d e f g h) as Hf;
      destruct (processItems a b c d e f g h) as [wd2 [hsh|e2]] end;
      [|intros [?|?]; discriminate].
    cbn [fst snd db] in Hrec, Hmono, Hf.
    assert (Hk2 : keyedById (db wd2)) by (intros k f; rewrite Hf; apply Hk).
    match goal with |- context [Store.UpdateFeedLastProcessed ?f ?t ?d ?i ?h ?e ?l] =>
      destruct (update_onlyTouches f t d i h e l) as (_ & _ & Hpi); [exact Hk2|];
      destruct (Store.UpdateFeedLastProcessed f t d i h e l) as [d1 o] end.
    cbn [fst snd db] in *. intros _ it Hit Hident. unfold recorded. cbn [db]. rewrite Hpi.
    rewrite <- Hid.
    destruct (bool_decide (is_Some (Store.processed_items (db wd)
                !! (ID cur, sha256hex (Rss.identifierOf it))))) eqn:Hb.
    + apply bool_decide_eq_true_1 in Hb. destruct Hb as [t0 Ht0].
      rewrite (Hmono _ _ Ht0). eauto.
    + apply (Hrec hsh eq_refl). apply Hin. auto.
Qed.

(** X6. When the store answers the dedup filter and every item of the
    fetched feed that has a GUID or a link is already recorded under the
    feed, the run ends with no new item: nothing is asked of the Telegram
    client and [processed_items] is left as it is.  So a completed run is
    not delivered again as long as the server lists no other item. *)
Theorem X6_recorded_items_are_not_sent_again (feed cur : Feed) (wd : World)
    (res : Rss.FetchResult) (fd : Rss.Feed) :
  failGetFeedByID (stores w) = None ->
  (forall h, failIsItemProcessed (stores w) h = None) ->
  row wd (ID feed) = Some cur -> ID cur = ID feed -> IsEnabled cur = true ->
  (fetchOf w cur).2 = Ok res -> Rss.ResFeed res = Some fd ->
  (forall it, In it (Rss.Items fd) -> RssSpec.hasIdentifier it = true ->
     recorded wd (ID feed) it) ->
  (ProcessFeed w feed wd).2 = NoNewItems
  /\ noDispatch wd (ProcessFeed w feed wd).1
  /\ Store.processed_items (db (ProcessFeed w feed wd).1) = Store.processed_items (db wd).
Proof.
  intros Hget Hst Hrow Hid Hen Hfetch Hfd Hall.
  unfold ProcessFeed, Store.GetFeedByID. unfold row in Hrow. rewrite Hget, Hrow, Hen. cbn [negb].
  unfold fetchOf in Hfetch.
  destruct (Fetch (fetcher w) _ _ _ _) as [tr fetched]. cbn [snd] in Hfetch. subst fetched.
  rewrite Hfd.
  rewrite (GetNewItems_ext _ _ _ (isItemProcessed_total (db (sleep (sleptIn tr) wd)) (ID cur) Hst)).
  destruct (Rss.GetNewItems _ _) as [[newItems hw]|e] eqn:Hnew.
  2:{ exfalso. revert Hnew. unfold Rss.GetNewItems. destruct (Rss.Items fd); [discriminate|].
      now rewrite collectNew_total. }
  pose proof (GetNewItems_In _ _ _ _ Hnew) as Hin.
  destruct newItems as [|i0 r0].
  - unfold Store.UpdateFeedLastProcessed.
    destruct (failUpdateFeedLastProcessed (stores w)); cbn [fst snd];
      [repeat split|].
    destruct (Store.feeds (db (sleep (sleptIn tr) wd)) !! ID cur); repeat split.
  - exfalso. destruct (proj1 (Hin i0) (or_introl eq_refl)) as (Hit & Hident & Hs).
    apply bool_decide_eq_false_1 in Hs. apply Hs. cbn [db sleep].
    rewrite Hid. apply (Hall i0 Hit Hident).
Qed.

End WorkerInvariants.

Section WorkerInvariantsScenarios.
Import Database Worker WorkerSpec WorkerInv Scenarios.

Lemma keyedById_worldOf (feed : Feed) : keyedById (db (worldOf feed)).
Proof.
  intros k f Hf. cbn [worldOf db Store.feeds] in Hf.
  apply lookup_singleton_Some in Hf as [<- <-]. reflexivity.
Qed.

Lemma neverFails_DefaultFormatter `{Formatter.Libs} :
  neverFails (mkFormatter Formatter.FormatItem).
Proof. intros item feed profile. cbn [FormatItem]. rewrite FormatItem_one_part. eauto. Qed.

(** Scenario 1 of the specification: the run writes to the row of the feed
    and under its id only. *)
Lemma X4_ProcessFeed_only_touches_its_feed_witness :
  let w := workerOf false (serverWith [item1; item2] None None) TelegramSpec.apiAccepting in
  onlyTouches 1 (db (worldOf feed1)) (db (ProcessFeed w feed1 (worldOf feed1)).1)
  /\ keyedById (db (ProcessFeed w feed1 (worldOf feed1)).1).
Proof.
  cbn zeta.
  exact (X4_ProcessFeed_only_touches_its_feed
           (workerOf false (serverWith [item1; item2] None None) TelegramSpec.apiAccepting)
           feed1 (worldOf feed1) (keyedById_worldOf feed1)).
Defined.

(** Scenario 1 of the specification: after the run both items are
    recorded. *)
Lemma X5_completed_run_records_every_item_witness :
  let w := workerOf false (serverWith [item1; item2] None None) TelegramSpec.apiAccepting in
  (ProcessFeed w feed1 (worldOf feed1)).2 = Success
  /\ recorded (ProcessFeed w feed1 (worldOf feed1)).1 1 item1
  /\ recorded (ProcessFeed w feed1 (worldOf feed1)).1 1 item2.
Proof.
  cbn zeta.
  assert (Hrun : (ProcessFeed (workerOf false (serverWith [item1; item2] None None)
                                 TelegramSpec.apiAccepting) feed1 (worldOf feed1)).2 = Success)
    by (vm_compute; reflexivity).
  pose proof (X5_completed_run_records_every_item
                (workerOf false (serverWith [item1; item2] None None) TelegramSpec.apiAccepting)
                feed1 feed1 (worldOf feed1)
                (Rss.mkFetchResult (Some (Rss.mkFeed [item1; item2])) (Some "") (Some ""))
                (Rss.mkFeed [item1; item2])
                (keyedById_worldOf feed1)
                (conj (fun _ => eq_refl) (fun _ => eq_refl))
                neverFails_DefaultFormatter
                eq_refl eq_refl eq_refl (or_introl Hrun)) as Hrec.
  split; [exact Hrun|]. split.
  - apply Hrec; [left; reflexivity|reflexivity].
  - apply Hrec; [right; left; reflexivity|reflexivity].
Defined.

(** The next run of a feed whose only listed item was delivered before. *)
Lemma X6_recorded_items_are_not_sent_again_witness :
  let w := workerOf false (serverWith [item1] None None) TelegramSpec.apiAccepting in
  recorded worldAfterItem1 1 item1
  /\ (ProcessFeed w feed1 worldAfterItem1).2 = NoNewItems
  /\ noDispatch worldAfterItem1 (ProcessFeed w feed1 worldAfterItem1).1.
Proof.
  cbn zeta.
  assert (Hrec : recorded worldAfterItem1 1 item1).
  { unfold recorded, worldAfterItem1. cbn [db Store.processed_items].
    exists 900. apply lookup_singleton_Some. split; reflexivity. }
  split; [exact Hrec|].
  destruct (X6_recorded_items_are_not_sent_again
              (workerOf false (serverWith [item1] None None) TelegramSpec.apiAccepting)
              feed1 feed1 worldAfterItem1
              (Rss.mkFetchResult (Some (Rss.mkFeed [item1])) (Some "") (Some ""))
              (Rss.mkFeed [item1])
              eq_refl (fun _ => eq_refl) eq_refl eq_refl eq_refl eq_refl eq_refl)
    as (Hrun & Hno & _).
  - intros it [<-|[]] _. exact Hrec.
  - split; assumption.
Defined.

End WorkerInvariantsScenarios.

(* ===================================================================== *)
(** * UTF-8, [SplitMessage] and [summarize] *)
(* ===================================================================== *)

Section Utf8Facts.
Import Utf8 Utf8Spec.
Local Open Scope N_scope.

Lemma validRune_spec (r : N) :
  validRune r = true <-> r < 0xD800 \/ (0xE000 <= r /\ r <= 0x10FFFF).
Proof.
  unfold validRune. rewrite orb_true_iff, andb_true_iff, N.ltb_lt, !N.leb_le. reflexivity.
Qed.

(** Decoding the encoding of a scalar value gives it back. *)
Lemma decode_encodeRune (r : N) (rest : list N) :
  validRune r = true -> decode (encodeRune r ++ rest) = r :: decode rest.
Proof.
  intros Hv. apply validRune_spec in Hv. unfold encodeRune.
  pose proof (N.div_mod r 64 ltac:(lia)) as E1. pose proof (N.mod_lt r 64 ltac:(lia)) as L1.
  pose proof (N.div_mod (r / 64) 64 ltac:(lia)) as E2.
  pose proof (N.mod_lt (r / 64) 64 ltac:(lia)) as L2.
  pose proof (N.div_mod (r / 64 / 64) 64 ltac:(lia)) as E3.
  pose proof (N.mod_lt (r / 64 / 64) 64 ltac:(lia)) as L3.
  replace (r / 4096) with (r / 64 / 64) by (rewrite N.Div0.div_div; reflexivity).
  replace (r / 262144) with (r / 64 / 64 / 64) by (rewrite !N.Div0.div_div; reflexivity).
  set (q1 := r / 64) in *. set (m0 := r mod 64) in *.
  set (q2 := q1 / 64) in *. set (m1 := q1 mod 64) in *.
  set (q3 := q2 / 64) in *. set (m2 := q2 mod 64) in *.
  destruct (N.ltb_spec r 0x80) as [H1|H1].
  { cbn [app decode]. destruct (N.ltb_spec r 0x80); [reflexivity|lia]. }
  destruct (N.ltb_spec r 0x800) as [H2|H2].
  { cbn [app decode]. unfold cont.
    destruct (N.ltb_spec (0xC0 + q1) 0x80); [lia|].
    destruct (N.leb_spec 0xC2 (0xC0 + q1)); [|lia].
    destruct (N.leb_spec (0xC0 + q1) 0xDF); [|lia].
    destruct (N.leb_spec 0x80 (0x80 + m0)); [|lia].
    destruct (N.leb_spec (0x80 + m0) 0xBF); [|lia].
    cbn [andb]. f_equal. lia. }
  destruct (N.leb_spec 0xD800 r) as [H3|H3]; destruct (N.leb_spec r 0xDFFF) as [H4|H4];
    cbn [andb orb]; try lia.
  - (* r above the surrogates *)
    destruct (N.ltb_spec 0x10FFFF r) as [?|H5]; [lia|].
    destruct (N.ltb_spec r 0x10000) as [H6|H6].
    + cbn [app decode]. unfold cont.
      destruct (N.ltb_spec (0xE0 + q2) 0x80); [lia|].
      destruct (N.leb_spec 0xC2 (0xE0 + q2)); [|lia].
      destruct (N.leb_spec (0xE0 + q2) 0xDF); [lia|]. cbn [andb].
      destruct (N.eqb_spec (0xE0 + q2) 0xE0); [lia|].
      destruct (N.eqb_spec (0xE0 + q2) 0xED); [lia|].
      destruct (N.leb_spec 0xE0 (0xE0 + q2)); [|lia].
      destruct (N.leb_spec (0xE0 + q2) 0xEF); [|lia].
      destruct (N.leb_spec 0x80 (0x80 + m1)); [|lia].
      destruct (N.leb_spec (0x80 + m1) 0xBF); [|lia].
      destruct (N.leb_spec 0x80 (0x80 + m0)); [|lia].
      destruct (N.leb_spec (0x80 + m0) 0xBF); [|lia].
      cbn [andb]. f_equal. lia.
    + cbn [app decode]. unfold cont.
      destruct (N.ltb_spec (0xF0 + q3) 0x80); [lia|].
      destruct (N.leb_spec 0xC2 (0xF0 + q3)); [|lia].
      destruct (N.leb_spec (0xF0 + q3) 0xDF); [lia|]. cbn [andb].
      destruct (N.leb_spec 0xE0 (0xF0 + q3)); [|lia].
      destruct (N.leb_spec (0xF0 + q3) 0xEF); [lia|]. cbn [andb].
      destruct (N.leb_spec 0xF0 (0xF0 + q3)); [|lia].
      destruct (N.leb_spec (0xF0 + q3) 0xF4); [|lia].
      destruct (N.leb_spec 0x80 (0x80 + m0)); [|lia].
      destruct (N.leb_spec (0x80 + m0) 0xBF); [|lia].
      destruct (N.leb_spec 0x80 (0x80 + m1)); [|lia].
      destruct (N.leb_spec (0x80 + m1) 0xBF); [|lia].
      destruct (N.eqb_spec (0xF0 + q3) 0xF0); destruct (N.eqb_spec (0xF0 + q3) 0xF4); try lia.
      * destruct (N.leb_spec 0x90 (0x80 + m2)); [|lia].
        destruct (N.leb_spec (0x80 + m2) 0xBF); [|lia].
        cbn [andb]. f_equal. lia.
      * destruct (N.leb_spec 0x80 (0x80 + m2)); [|lia].
        destruct (N.leb_spec (0x80 + m2) 0x8F); [|lia].
        cbn [andb]. f_equal. lia.
      * destruct (N.leb_spec 0x80 (0x80 + m2)); [|lia].
        destruct (N.leb_spec (0x80 + m2) 0xBF); [|lia].
        cbn [andb]. f_equal. lia.
  - (* r below the surrogates *)
    destruct (N.ltb_spec 0x10FFFF r) as [?|H5]; [lia|].
    destruct (N.ltb_spec r 0x10000) as [H6|H6]; [|lia].
    cbn [app decode]. unfold cont.
    destruct (N.ltb_spec (0xE0 + q2) 0x80); [lia|].
    destruct (N.leb_spec 0xC2 (0xE0 + q2)); [|lia].
    destruct (N.leb_spec (0xE0 + q2) 0xDF); [lia|]. cbn [andb].
    destruct (N.leb_spec 0xE0 (0xE0 + q2)); [|lia].
    destruct (N.leb_spec (0xE0 + q2) 0xEF); [|lia].
    destruct (N.leb_spec 0x80 (0x80 + m0)); [|lia].
    destruct (N.leb_spec (0x80 + m0) 0xBF); [|lia].
    destruct (N.eqb_spec (0xE0 + q2) 0xE0); destruct (N.eqb_spec (0xE0 + q2) 0xED); try lia.
    + destruct (N.leb_spec 0xA0 (0x80 + m1)); [|lia].
      destruct (N.leb_spec (0x80 + m1) 0xBF); [|lia].
      cbn [andb]. f_equal. lia.
    + destruct (N.leb_spec 0x80 (0x80 + m1)); [|lia].
      destruct (N.leb_spec (0x80 + m1) 0x9F); [|lia].
      cbn [andb]. f_equal. lia.
    + destruct (N.leb_spec 0x80 (0x80 + m1)); [|lia].
      destruct (N.leb_spec (0x80 + m1) 0xBF); [|lia].
      cbn [andb]. f_equal. lia.
Qed.

(** Every rune [decode] produces is a scalar value. *)
Lemma decode_valid (bs : list N) : Forall (fun r => validRune r = true) (decode bs).
Proof.
  remember (length bs) as n eqn:Hn. revert bs Hn.
  induction n as [n IH] using lt_wf_ind. intros bs Hn.
  assert (Hrec : forall l, (length l < length bs)%nat ->
                           Forall (fun r => validRune r = true) (decode l)).
  { intros l Hl. apply (IH (length l)); [lia|reflexivity]. }
  clear IH Hn.
  destruct bs as [|b0 r0]; [constructor|]. cbn [decode].
  assert (Herr : forall l, (length l < length (b0 :: r0))%nat ->
                           Forall (fun r => validRune r = true) (RuneError :: decode l)).
  { intros l Hl. constructor; [reflexivity|now apply Hrec]. }
  destruct (N.ltb_spec b0 0x80) as [H0|H0].
  { constructor; [apply validRune_spec; lia|]. apply Hrec. cbn. lia. }
  destruct r0 as [|b1 r1]; [repeat constructor|].
  destruct ((0xC2 <=? b0) && (b0 <=? 0xDF) && cont b1) eqn:H2.
  { unfold cont in H2. rewrite !andb_true_iff, !N.leb_le in H2.
    constructor; [apply validRune_spec; lia|]. apply Hrec. cbn. lia. }
  destruct r1 as [|b2 r2]; [apply Herr; cbn; lia|].
  destruct ((0xE0 <=? b0) && (b0 <=? 0xEF)
            && ((if b0 =? 0xE0 then 0xA0 else 0x80) <=? b1)
            && (b1 <=? (if b0 =? 0xED then 0x9F else 0xBF)) && cont b2) eqn:H3.
  { unfold cont in H3. rewrite !andb_true_iff, !N.leb_le in H3.
    constructor; [|apply Hrec; cbn; lia]. apply validRune_spec.
    destruct (N.eqb_spec b0 0xE0); destruct (N.eqb_spec b0 0xED); lia. }
  destruct r2 as [|b3 r3]; [apply Herr; cbn; lia|].
  destruct ((0xF0 <=? b0) && (b0 <=? 0xF4)
            && ((if b0 =? 0xF0 then 0x90 else 0x80) <=? b1)
            && (b1 <=? (if b0 =? 0xF4 then 0x8F else 0xBF)) && cont b2 && cont b3) eqn:H4.
  { unfold cont in H4. rewrite !andb_true_iff, !N.leb_le in H4.
    constructor; [|apply Hrec; cbn; lia]. apply validRune_spec.
    destruct (N.eqb_spec b0 0xF0); destruct (N.eqb_spec b0 0xF4); lia. }
  apply Herr. cbn. lia.
Qed.

Lemma decode_encode_app (rs rest : list N) :
  Forall (fun r => validRune r = true) rs ->
  decode (flat_map encodeRune rs ++ rest) = rs ++ decode rest.
Proof.
  induction 1 as [|r rs Hr _ IH]; [reflexivity|].
  cbn [flat_map]. rewrite <- app_assoc, decode_encodeRune by exact Hr. now rewrite IH.
Qed.

Lemma encodeRune_bytes (r : N) :
  validRune r = true -> Forall (fun b => b < 256) (encodeRune r).
Proof.
  intros Hv. apply validRune_spec in Hv. unfold encodeRune.
  pose proof (N.mod_lt r 64 ltac:(lia)) as L1.
  pose proof (N.mod_lt (r / 64) 64 ltac:(lia)) as L2.
  pose proof (N.mod_lt (r / 4096) 64 ltac:(lia)) as L3.
  assert (D1 : r < 0x800 -> r / 64 < 32) by (intros; apply N.Div0.div_lt_upper_bound; lia).
  assert (D2 : r < 0x10000 -> r / 4096 < 16) by (intros; apply N.Div0.div_lt_upper_bound; lia).
  assert (D3 : r <= 0x10FFFF -> r / 262144 < 5) by (intros; apply N.Div0.div_lt_upper_bound; lia).
  destruct (N.ltb_spec r 0x80); [repeat constructor; lia|].
  destruct (N.ltb_spec r 0x800); [repeat constructor; lia|].
  destruct (N.leb_spec 0xD800 r); destruct (N.leb_spec r 0xDFFF); cbn [andb orb];
    try (repeat constructor; lia);
    destruct (N.ltb_spec 0x10FFFF r); try (repeat constructor; lia);
    destruct (N.ltb_spec r 0x10000); repeat constructor; lia.
Qed.

Lemma bytes_string_of_bytes (bs : list N) :
  Forall (fun b => b < 256) bs -> Sha256.bytes_of_string (string_of_bytes bs) = bs.
Proof.
  induction 1 as [|b bs Hb _ IH]; [reflexivity|].
  cbn [string_of_bytes Sha256.bytes_of_string]. rewrite IH. f_equal.
  now apply N_ascii_embedding.
Qed.

Lemma bytes_of_string_app (a b : string) :
  Sha256.bytes_of_string (a +:+ b) = Sha256.bytes_of_string a ++ Sha256.bytes_of_string b.
Proof. induction a as [|c a IH]; simpl; [reflexivity|now rewrite IH]. Qed.

Lemma string_of_bytes_app (a b : list N) :
  string_of_bytes (a ++ b) = string_of_bytes a +:+ string_of_bytes b.
Proof. induction a as [|c a IH]; simpl; [reflexivity|now rewrite IH]. Qed.

Lemma flat_map_encode_bytes (rs : list N) :
  Forall (fun r => validRune r = true) rs -> Forall (fun b => b < 256) (flat_map encodeRune rs).
Proof.
  induction 1 as [|r rs Hr _ IH]; [constructor|].
  cbn [flat_map]. apply Forall_app. split; [now apply encodeRune_bytes|exact IH].
Qed.

(** Runes that are scalar values survive the conversion to a string and
    back, also in front of other text. *)
Lemma runes_toString_app (rs : list N) (s : string) :
  Forall (fun r => validRune r = true) rs -> runes (toString rs +:+ s) = rs ++ runes s.
Proof.
  intros Hv. unfold runes, toString.
  rewrite bytes_of_string_app, bytes_string_of_bytes by now apply flat_map_encode_bytes.
  now apply decode_encode_app.
Qed.

Lemma runes_toString (rs : list N) :
  Forall (fun r => validRune r = true) rs -> runes (toString rs) = rs.
Proof.
  intros Hv. unfold runes, toString.
  rewrite bytes_string_of_bytes by now apply flat_map_encode_bytes.
  rewrite <- (app_nil_r (flat_map encodeRune rs)), decode_encode_app by exact Hv.
  cbn [decode]. apply app_nil_r.
Qed.

Lemma runes_valid (s : string) : Forall (fun r => validRune r = true) (runes s).
Proof. apply decode_valid. Qed.

End Utf8Facts.

Section SplitMessageFacts.
Import Utf8 Utf8Spec Telegram.

Lemma length_splitRunes (fuel : nat) (rs : list N) :
  (length rs <= fuel)%nat ->
  length (splitRunes fuel rs)
  = ((length rs + (telegramMaxMessageLength - 1)) / telegramMaxMessageLength)%nat.
Proof.
  unfold telegramMaxMessageLength.
  revert rs. induction fuel as [|fuel IH]; intros rs Hlen.
  - destruct rs; [reflexivity|cbn in Hlen; lia].
  - destruct rs as [|r rs']; [reflexivity|].
    cbn [splitRunes]. remember (r :: rs') as l eqn:Hl.
    assert (Hpos : (1 <= length l)%nat) by (subst l; cbn; lia).
    cbn [length]. unfold telegramMaxMessageLength.
    rewrite IH by (rewrite length_skipn; lia). rewrite length_skipn.
    destruct (Nat.le_gt_cases (length l) 4096) as [Hle|Hgt].
    + replace (length l - 4096)%nat with 0%nat by lia.
      replace ((0 + (4096 - 1)) / 4096)%nat with 0%nat by (vm_compute; reflexivity).
      apply Nat.div_unique with (r := (length l - 1)%nat); lia.
    + replace (length l + (4096 - 1))%nat
        with ((length l - 4096 + (4096 - 1)) + 1 * 4096)%nat by lia.
      rewrite Nat.div_add by lia. lia.
Qed.

Lemma toString_concat (chunks : list (list N)) :
  toString (concat chunks) = fold_right String.append "" (map toString chunks).
Proof.
  induction chunks as [|c r IH]; [reflexivity|].
  cbn [concat map fold_right]. rewrite <- IH. unfold toString.
  now rewrite flat_map_app, string_of_bytes_app.
Qed.

Lemma splitRunes_valid (fuel : nat) (rs : list N) :
  Forall (fun r => validRune r = true) rs ->
  Forall (Forall (fun r => validRune r = true)) (splitRunes fuel rs).
Proof.
  revert rs. induction fuel as [|fuel IH]; intros rs Hv; [constructor|].
  destruct rs as [|r rs']; [constructor|]. cbn [splitRunes]. constructor.
  - now apply Forall_take.
  - apply IH. now apply Forall_drop.
Qed.

Lemma concat_runes_toString (chunks : list (list N)) :
  Forall (Forall (fun r => validRune r = true)) chunks ->
  concat (map (fun chunk => runes (toString chunk)) chunks) = concat chunks.
Proof.
  induction 1 as [|chunk chunks Hchunk _ IH]; [reflexivity|].
  cbn [map concat]. rewrite runes_toString by exact Hchunk. now rewrite IH.
Qed.

(** X7. [SplitMessage] always returns at least one part, every part a
    text part with the parse mode given.  A text of at most 4096 bytes comes
    back as it is, in one part.  A longer text is cut along rune boundaries:
    the runes of the parts, put end to end, are the runes of the text, no
    part is empty or has more than 4096 runes, and there are as many parts as
    4096-rune chunks are needed; so a text of more than 4096 bytes but at
    most 4096 runes still comes back in one part. *)
Theorem X7_SplitMessage_parts (text parseMode : string) :
  let parts := SplitMessage text parseMode in
  parts <> []
  /\ Forall (fun p => ParseMode p = parseMode /\ PhotoURL p = "" /\ DocumentURL p = "") parts
  /\ concat (map (fun p => runes (Text p)) parts) = runes text
  /\ ((String.length text <= telegramMaxMessageLength)%nat -> parts = [textPart text parseMode])
  /\ ((telegramMaxMessageLength < String.length text)%nat ->
        Forall (fun p => (1 <= length (runes (Text p)) <= telegramMaxMessageLength)%nat) parts
        /\ length parts
           = ((length (runes text) + (telegramMaxMessageLength - 1))
              / telegramMaxMessageLength)%nat).
Proof.
  cbn zeta. unfold SplitMessage.
  destruct (Nat.leb_spec (String.length text) telegramMaxMessageLength) as [Hle|Hgt].
  - split; [discriminate|]. split; [repeat constructor|]. split; [cbn; apply app_nil_r|].
    split; [reflexivity|]. intros H. lia.
  - pose proof (splitRunes_valid (length (runes text)) (runes text) (runes_valid text)) as Hv.
    pose proof (splitRunes_bound (length (runes text)) (runes text)) as Hb.
    pose proof (splitRunes_concat (length (runes text)) (runes text) (le_n _)) as Hc.
    pose proof (length_splitRunes (length (runes text)) (runes text) (le_n _)) as Hl.
    assert (Hne : runes text <> []).
    { unfold runes. destruct text as [|c t]; [cbn in Hgt; unfold telegramMaxMessageLength in Hgt; lia|].
      cbn [Sha256.bytes_of_string decode].
      destruct (_ <? _)%N; [discriminate|].
      repeat match goal with
             | |- context [match ?l with [] => _ | _ :: _ => _ end] => destruct l
             | |- context [if ?c then _ else _] => destruct c
             end; discriminate. }
    split.
    { destruct (runes text) as [|r rs]; [congruence|]. cbn. discriminate. }
    split.
    { apply List.Forall_forall. intros p Hp. apply in_map_iff in Hp as (chunk & <- & _).
      repeat split. }
    split.
    { rewrite map_map. cbn [textPart Text].
      rewrite concat_runes_toString by exact Hv. exact Hc. }
    split; [intros H; lia|]. intros _. split.
    + clear Hc Hl. apply List.Forall_forall. intros p Hp.
      apply in_map_iff in Hp as (chunk & <- & Hin). cbn [textPart Text].
      rewrite List.Forall_forall in Hv, Hb.
      rewrite runes_toString by (apply Hv; exact Hin). apply Hb. exact Hin.
    + rewrite length_map. exact Hl.
Qed.

Lemma append_empty_r (s : string) : s +:+ "" = s.
Proof.
  induction s as [|c t IH]; [reflexivity|].
  change (String c t +:+ "") with (String c (t +:+ "")). now rewrite IH.
Qed.

(** X8. When the text is well-formed UTF-8, the texts of the parts of
    [SplitMessage], put end to end, are the text: nothing is lost or
    changed by the split.  (In a text that is not, each ill-formed byte of a
    text longer than 4096 bytes is replaced by U+FFFD.) *)
Theorem X8_SplitMessage_keeps_text (text parseMode : string) :
  wellFormed text ->
  fold_right String.append "" (map Text (SplitMessage text parseMode)) = text.
Proof.
  intros Hwf. unfold SplitMessage.
  destruct (Nat.leb_spec (String.length text) telegramMaxMessageLength) as [Hle|Hgt].
  - cbn [map fold_right textPart Text]. apply append_empty_r.
  - rewrite map_map. cbn [textPart Text]. rewrite <- toString_concat.
    rewrite splitRunes_concat by lia. exact Hwf.
Qed.

(** A text of 5000 letters is cut in two parts that give it back. *)
Lemma X8_SplitMessage_keeps_text_witness :
  let text := Scenarios.replicate 5000 "a" in
  length (SplitMessage text "HTML") = 2%nat
  /\ fold_right String.append "" (map Text (SplitMessage text "HTML")) = text.
Proof.
  cbn zeta. split; [vm_compute; reflexivity|].
  apply (X8_SplitMessage_keeps_text (Scenarios.replicate 5000 "a") "HTML").
  unfold wellFormed. vm_compute. reflexivity.
Defined.

End SplitMessageFacts.

Section SummarizeFacts.
Import Utf8 Utf8Spec TemplateFuncs.

(** X9. [summarize] with a length that is not negative returns the
    string as it is when it has fewer runes than the length, and otherwise its
    first [length] runes followed by three dots: [length + 3] runes, so that a
    string of exactly [length] runes comes back longer than it was.  With a
    negative length the call panics, whatever the string. *)
Theorem X9_summarize (s : string) (n : Z) :
  (n < 0 -> summarize s n = None)
  /\ (0 <= n ->
      exists r, summarize s n = Some r
        /\ (Z.of_nat (length (runes s)) < n -> r = s)
        /\ (n <= Z.of_nat (length (runes s)) ->
              runes r = firstn (Z.to_nat n) (runes s) ++ [46; 46; 46]%N
              /\ Z.of_nat (length (runes r)) = n + 3)).
Proof.
  unfold summarize. split.
  - intros Hneg. destruct (Z.ltb_spec (Z.of_nat (length (runes s))) n); [lia|].
    destruct (Z.ltb_spec n 0); [reflexivity|lia].
  - intros Hn. destruct (Z.ltb_spec (Z.of_nat (length (runes s))) n) as [Hlt|Hge].
    + exists s. split; [reflexivity|]. split; [auto|lia].
    + destruct (Z.ltb_spec n 0); [lia|]. eexists. split; [reflexivity|]. split; [lia|].
      intros _.
      assert (Hr : runes (toString (firstn (Z.to_nat n) (runes s)) +:+ "...")
                   = firstn (Z.to_nat n) (runes s) ++ [46; 46; 46]%N).
      { rewrite runes_toString_app by (apply Forall_take, runes_valid). reflexivity. }
      split; [exact Hr|]. rewrite Hr, length_app, length_firstn. cbn [length]. lia.
Qed.

End SummarizeFacts.

(* ===================================================================== *)
(** * Delivery and pacing of the Telegram client *)
(* ===================================================================== *)

Section TelegramDelivery.
Import Context Telegram TelegramSpec TelegramInv.

(** X10. A bot made for a token is made once: every later [getBotAPI] for
    that token returns it and leaves the client as it is, without asking the
    client factory or the API, whatever proxy the call names.  A call that
    fails caches nothing. *)
Theorem X10_getBotAPI_caches (env : Env) (c c1 : Client) (botToken : string)
    (proxy : option Database.Proxy) (r : result string) :
  getBotAPI env c botToken proxy = (c1, r) ->
  match r with
  | Ok bot =>
      bots c1 !! botToken = Some bot
      /\ (forall env' proxy', getBotAPI env' c1 botToken proxy' = (c1, Ok bot))
      /\ (forall other, other <> botToken -> bots c1 !! other = bots c !! other)
  | Err _ => c1 = c /\ bots c !! botToken = None
  end.
Proof.
  unfold getBotAPI. destruct (bots c !! botToken) as [bot|] eqn:Hb.
  - intros H; inversion H; subst c1 r. split; [exact Hb|]. split; [|reflexivity].
    intros env' proxy'. now rewrite Hb.
  - destruct (getClient env proxy); [intros H; inversion H; subst; auto|].
    destruct (newBotAPI env botToken) as [api|e]; intros H; inversion H; subst; [|auto].
    cbn [bots]. split; [apply lookup_insert_eq|]. split.
    + intros env' proxy'. cbn [bots]. now rewrite lookup_insert_eq.
    + intros other Hne. now rewrite lookup_insert_ne.
Qed.

Lemma X10_getBotAPI_caches_witness :
  exists c1, getBotAPI apiAccepting (NewClient 0) "token" None = (c1, Ok "rssbot")
    /\ forall env' proxy', getBotAPI env' c1 "token" proxy' = (c1, Ok "rssbot").
Proof.
  eexists. split; [reflexivity|].
  exact (proj1 (proj2 (X10_getBotAPI_caches apiAccepting (NewClient 0) _ "token" None
                         (Ok "rssbot") eq_refl))).
Defined.

Lemma sentOf_app (a b : list Event) : sentOf (a ++ b) = sentOf a ++ sentOf b.
Proof. unfold sentOf. apply flat_map_app. Qed.

Lemma events_afterTokens (c : Client) (chat : string) (i : nat) :
  exists t1 t2, events (afterTokens c chat i)
                = events c ++ [EvGlobalToken i t1; EvChatToken i chat t2].
Proof. unfold afterTokens. cbn [events]. rewrite <- app_assoc. eauto. Qed.

(** The loop of [Send]: the messages the API took are those of the
    sendable parts, in order, up to the first one it refuses. *)
Lemma sendParts_sent (env : Env) (chat : string) (to : Target)
    (parts : list FormattedMessagePart) (c : Client) (i : nat) :
  let r := sendParts env c chat to i parts in
  exists k : nat,
    sentOf (events r.1) = sentOf (events c) ++ firstn k (sendable to parts)
    /\ match r.2 with
       | None => k = length (sendable to parts) /\ apiCalls r.1 = (apiCalls c + k)%nat
       | Some e =>
           exists msg e', sendable to parts !! k = Some msg
             /\ botSend env (apiCalls c + k) msg = Some e'
             /\ e = ErrWrap "sending message part to chat" e'
             /\ apiCalls r.1 = (apiCalls c + k + 1)%nat
       end.
Proof.
  cbn zeta. revert c i. induction parts as [|part rest IH]; intros c i.
  - exists 0%nat. cbn. rewrite app_nil_r. auto.
  - rewrite sendParts_cons. cbn zeta.
    destruct (events_afterTokens c chat i) as (t1 & t2 & Hev).
    assert (Hs : sentOf (events (afterTokens c chat i)) = sentOf (events c)).
    { rewrite Hev, sentOf_app. cbn. apply app_nil_r. }
    assert (Ha : apiCalls (afterTokens c chat i) = apiCalls c) by reflexivity.
    unfold sendable. cbn [omap list_omap]. fold (omap (msgConfigOf to) rest).
    destruct (msgConfigOf to part) as [msg|] eqn:Hmsg.
    + destruct (botSend env (apiCalls (afterTokens c chat i)) msg) as [e|] eqn:Hsend.
      * exists 0%nat. cbn [fst snd withCall events firstn apiCalls].
        rewrite Hs, app_nil_r. split; [reflexivity|].
        exists msg, e. rewrite Nat.add_0_r. rewrite Ha in Hsend. repeat split; auto. lia.
      * destruct (IH (withSent (withCall (afterTokens c chat i)) i msg) (S i)) as (k & Hk & Hres).
        exists (S k). split.
        { rewrite Hk. cbn [withSent withCall events firstn]. rewrite sentOf_app, Hs.
          cbn. rewrite <- app_assoc. reflexivity. }
        cbn [withSent withCall apiCalls] in Hres. rewrite Ha in Hres.
        destruct (sendParts env (withSent (withCall (afterTokens c chat i)) i msg) chat to (S i) rest).2.
        -- destruct Hres as (m & e' & Hm & Hb & He & Hc). exists m, e'.
           cbn [lookup list_lookup]. repeat split; auto.
           ++ replace (apiCalls c + S k)%nat with (S (apiCalls c) + k)%nat by lia. exact Hb.
           ++ lia.
        -- destruct Hres as [-> Hc]. cbn [length]. split; [reflexivity|lia].
    + destruct (IH (afterTokens c chat i) (S i)) as (k & Hk & Hres).
      exists k. rewrite Hk, Hs. split; [reflexivity|]. rewrite Ha in Hres. exact Hres.
Qed.

(** X11. [Send] hands the API the messages of the parts that have a
    photo, a document or a text, in the order of the parts, one call each.
    When it returns no error they all went out; when the API refuses a
    message, those before it went out, that call was the last, and the error
    wraps the refusal; when the bot cannot be made, nothing is sent and no
    call is made. *)
Theorem X11_Send_delivers_in_order (env : Env) (c : Client) (ctx : Ctx)
    (botToken chatIDStr : string) (parts : list FormattedMessagePart)
    (proxy : option Database.Proxy) :
  let r := Send env c ctx botToken chatIDStr parts proxy in
  let msgs := sendable (targetOf env chatIDStr) parts in
  exists k : nat,
    sentOf (events r.1) = sentOf (events c) ++ firstn k msgs
    /\ match r.2 with
       | None => k = length msgs /\ apiCalls r.1 = (apiCalls c + k)%nat
       | Some e =>
           (exists e', e = ErrWrap "getting bot API" e'
                       /\ k = 0%nat /\ apiCalls r.1 = apiCalls c)
           \/ (exists msg e', msgs !! k = Some msg
                 /\ botSend env (apiCalls c + k) msg = Some e'
                 /\ e = ErrWrap "sending message part to chat" e'
                 /\ apiCalls r.1 = (apiCalls c + k + 1)%nat)
       end.
Proof.
  cbn zeta. unfold Send, targetOf.
  destruct (getBotAPI env c botToken proxy) as [c1 [bot|e]] eqn:Hbot.
  - assert (Hev : events c1 = events c /\ apiCalls c1 = apiCalls c).
    { unfold getBotAPI in Hbot. destruct (bots c !! botToken); [now inversion Hbot|].
      destruct (getClient env proxy); [discriminate|].
      destruct (newBotAPI env botToken); inversion Hbot; auto. }
    destruct Hev as [Hev Hap].
    match goal with |- context [sendParts env c1 chatIDStr ?to 0 parts] =>
      destruct (sendParts_sent env chatIDStr to parts c1 0) as (k & Hk & Hres) end.
    exists k. rewrite <- Hev, <- Hap. split; [exact Hk|].
    destruct (sendParts _ _ _ _ _ _).2; [right|]; exact Hres.
  - assert (Hev : events c1 = events c /\ apiCalls c1 = apiCalls c).
    { unfold getBotAPI in Hbot. destruct (bots c !! botToken); [now inversion Hbot|].
      destruct (getClient env proxy); [now inversion Hbot|].
      destruct (newBotAPI env botToken); inversion Hbot; auto. }
    destruct Hev as [Hev Hap].
    exists 0%nat. cbn [fst snd firstn]. rewrite Hev, app_nil_r. split; [reflexivity|].
    left. exists e. auto.
Qed.

End TelegramDelivery.

Section TelegramPacing.
Import Context Telegram TelegramSpec TelegramInv.

Lemma grantDelay_spec (lim : Rate.Limiter) (t : Z) :
  0 < Rate.limit lim ->
  0 <= grantDelay lim t
  /\ 0 <= Rate.advance lim t - Rate.unit + grantDelay lim t * Rate.limit lim.
Proof.
  intros Hl. unfold grantDelay.
  set (a := Rate.advance lim t - Rate.unit).
  destruct (Z.ltb_spec a 0) as [Hneg|Hpos]; [|lia].
  set (q := (- a + Rate.limit lim - 1) / Rate.limit lim).
  pose proof (Z.mod_pos_bound (- a + Rate.limit lim - 1) (Rate.limit lim) Hl) as Hm.
  pose proof (Z.div_mod (- a + Rate.limit lim - 1) (Rate.limit lim) ltac:(lia)) as Hd.
  fold q in Hd. split; nia.
Qed.

(** One [Wait] on a paced bucket. *)
Lemma Wait_bucketPaced (t0 t r b : Z) (n : nat) (lim : Rate.Limiter) :
  0 < r -> bucketPaced t0 t r b n lim ->
  bucketPaced t0 (t + grantDelay lim t) r b (S n)
    (Rate.mkLimiter (Rate.limit lim) (Rate.burst lim) (Rate.advance lim t - Rate.unit) t).
Proof.
  intros Hr (Hl & Hb & Hlast & Hav & Hpot).
  destruct (grantDelay_spec lim t) as [Hd Hc]; [lia|].
  unfold bucketPaced. cbn [Rate.limit Rate.burst Rate.tokens Rate.last].
  split; [exact Hl|]. split; [exact Hb|]. split; [clear -Hd; lia|]. split.
  - rewrite Hl in Hc. lia.
  - assert (Hadv : Rate.advance lim t <= Rate.tokens lim + (t - Rate.last lim) * r).
    { unfold Rate.advance. rewrite Hl. rewrite (Z.max_r 0 (t - Rate.last lim)) by lia. lia. }
    unfold Rate.unit in *. lia.
Qed.

Lemma bucketPaced_later (t0 t t' r b : Z) (n : nat) (lim : Rate.Limiter) :
  0 <= r -> t <= t' -> bucketPaced t0 t r b n lim -> bucketPaced t0 t' r b n lim.
Proof.
  intros Hr Ht (Hl & Hb & Hlast & Hav & Hpot). unfold bucketPaced.
  repeat split; auto; nia.
Qed.

Lemma bucketPaced_new (t0 t r b : Z) :
  0 <= b -> 0 <= r -> t0 <= t -> bucketPaced t0 t r b 0 (Rate.NewLimiter r b t).
Proof.
  intros Hb Hr Ht. unfold bucketPaced, Rate.NewLimiter, Rate.unit.
  cbn [Rate.limit Rate.burst Rate.tokens Rate.last]. repeat split; nia.
Qed.

Lemma bucketPaced_bound (t0 t r b : Z) (n : nat) (lim : Rate.Limiter) :
  bucketPaced t0 t r b n lim -> (Z.of_nat n - b) * Rate.unit <= (t - t0) * r.
Proof. intros (Hl & Hb & Hlast & Hav & Hpot). unfold Rate.unit in *. lia. Qed.

Lemma globalTokens_app (a b : list Event) :
  globalTokens (a ++ b) = (globalTokens a + globalTokens b)%nat.
Proof. unfold globalTokens. now rewrite List.filter_app, length_app. Qed.

Lemma chatTokens_app (ch : string) (a b : list Event) :
  chatTokens ch (a ++ b) = (chatTokens ch a + chatTokens ch b)%nat.
Proof. unfold chatTokens. now rewrite List.filter_app, length_app. Qed.

(** The two acquisitions for a part keep the client paced, and leave room
    for one message. *)
Lemma afterTokens_paced (t0 : Z) (c : Client) (chat : string) (i : nat) :
  paced t0 c ->
  paced t0 (afterTokens c chat i)
  /\ (S (length (sentOf (events (afterTokens c chat i))))
      <= globalTokens (events (afterTokens c chat i)))%nat
  /\ now c <= now (afterTokens c chat i).
Proof.
  intros (Ht0 & Hsent & Hg & Hch).
  pose proof (Wait_bucketPaced t0 (now c) globalMessagesPerSecond _ _ _ eq_refl Hg) as Hg1.
  set (t1 := now c + grantDelay (globalLimiter c) (now c)) in *.
  assert (Hd1 : now c <= t1).
  { unfold t1. destruct Hg as (Hl & _).
    destruct (grantDelay_spec (globalLimiter c) (now c)) as [? _];
      [rewrite Hl; unfold globalMessagesPerSecond; lia|lia]. }
  set (gl := Rate.mkLimiter (Rate.limit (globalLimiter c)) (Rate.burst (globalLimiter c))
               (Rate.advance (globalLimiter c) (now c) - Rate.unit) (now c)) in *.
  set (c1 := mkClient (bots c) gl (chatLimiters c) t1 (apiCalls c)
                      (events c ++ [EvGlobalToken i t1])).
  set (cl := getChatLimiter c1 chat).
  assert (Hcl : bucketPaced t0 t1 chatMessagesPerSecond (chatMessagesPerSecond * 2)
                            (chatTokens chat (events c)) cl).
  { unfold cl, getChatLimiter, c1. cbn [chatLimiters now]. specialize (Hch chat).
    destruct (chatLimiters c !! chat) as [lim|].
    - eapply bucketPaced_later; [unfold chatMessagesPerSecond; lia|exact Hd1|exact Hch].
    - rewrite Hch. apply bucketPaced_new; unfold chatMessagesPerSecond; lia. }
  pose proof (Wait_bucketPaced t0 t1 chatMessagesPerSecond _ _ _ eq_refl Hcl) as Hcl1.
  set (t2 := t1 + grantDelay cl t1) in *.
  assert (Hd2 : t1 <= t2).
  { unfold t2. destruct Hcl as (Hl & _).
    destruct (grantDelay_spec cl t1) as [? _];
      [rewrite Hl; unfold chatMessagesPerSecond; lia|lia]. }
  assert (Hafter : afterTokens c chat i
    = mkClient (bots c) gl
        (<[chat := Rate.mkLimiter (Rate.limit cl) (Rate.burst cl)
                     (Rate.advance cl t1 - Rate.unit) t1]> (chatLimiters c))
        t2 (apiCalls c) ((events c ++ [EvGlobalToken i t1]) ++ [EvChatToken i chat t2]))
    by reflexivity.
  rewrite Hafter. unfold paced. cbn [now events globalLimiter chatLimiters].
  assert (Hgt : globalTokens ((events c ++ [EvGlobalToken i t1]) ++ [EvChatToken i chat t2])
                = S (globalTokens (events c))).
  { rewrite !globalTokens_app. cbn. lia. }
  assert (Hst : sentOf ((events c ++ [EvGlobalToken i t1]) ++ [EvChatToken i chat t2])
                = sentOf (events c)).
  { rewrite !sentOf_app. cbn. now rewrite !app_nil_r. }
  rewrite Hgt, Hst. clear Hafter Hgt Hst. clearbody cl c1 gl t2 t1.
  split; [|split; [lia|lia]].
  split; [lia|]. split; [lia|]. split.
  - eapply bucketPaced_later; [unfold globalMessagesPerSecond; lia|exact Hd2|exact Hg1].
  - intros ch. rewrite !chatTokens_app. cbn [chatTokens List.filter length].
    destruct (decide (ch = chat)) as [->|Hne].
    + rewrite lookup_insert_eq, String.eqb_refl. cbn [length].
      replace (chatTokens chat (events c) + 0 + 1)%nat
        with (S (chatTokens chat (events c))) by lia.
      exact Hcl1.
    + rewrite lookup_insert_ne by congruence.
      assert (Hneq : String.eqb chat ch = false) by (apply String.eqb_neq; congruence).
      rewrite Hneq. cbn [length]. rewrite !Nat.add_0_r.
      specialize (Hch ch). destruct (chatLimiters c !! ch) as [lim|]; [|exact Hch].
      eapply bucketPaced_later; [unfold chatMessagesPerSecond; lia| |exact Hch]. lia.
Qed.

Lemma sendParts_paced (t0 : Z) (env : Env) (chat : string) (to : Target)
    (parts : list FormattedMessagePart) (c : Client) (i : nat) :
  paced t0 c ->
  paced t0 (sendParts env c chat to i parts).1
  /\ now c <= now (sendParts env c chat to i parts).1.
Proof.
  revert c i. induction parts as [|part rest IH]; intros c i Hp; [cbn; split; [exact Hp|lia]|].
  rewrite sendParts_cons. cbn zeta.
  destruct (afterTokens_paced t0 c chat i Hp) as (Hp2 & Hroom & Hnow).
  destruct (msgConfigOf to part) as [msg|].
  - assert (Hp3 : paced t0 (withSent (withCall (afterTokens c chat i)) i msg)).
    { destruct Hp2 as (H1 & H2 & H3 & H4). unfold paced.
      cbn [withSent withCall now events globalLimiter chatLimiters].
      rewrite sentOf_app, length_app, globalTokens_app. cbn [sentOf flat_map app length globalTokens List.filter].
      rewrite Nat.add_0_r. split; [exact H1|]. split; [lia|]. split; [exact H3|].
      intros ch. rewrite chatTokens_app. cbn [chatTokens List.filter length].
      rewrite Nat.add_0_r. apply H4. }
    destruct (botSend env (apiCalls (afterTokens c chat i)) msg).
    + cbn [fst]. split; [|exact Hnow].
      destruct Hp2 as (H1 & H2 & H3 & H4). unfold paced.
      cbn [withCall now events globalLimiter chatLimiters]. auto.
    + destruct (IH _ (S i) Hp3) as [Hq Hn]. split; [exact Hq|].
      cbn [withSent withCall now] in Hn. lia.
  - destruct (IH _ (S i) Hp2) as [Hq Hn]. split; [exact Hq|lia].
Qed.

Lemma paced_NewClient (t0 : Z) : paced t0 (NewClient t0).
Proof.
  unfold paced, NewClient. cbn [now events globalLimiter chatLimiters sentOf flat_map length].
  split; [lia|]. split; [cbn; lia|]. split.
  - apply bucketPaced_new; unfold globalMessagesPerSecond; lia.
  - intros ch. rewrite lookup_empty. reflexivity.
Qed.

(** X12. The rate limits hold over the life of a client.  When a client
    is paced since [t0], as one made by [NewClient] at [t0] is, [Send] leaves
    it paced and never moves the clock back; after it the tokens taken for
    one chat number at most two more than the seconds gone by since [t0], the
    tokens taken from the global bucket, and so the messages sent, at most
    fifty more than twenty-five times those seconds. *)
Theorem X12_Send_keeps_the_rate_limits (t0 : Z) (env : Env) (c : Client) (ctx : Ctx)
    (botToken chatIDStr : string) (parts : list FormattedMessagePart)
    (proxy : option Database.Proxy) :
  paced t0 c ->
  let c' := (Send env c ctx botToken chatIDStr parts proxy).1 in
  paced t0 c' /\ now c <= now c'
  /\ (forall chat, (Z.of_nat (chatTokens chat (events c')) - 2) * Rate.unit <= now c' - t0)
  /\ (Z.of_nat (globalTokens (events c')) - 50) * Rate.unit <= (now c' - t0) * 25
  /\ (Z.of_nat (length (sentOf (events c'))) - 50) * Rate.unit <= (now c' - t0) * 25.
Proof.
  intros Hp. cbn zeta.
  assert (Hmain : paced t0 (Send env c ctx botToken chatIDStr parts proxy).1
                  /\ now c <= now (Send env c ctx botToken chatIDStr parts proxy).1).
  { unfold Send. destruct (getBotAPI env c botToken proxy) as [c1 [bot|e]] eqn:Hbot.
    - assert (Hc1 : paced t0 c1 /\ now c1 = now c).
      { unfold getBotAPI in Hbot. destruct (bots c !! botToken); [inversion Hbot; subst; auto|].
        destruct (getClient env proxy); [discriminate|].
        destruct (newBotAPI env botToken); inversion Hbot; subst; auto. }
      destruct Hc1 as [Hc1 Hn].
      match goal with |- context [sendParts env c1 chatIDStr ?to 0 parts] =>
        destruct (sendParts_paced t0 env chatIDStr to parts c1 0 Hc1) as [Hq Hn'] end.
      split; [exact Hq|lia].
    - cbn [fst]. unfold getBotAPI in Hbot. destruct (bots c !! botToken); [discriminate|].
      destruct (getClient env proxy); [inversion Hbot; subst; split; [auto|lia]|].
      destruct (newBotAPI env botToken); inversion Hbot; subst. split; [auto|lia]. }
  destruct Hmain as [Hq Hn]. split; [exact Hq|]. split; [exact Hn|].
  destruct Hq as (H1 & H2 & H3 & H4).
  pose proof (bucketPaced_bound _ _ _ _ _ _ H3) as Hg.
  unfold globalMessagesPerSecond in Hg.
  split; [|split; [lia|unfold Rate.unit in *; lia]].
  intros chat. specialize (H4 chat).
  destruct (chatLimiters _ !! chat) as [lim|].
  - pose proof (bucketPaced_bound _ _ _ _ _ _ H4) as Hc. unfold chatMessagesPerSecond in Hc. lia.
  - rewrite H4. unfold Rate.unit. lia.
Qed.

Lemma X12_Send_keeps_the_rate_limits_witness :
  let c' := (Send apiAccepting (NewClient 0) Background "token" "@chan" threeParts None).1 in
  paced 0 c' /\ (Z.of_nat (chatTokens "@chan" (events c')) - 2) * Rate.unit <= now c' - 0.
Proof.
  cbn zeta.
  destruct (X12_Send_keeps_the_rate_limits 0 apiAccepting (NewClient 0) Background "token"
              "@chan" threeParts None (paced_NewClient 0)) as (Hp & _ & Hc & _).
  split; [exact Hp|apply Hc].
Defined.

End TelegramPacing.

(* ===================================================================== *)
(** * The queue of the scheduler is a heap *)
(* ===================================================================== *)

Section HeapOrder.
Import Database Scheduler SchedulerSpec HeapSpec.

Lemma keyAt_Some (pq : PriorityQueue) (k : nat) (t : ScheduledTask) :
  pq !! k = Some t -> keyAt pq k = Some (NextRun t).
Proof. intros H. unfold keyAt. now rewrite H. Qed.

Lemma keyAt_lt (pq : PriorityQueue) (k : nat) (x : Z) :
  keyAt pq k = Some x -> (k < length pq)%nat.
Proof.
  unfold keyAt. destruct (pq !! k) eqn:H; [|discriminate].
  intros _. eapply lookup_lt_Some; eauto.
Qed.

Lemma keyAt_is_Some (pq : PriorityQueue) (k : nat) :
  (k < length pq)%nat -> exists x, keyAt pq k = Some x.
Proof.
  intros Hk. destruct (lookup_lt_is_Some_2 pq k Hk) as [t Ht].
  exists (NextRun t). now apply keyAt_Some.
Qed.

Lemma keyAt_Swap (pq : PriorityQueue) (i j k : nat) :
  (i < length pq)%nat -> (j < length pq)%nat ->
  keyAt (Swap pq i j) k
  = if decide (k = j) then keyAt pq i else if decide (k = i) then keyAt pq j else keyAt pq k.
Proof.
  intros Hi Hj.
  destruct (lookup_lt_is_Some_2 pq i Hi) as [a Ha].
  destruct (lookup_lt_is_Some_2 pq j Hj) as [b Hb].
  unfold keyAt, Swap. rewrite Ha, Hb.
  destruct (decide (k = j)) as [->|Hkj].
  - rewrite list_lookup_insert_eq by (rewrite length_insert; exact Hj). reflexivity.
  - rewrite list_lookup_insert_ne by congruence. destruct (decide (k = i)) as [->|Hki].
    + rewrite list_lookup_insert_eq by exact Hi. reflexivity.
    + rewrite list_lookup_insert_ne by congruence. reflexivity.
Qed.

Lemma Less_keys (pq : PriorityQueue) (i j : nat) (x y : Z) :
  keyAt pq i = Some x -> keyAt pq j = Some y -> Less pq i j = (x <? y).
Proof.
  unfold keyAt, Less. destruct (pq !! i); [|discriminate]. destruct (pq !! j); [|discriminate].
  cbn. intros H1 H2. inversion H1. inversion H2. reflexivity.
Qed.

Lemma heapOrdered_all (pq : PriorityQueue) :
  heapOrdered pq <->
  forall p c x y, isChild p c -> keyAt pq p = Some x -> keyAt pq c = Some y -> x <= y.
Proof.
  unfold heapOrdered, heapOrderedTo. split.
  - intros H p c x y Hc Hp Hy. eapply H; eauto. eapply keyAt_lt; eauto.
  - intros H p c x y Hc _ Hp Hy. eapply H; eauto.
Qed.

Lemma parent_isChild (j : nat) : (0 < j)%nat -> isChild ((j - 1) / 2) j.
Proof.
  intros Hj. unfold isChild.
  pose proof (Nat.div_mod_eq (j - 1) 2) as Hd.
  pose proof (Nat.mod_upper_bound (j - 1) 2 ltac:(lia)) as Hm. lia.
Qed.

Lemma isChild_parent (p c : nat) : isChild p c -> p = ((c - 1) / 2)%nat /\ (p < c)%nat.
Proof.
  unfold isChild. intros [->| ->]; split; try lia.
  - replace (2 * p + 1 - 1)%nat with (p * 2)%nat by lia. now rewrite Nat.div_mul.
  - replace (2 * p + 2 - 1)%nat with (1 + p * 2)%nat by lia.
    rewrite Nat.div_add by lia. reflexivity.
Qed.

(** [heap.up] restores the heap order from a task that alone may be out
    of place. *)
Lemma up_heap (fuel : nat) (pq : PriorityQueue) (j : nat) :
  (j < fuel)%nat -> (j < length pq)%nat -> heapButUp j pq -> heapOrdered (up fuel pq j).
Proof.
  revert pq j. induction fuel as [|fuel IH]; intros pq j Hfuel Hj [Hinv1 Hinv2]; [lia|].
  cbn [up]. destruct (Nat.eqb_spec ((j - 1) / 2) j) as [He|Hne]; cbn [orb].
  { assert (j = 0%nat).
    { destruct j; [reflexivity|]. exfalso.
      assert ((S j - 1) / 2 < S j)%nat by (apply Nat.Div0.div_lt_upper_bound; lia). lia. }
    subst j. apply heapOrdered_all. intros p c x y Hc. apply Hinv1; [exact Hc|].
    destruct Hc; lia. }
  assert (Hpos : (0 < j)%nat).
  { destruct j; [|lia]. exfalso. apply Hne. reflexivity. }
  pose proof (parent_isChild j Hpos) as Hpj.
  remember ((j - 1) / 2)%nat as i eqn:Hi. clear Hi Hne.
  assert (Hij : (i < j)%nat) by (destruct Hpj; lia).
  destruct (keyAt_is_Some pq i ltac:(lia)) as [ki Hki].
  destruct (keyAt_is_Some pq j Hj) as [kj Hkj].
  rewrite (Less_keys pq j i kj ki Hkj Hki).
  destruct (Z.ltb_spec kj ki) as [Hlt|Hge]; cbn [negb].
  - apply IH; [lia|rewrite length_Swap; lia|].
    assert (HK : forall k, keyAt (Swap pq i j) k
              = if decide (k = j) then keyAt pq i
                else if decide (k = i) then keyAt pq j else keyAt pq k)
      by (intros k; apply keyAt_Swap; lia).
    split.
    + intros p c x y Hc Hci. rewrite !HK. intros Hx Hy.
      assert (Hpc : (p < c)%nat) by (destruct Hc; lia).
      destruct (decide (c = j)) as [Hcj|Hcj].
      * assert (p = i) by (unfold isChild in *; lia).
        repeat case_decide; try lia. congruence.
      * destruct (decide (c = i)); [congruence|].
        destruct (decide (p = j)) as [Hpj'|Hpj'].
        -- assert (ki <= y); [|congruence].
           apply (Hinv2 i c); auto. congruence.
        -- destruct (decide (p = i)) as [Hpi|Hpi].
           ++ assert (ki <= y) by (apply (Hinv1 i c); auto; congruence).
              assert (x = kj) by congruence. lia.
           ++ apply (Hinv1 p c); auto.
    + intros g c x y Hgi Hic. rewrite !HK. intros Hx Hy.
      assert (Hgi' : (g < i)%nat) by (destruct Hgi; lia).
      assert (Hic' : (i < c)%nat) by (destruct Hic; lia).
      destruct (decide (g = j)); [lia|]. destruct (decide (g = i)); [lia|].
      assert (x <= ki) by (apply (Hinv1 g i); auto; lia).
      destruct (decide (c = j)) as [Hcj|Hcj].
      * assert (y = ki) by congruence. lia.
      * destruct (decide (c = i)); [lia|].
        assert (ki <= y) by (apply (Hinv1 i c); auto). lia.
  - apply heapOrdered_all. intros p c x y Hc Hx Hy.
    destruct (decide (c = j)) as [Hcj|Hcj]; [|eapply Hinv1; eauto].
    assert (p = i) by (unfold isChild in *; lia).
    assert (x = ki) by congruence. assert (y = kj) by congruence. lia.
Qed.

(** [heap.down] restores the heap order among the first [n] tasks from a
    task that alone may be out of place. *)
Lemma down_heap (fuel : nat) (pq : PriorityQueue) (i n : nat) :
  (n < i + fuel)%nat \/ (n <= i)%nat -> (n <= length pq)%nat ->
  heapButDown i n pq -> heapOrderedTo n (down fuel pq i n).
Proof.
  revert pq i. induction fuel as [|fuel IH]; intros pq i Hfuel Hn [Hinv1 Hinv2].
  { cbn [down]. intros p c x y Hc Hcn. apply Hinv1; auto. destruct Hc; lia. }
  cbn [down]. destruct (Nat.leb_spec n (2 * i + 1)) as [Hstop|Hj1].
  { intros p c x y Hc Hcn. apply Hinv1; auto. destruct Hc; lia. }
  destruct (keyAt_is_Some pq i ltac:(lia)) as [ki Hki].
  destruct (keyAt_is_Some pq (2 * i + 1) ltac:(lia)) as [k1 Hk1].
  assert (Hj : exists j kj,
    (if (2 * i + 1 + 1 <? n)%nat && Less pq (2 * i + 1 + 1) (2 * i + 1)
     then (2 * i + 1 + 1)%nat else (2 * i + 1)%nat) = j
    /\ isChild i j /\ (j < n)%nat /\ keyAt pq j = Some kj
    /\ forall c y, isChild i c -> (c < n)%nat -> keyAt pq c = Some y -> kj <= y).
  { destruct (Nat.ltb_spec (2 * i + 1 + 1) n) as [H2|H2]; cbn [andb].
    - destruct (keyAt_is_Some pq (2 * i + 1 + 1) ltac:(lia)) as [k2 Hk2].
      rewrite (Less_keys pq _ _ k2 k1 Hk2 Hk1).
      destruct (Z.ltb_spec k2 k1) as [Hlt|Hge].
      + exists (2 * i + 1 + 1)%nat, k2. split; [reflexivity|]. split; [right; lia|].
        split; [lia|]. split; [exact Hk2|]. intros c y [Hc|Hc] _ Hy; subst c.
        * assert (y = k1) by congruence. lia.
        * replace (2 * i + 2)%nat with (2 * i + 1 + 1)%nat in Hy by lia.
          assert (y = k2) by congruence. lia.
      + exists (2 * i + 1)%nat, k1. split; [reflexivity|]. split; [left; lia|].
        split; [lia|]. split; [exact Hk1|]. intros c y [Hc|Hc] _ Hy; subst c.
        * assert (y = k1) by congruence. lia.
        * replace (2 * i + 2)%nat with (2 * i + 1 + 1)%nat in Hy by lia.
          assert (y = k2) by congruence. lia.
    - exists (2 * i + 1)%nat, k1. split; [reflexivity|]. split; [left; lia|].
      split; [lia|]. split; [exact Hk1|]. intros c y [Hc|Hc] Hcn Hy; subst c; [|lia].
      assert (y = k1) by congruence. lia. }
  destruct Hj as (j & kj & -> & Hij & Hjn & Hkj & Hmin).
  assert (Hij' : (i < j)%nat) by (destruct Hij; lia).
  rewrite (Less_keys pq j i kj ki Hkj Hki).
  destruct (Z.ltb_spec kj ki) as [Hlt|Hge]; cbn [negb].
  - apply IH; [lia|rewrite length_Swap; lia|].
    assert (HK : forall k, keyAt (Swap pq i j) k
              = if decide (k = j) then keyAt pq i
                else if decide (k = i) then keyAt pq j else keyAt pq k)
      by (intros k; apply keyAt_Swap; lia).
    split.
    + intros p c x y Hc Hcn Hpj. rewrite !HK. intros Hx Hy.
      assert (Hpc : (p < c)%nat) by (destruct Hc; lia).
      destruct (decide (p = j)); [congruence|].
      destruct (decide (p = i)) as [Hpi|Hpi].
      * assert (x = kj) by congruence.
        destruct (decide (c = j)) as [Hcj|Hcj]; [assert (y = ki) by congruence; lia|].
        destruct (decide (c = i)); [lia|].
        assert (kj <= y); [|lia]. apply (Hmin c); auto. congruence.
      * destruct (decide (c = j)) as [Hcj|Hcj].
        { exfalso. unfold isChild in *. lia. }
        destruct (decide (c = i)) as [Hci|Hci].
        -- assert (y = kj) by congruence. subst y. apply (Hinv2 p j); auto. congruence.
        -- apply (Hinv1 p c); auto.
    + intros g c x y Hgj Hjc Hcn. rewrite !HK. intros Hx Hy.
      assert (g = i) by (unfold isChild in *; lia).
      assert (Hjc' : (j < c)%nat) by (destruct Hjc; lia).
      destruct (decide (g = j)); [lia|]. destruct (decide (g = i)); [|congruence].
      destruct (decide (c = j)); [lia|]. destruct (decide (c = i)); [lia|].
      assert (x = kj) by congruence. subst x. apply (Hinv1 j c); auto. lia.
  - intros p c x y Hc Hcn Hx Hy.
    destruct (decide (p = i)) as [Hpi|Hpi]; [|apply (Hinv1 p c); auto].
    assert (x = ki) by congruence.
    assert (kj <= y); [|lia]. apply (Hmin c); auto. congruence.
Qed.

Lemma length_up (fuel : nat) (pq : PriorityQueue) (j : nat) :
  length (up fuel pq j) = length pq.
Proof. destruct (entries_up fuel pq j) as [_ H]. exact H. Qed.

Lemma length_down (fuel : nat) (pq : PriorityQueue) (i n : nat) :
  length (down fuel pq i n) = length pq.
Proof. destruct (entries_down fuel pq i n) as [_ H]. exact H. Qed.

(** [heap.Push] keeps the heap order. *)
Lemma heapPush_heap (pq : PriorityQueue) (x : ScheduledTask) :
  heapOrdered pq -> heapOrdered (heapPush pq x).
Proof.
  intros Hh. unfold heapPush.
  set (x' := setIndex x (Z.of_nat (length pq))).
  replace (length (pq ++ [x']) - 1)%nat with (length pq)
    by (rewrite length_app; cbn [length]; lia).
  apply up_heap; [rewrite length_app; cbn [length]; lia
                 |rewrite length_app; cbn [length]; lia|].
  rewrite heapOrdered_all in Hh.
  assert (Hk : forall k z, k <> length pq -> keyAt (pq ++ [x']) k = Some z ->
                           keyAt pq k = Some z).
  { intros k z Hne Hz. pose proof (keyAt_lt _ _ _ Hz) as Hlt.
    rewrite length_app in Hlt. cbn [length] in Hlt.
    unfold keyAt in *. rewrite lookup_app_l in Hz by lia. exact Hz. }
  split.
  - intros p c z y Hc Hcn Hz Hy. apply (Hh p c); auto.
    apply Hk; [|exact Hz]. pose proof (keyAt_lt _ _ _ Hy) as Hlt.
    rewrite length_app in Hlt. cbn [length] in Hlt. destruct Hc; lia.
  - intros g c z y _ Hc _ Hy. exfalso. pose proof (keyAt_lt _ _ _ Hy) as Hlt.
    rewrite length_app in Hlt. cbn [length] in Hlt. destruct Hc; lia.
Qed.

(** In a heap the first task is the earliest. *)
Lemma heap_root_min (pq : PriorityQueue) (x : Z) :
  heapOrdered pq -> keyAt pq 0 = Some x ->
  forall k y, keyAt pq k = Some y -> x <= y.
Proof.
  intros Hh Hx. rewrite heapOrdered_all in Hh.
  induction k as [k IH] using lt_wf_ind. intros y Hy.
  destruct k as [|k]; [assert (x = y) by congruence; lia|].
  pose proof (parent_isChild (S k) ltac:(lia)) as Hc.
  assert (Hp : ((S k - 1) / 2 < S k)%nat) by (destruct Hc; lia).
  destruct (keyAt_is_Some pq ((S k - 1) / 2)) as [z Hz].
  { apply keyAt_lt in Hy. lia. }
  assert (x <= z) by (apply (IH _ Hp); exact Hz).
  assert (z <= y) by (apply (Hh _ _ _ _ Hc Hz Hy)). lia.
Qed.

(** [heap.Pop] takes the earliest task and keeps the heap order. *)
Lemma heapPop_heap (pq : PriorityQueue) (first : ScheduledTask) :
  heapOrdered pq -> pq !! 0%nat = Some first ->
  exists t pq', heapPop pq = Some (t, pq')
    /\ heapOrdered pq'
    /\ NextRun t = NextRun first
    /\ forall u, In u pq -> NextRun first <= NextRun u.
Proof.
  intros Hh Hfirst.
  destruct (heapPop_spec pq first Hfirst) as (t & pq' & Hpop & Hentry & _ & Hlen).
  exists t, pq'. split; [exact Hpop|].
  assert (Hmin : forall u, In u pq -> NextRun first <= NextRun u).
  { intros u Hu. apply list_elem_of_In, list_elem_of_lookup_1 in Hu as [k Hk].
    apply (heap_root_min pq (NextRun first) Hh (keyAt_Some _ _ _ Hfirst) k).
    now apply keyAt_Some. }
  split; [|split; [now inversion Hentry|exact Hmin]].
  revert Hpop. unfold heapPop.
  set (n := (length pq - 1)%nat).
  assert (Hn : length pq = S n) by (apply lookup_lt_Some in Hfirst; unfold n; lia).
  set (pq1 := Swap pq 0 n).
  assert (Hl1 : length pq1 = S n) by (unfold pq1; now rewrite length_Swap).
  set (pq2 := down (length pq1) pq1 0 n).
  assert (Hh2 : heapOrderedTo n pq2).
  { unfold pq2. apply down_heap; [lia|lia|]. rewrite heapOrdered_all in Hh.
    assert (HK : forall k, keyAt pq1 k
              = if decide (k = n) then keyAt pq 0
                else if decide (k = 0%nat) then keyAt pq n else keyAt pq k)
      by (intros k; apply keyAt_Swap; lia).
    split.
    - intros p c x y Hc Hcn Hp0. rewrite !HK.
      assert (p < c)%nat by (destruct Hc; lia).
      destruct (decide (p = n)); [lia|]. destruct (decide (p = 0%nat)); [lia|].
      destruct (decide (c = n)); [lia|]. destruct (decide (c = 0%nat)); [lia|].
      apply (Hh p c); auto.
    - intros g c x y Hg. exfalso. destruct Hg; lia. }
  destruct (pq2 !! n) as [item|]; [|discriminate].
  intros H; inversion H; subst pq'. clear H.
  assert (Hl2 : length pq2 = S n) by (unfold pq2; now rewrite length_down).
  unfold heapOrdered. rewrite length_take, Hl2, Nat.min_l by lia.
  intros p c x y Hc Hcn Hx Hy. apply (Hh2 p c); auto.
  - unfold keyAt in *. rewrite lookup_take_lt in Hx; [exact Hx|destruct Hc; lia].
  - unfold keyAt in *. rewrite lookup_take_lt in Hy; [exact Hy|lia].
Qed.

Lemma indexed_Swap (pq : PriorityQueue) (i j : nat) : indexed pq -> indexed (Swap pq i j).
Proof.
  intros Hx. unfold Swap.
  destruct (pq !! i) as [a|] eqn:Ha; [|exact Hx].
  destruct (pq !! j) as [b|] eqn:Hb; [|exact Hx].
  pose proof (lookup_lt_Some _ _ _ Ha) as Hi. pose proof (lookup_lt_Some _ _ _ Hb) as Hj.
  intros k t.
  destruct (decide (k = j)) as [->|Hkj].
  - rewrite list_lookup_insert_eq by (rewrite length_insert; exact Hj).
    intros H; inversion H. reflexivity.
  - rewrite list_lookup_insert_ne by congruence. destruct (decide (k = i)) as [->|Hki].
    + rewrite list_lookup_insert_eq by exact Hi. intros H; inversion H. reflexivity.
    + rewrite list_lookup_insert_ne by congruence. apply Hx.
Qed.

Lemma indexed_up (fuel : nat) (pq : PriorityQueue) (j : nat) :
  indexed pq -> indexed (up fuel pq j).
Proof.
  revert pq j. induction fuel as [|fuel IH]; intros pq j Hx; [exact Hx|].
  cbn [up]. destruct (_ || _); [exact Hx|]. apply IH. now apply indexed_Swap.
Qed.

Lemma indexed_down (fuel : nat) (pq : PriorityQueue) (i n : nat) :
  indexed pq -> indexed (down fuel pq i n).
Proof.
  revert pq i. induction fuel as [|fuel IH]; intros pq i Hx; [exact Hx|].
  cbn [down]. destruct (_ <=? _)%nat; [exact Hx|].
  destruct (negb _); [exact Hx|]. apply IH. now apply indexed_Swap.
Qed.

Lemma heapPush_indexed (pq : PriorityQueue) (x : ScheduledTask) :
  indexed pq -> indexed (heapPush pq x).
Proof.
  intros Hx. unfold heapPush. apply indexed_up. intros k t Hk.
  destruct (decide (k < length pq)%nat) as [Hlt|Hge].
  - rewrite lookup_app_l in Hk by exact Hlt. now apply Hx.
  - rewrite lookup_app_r in Hk by lia.
    destruct (k - length pq)%nat as [|m] eqn:Hm; [|destruct m; discriminate].
    cbn in Hk. inversion Hk. cbn. lia.
Qed.

Lemma heapPop_indexed (pq : PriorityQueue) (t : ScheduledTask) (pq' : PriorityQueue) :
  indexed pq -> heapPop pq = Some (t, pq') -> indexed pq' /\ index t = -1.
Proof.
  intros Hx. unfold heapPop.
  match goal with |- context [down ?f ?q ?i ?n] =>
    assert (Hd : indexed (down f q i n)) by (apply indexed_down, indexed_Swap, Hx);
    destruct (down f q i n !! n) as [item|]; [|discriminate] end.
  intros H; inversion H; subst. split; [|reflexivity].
  intros k u Hk. apply Hd. apply lookup_take_Some in Hk as [Hk _]. exact Hk.
Qed.

Lemma heapOrdered_nil : heapOrdered [] /\ indexed [].
Proof.
  split.
  - intros p c x y _ Hc. cbn in Hc. lia.
  - intros k t Hk. discriminate.
Qed.

(** The loop of [runPendingTasks] stops on a queue whose first task, and
    so every task, is not due. *)
Lemma runPending_heap (fuel : nat) (now : Z) (pq : PriorityQueue) (started : list Feed)
    (pq' : PriorityQueue) (started' : list Feed) :
  heapOrdered pq -> indexed pq ->
  runPending fuel now pq started = Some (pq', started') ->
  heapOrdered pq' /\ indexed pq' /\ Forall (fun t => now < NextRun t) pq'.
Proof.
  revert pq started. induction fuel as [|fuel IH]; intros pq started Hh Hx; [discriminate|].
  cbn [runPending]. destruct (pq !! 0%nat) as [task|] eqn:Hfirst.
  2:{ intros H; inversion H; subst. split; [exact Hh|]. split; [exact Hx|].
      destruct pq'; [constructor|discriminate]. }
  destruct (Z.ltb_spec now (NextRun task)) as [Hlater|Hdue].
  { intros H; inversion H; subst. split; [exact Hh|]. split; [exact Hx|].
    apply List.Forall_forall. intros u Hu.
    apply list_elem_of_In, list_elem_of_lookup_1 in Hu as [k Hk].
    pose proof (heap_root_min pq' (NextRun task) Hh (keyAt_Some _ _ _ Hfirst) k
                  (NextRun u) (keyAt_Some _ _ _ Hk)). lia. }
  destruct (heapPop_heap pq task Hh Hfirst) as (t & pq1 & Hpop & Hh1 & _ & _).
  rewrite Hpop. destruct (heapPop_indexed pq t pq1 Hx Hpop) as [Hx1 _].
  apply IH; [now apply heapPush_heap|now apply heapPush_indexed].
Qed.

(** X13. [heap.Push] on a queue in heap order gives a queue in heap
    order that holds the new task and the old ones, each with its position in
    its [index] field. *)
Theorem X13_heapPush_keeps_the_heap (pq : PriorityQueue) (x : ScheduledTask) :
  heapOrdered pq -> indexed pq ->
  heapOrdered (heapPush pq x) /\ indexed (heapPush pq x)
  /\ entries (heapPush pq x) ≡ₚ entry x :: entries pq
  /\ length (heapPush pq x) = S (length pq).
Proof.
  intros Hh Hx. split; [now apply heapPush_heap|]. split; [now apply heapPush_indexed|].
  apply heapPush_spec.
Qed.

(** X14. [heap.Pop] on a queue in heap order that is not empty takes out
    a task that no task of the queue is to run before, sets its [index] to
    -1, and leaves the other tasks in heap order, each with its position in
    its [index] field. *)
Theorem X14_heapPop_takes_the_earliest (pq : PriorityQueue) :
  heapOrdered pq -> indexed pq -> pq <> [] ->
  exists t pq', heapPop pq = Some (t, pq')
    /\ (forall u, In u pq -> NextRun t <= NextRun u)
    /\ index t = -1
    /\ heapOrdered pq' /\ indexed pq'
    /\ entries pq ≡ₚ entry t :: entries pq'
    /\ length pq = S (length pq').
Proof.
  intros Hh Hx Hne. destruct pq as [|first rest] eqn:Hpq; [congruence|]. rewrite <- Hpq in *.
  assert (Hfirst : pq !! 0%nat = Some first) by (subst pq; reflexivity).
  destruct (heapPop_heap pq first Hh Hfirst) as (t & pq' & Hpop & Hh' & Hrun & Hmin).
  destruct (heapPop_indexed pq t pq' Hx Hpop) as [Hx' Hidx].
  destruct (heapPop_spec pq first Hfirst) as (t2 & pq2 & Hpop2 & Hentry & Hperm & Hlen).
  rewrite Hpop in Hpop2. inversion Hpop2; subst t2 pq2.
  exists t, pq'. split; [exact Hpop|]. split; [intros u Hu; rewrite Hrun; now apply Hmin|].
  split; [exact Hidx|]. split; [exact Hh'|]. split; [exact Hx'|].
  split; [now rewrite Hentry|exact Hlen].
Qed.

(** X15. On a queue in heap order whose feeds have frequencies that are
    positive and not above the 9223372036 seconds a [Duration] holds,
    [runPendingTasks] returns with no due task left waiting: every task of
    the queue it leaves is to run after [now], and the queue is in heap order
    again. *)
Theorem X15_runPendingTasks_leaves_no_due_task (now : Z) (pq : PriorityQueue) :
  heapOrdered pq -> indexed pq -> frequenciesInRange pq ->
  exists pq' started,
    runPendingTasks now pq = Some (pq', started)
    /\ Forall (fun t => now < NextRun t) pq'
    /\ heapOrdered pq' /\ indexed pq'.
Proof.
  intros Hh Hx Hpos. unfold runPendingTasks.
  destruct (runPending_spec (S (length pq)) now pq [] [] (entries pq) Hpos)
    as (pq' & fired & rest' & Hrun & _).
  - reflexivity.
  - unfold entries. rewrite length_map. lia.
  - exists pq', ([] ++ map fst fired). split; [exact Hrun|].
    destruct (runPending_heap _ _ _ _ _ _ Hh Hx Hrun) as (H1 & H2 & H3). auto.
Qed.

(** X16. [Add] never fails and never schedules a run in the past: the
    first run of the feed is after the instant of the call, five seconds
    after it when the feed was never fetched; for a feed fetched before it is
    the last fetch plus the frequency as a [Duration], which wraps around,
    when that is still ahead, and one second after the call when it is not.
    The [Duration] is the frequency in nanoseconds when the frequency is not
    above 9223372036 seconds.  The feed enters the queue with its frequency,
    or with 300 seconds when that is not positive, and the queue stays in heap
    order. *)
Theorem X16_Add_schedules_ahead (pq : PriorityQueue) (now : Z) (feed : Feed) :
  heapOrdered pq -> indexed pq ->
  heapOrdered (Add pq now feed) /\ indexed (Add pq now feed)
  /\ 0 < FrequencySeconds (withDefaultFrequency feed)
  /\ exists nextRun,
       entries (Add pq now feed) ≡ₚ (withDefaultFrequency feed, nextRun) :: entries pq
       /\ now < nextRun
       /\ (LastFetchedAt feed = None -> nextRun = now + 5 * second)
       /\ (forall lastFetchedAt, LastFetchedAt feed = Some lastFetchedAt ->
             let due := lastFetchedAt + seconds (FrequencySeconds (withDefaultFrequency feed)) in
             nextRun = (if now <? due then due else now + 1 * second)
             /\ (FrequencySeconds feed <= maxFrequencySeconds ->
                   due = lastFetchedAt
                         + FrequencySeconds (withDefaultFrequency feed) * second)).
Proof.
  intros Hh Hx. unfold Add. fold (withDefaultFrequency feed).
  assert (Hlf : LastFetchedAt (withDefaultFrequency feed) = LastFetchedAt feed).
  { unfold withDefaultFrequency. destruct (_ <=? _); reflexivity. }
  rewrite Hlf.
  split; [now apply heapPush_heap|]. split; [now apply heapPush_indexed|].
  split.
  { unfold withDefaultFrequency. destruct (Z.leb_spec (FrequencySeconds feed) 0); cbn; lia. }
  eexists. split; [apply heapPush_spec|]. cbn [NextRun].
  destruct (LastFetchedAt feed) as [lf|].
  - split; [|split; [discriminate|]].
    + match goal with |- context [?a <? ?b] => destruct (Z.ltb_spec a b) end;
        unfold second in *; lia.
    + intros l H; inversion H; subst l. cbn zeta. split; [reflexivity|].
      intros Hmax. rewrite seconds_inRange; [reflexivity|].
      unfold withDefaultFrequency, maxFrequencySeconds in *.
      destruct (Z.leb_spec (FrequencySeconds feed) 0); cbn; lia.
  - split; [unfold second; lia|]. split; [reflexivity|discriminate].
Qed.

(** A task that is due and whose frequency wraps around keeps the loop of
    [runPendingTasks] going: put back, it is due again. *)
Lemma runPending_never (fuel : nat) (now : Z) (pq : PriorityQueue) (started : list Feed) :
  heapOrdered pq ->
  (exists e, In e (entries pq) /\ snd e <= now /\ seconds (FrequencySeconds (fst e)) <= 0) ->
  runPending fuel now pq started = None.
Proof.
  revert pq started. induction fuel as [|fuel IH]; intros pq started Hh Hbad; [reflexivity|].
  destruct Hbad as (e & Hin & Hdue & Hwrap).
  apply in_map_iff in Hin as (b & Hb & Hbin).
  cbn [runPending].
  destruct (pq !! 0%nat) as [task|] eqn:Hfirst.
  2:{ destruct pq; [destruct Hbin|discriminate]. }
  destruct (heapPop_heap pq task Hh Hfirst) as (t & pq1 & Hpop & Hh1 & _ & Hmin).
  destruct (heapPop_spec pq task Hfirst) as (t2 & pq2 & Hpop2 & Hentry & Hperm & _).
  rewrite Hpop in Hpop2. inversion Hpop2; subst t2 pq2.
  assert (Htask : NextRun task <= now).
  { specialize (Hmin b Hbin). subst e. cbn [entry snd] in Hdue. lia. }
  destruct (Z.ltb_spec now (NextRun task)) as [?|_]; [lia|].
  rewrite Hpop.
  set (task' := setNextRun t (now + seconds (FrequencySeconds (TaskFeed t)))).
  destruct (heapPush_spec pq1 task') as [Hpush _].
  apply IH; [now apply heapPush_heap|].
  assert (Hcase : In e (entry task :: entries pq1)).
  { eapply Permutation_in; [exact Hperm|]. subst e. now apply in_map. }
  destruct Hcase as [He|He].
  - exists (entry task'). split; [|split].
    + eapply Permutation_in; [symmetry; exact Hpush|]. now left.
    + unfold task', entry, setNextRun. cbn [NextRun TaskFeed snd].
      assert (Hf : TaskFeed t = fst e) by (rewrite <- He, <- Hentry; reflexivity).
      rewrite Hf. lia.
    + unfold task', entry, setNextRun. cbn [NextRun TaskFeed fst].
      assert (Hf : TaskFeed t = fst e) by (rewrite <- He, <- Hentry; reflexivity).
      now rewrite Hf.
  - exists e. split; [|split; assumption].
    eapply Permutation_in; [symmetry; exact Hpush|]. now right.
Qed.

(** X25. A frequency above the 9223372036 seconds a [Duration] holds can
    wrap around to a [Duration] that is not positive.  When a task with such
    a frequency is due in a queue in heap order, the loop of
    [runPendingTasks] does not end: whatever number of iterations is
    allowed, it has not returned. *)
Theorem X25_runPendingTasks_wrapped_frequency_never_ends (now : Z) (pq : PriorityQueue) :
  heapOrdered pq -> Exists (dueForever now) pq ->
  forall fuel started, runPending fuel now pq started = None.
Proof.
  intros Hh Hbad fuel started. apply runPending_never; [exact Hh|].
  apply List.Exists_exists in Hbad as (b & Hbin & Hdue & Hwrap).
  exists (entry b). split; [now apply in_map|]. split; assumption.
Qed.

Lemma Add_heap (pq : PriorityQueue) (now : Z) (feed : Feed) :
  heapOrdered pq /\ indexed pq -> heapOrdered (Add pq now feed) /\ indexed (Add pq now feed).
Proof.
  intros [Hh Hx]. unfold Add. split; [now apply heapPush_heap|now apply heapPush_indexed].
Qed.

Lemma threeFeeds_heap : heapOrdered threeFeeds /\ indexed threeFeeds.
Proof. unfold threeFeeds. repeat apply Add_heap. exact heapOrdered_nil. Qed.

(** A fourth task, due before the others, pushed on the queue of the three
    feeds. *)
Lemma X13_heapPush_keeps_the_heap_witness :
  let pq := heapPush threeFeeds (mkTask feedFetched (1 * second) 0) in
  heapOrdered pq /\ indexed pq /\ length pq = 4%nat.
Proof.
  cbn zeta.
  destruct (X13_heapPush_keeps_the_heap threeFeeds (mkTask feedFetched (1 * second) 0)
              (proj1 threeFeeds_heap) (proj2 threeFeeds_heap)) as (Hh & Hx & _ & Hlen).
  split; [exact Hh|]. split; [exact Hx|exact Hlen].
Defined.

(** The queue of the three feeds gives the feed that was never fetched
    first: it is due five seconds after it was added. *)
Lemma X14_heapPop_takes_the_earliest_witness :
  exists t pq', heapPop threeFeeds = Some (t, pq')
    /\ (forall u, In u threeFeeds -> NextRun t <= NextRun u)
    /\ index t = -1 /\ length pq' = 2%nat.
Proof.
  destruct (X14_heapPop_takes_the_earliest threeFeeds
              (proj1 threeFeeds_heap) (proj2 threeFeeds_heap))
    as (t & pq' & Hpop & Hmin & Hidx & _ & _ & _ & Hlen).
  - discriminate.
  - exists t, pq'. split; [exact Hpop|]. split; [exact Hmin|]. split; [exact Hidx|].
    change (length threeFeeds) with 3%nat in Hlen. congruence.
Defined.

(** One minute after the three feeds were added, two of them are due. *)
Lemma X15_runPendingTasks_leaves_no_due_task_witness :
  exists pq' started,
    runPendingTasks (60 * second) threeFeeds = Some (pq', started)
    /\ Forall (fun t => 60 * second < NextRun t) pq'.
Proof.
  destruct (X15_runPendingTasks_leaves_no_due_task (60 * second) threeFeeds
              (proj1 threeFeeds_heap) (proj2 threeFeeds_heap))
    as (pq' & started & Hrun & Hdue & _).
  - unfold threeFeeds.
    repeat (apply Add_inRange; [|unfold maxFrequencySeconds; cbn; lia]). constructor.
  - exists pq', started. split; assumption.
Defined.

(** A feed without frequency added to the queue of the three feeds. *)
Lemma X16_Add_schedules_ahead_witness :
  heapOrdered (Add threeFeeds (10 * second) feedNoFrequency)
  /\ indexed (Add threeFeeds (10 * second) feedNoFrequency)
  /\ FrequencySeconds (withDefaultFrequency feedNoFrequency) = 300.
Proof.
  destruct (X16_Add_schedules_ahead threeFeeds (10 * second) feedNoFrequency
              (proj1 threeFeeds_heap) (proj2 threeFeeds_heap)) as (Hh & Hx & _).
  split; [exact Hh|]. split; [exact Hx|reflexivity].
Defined.

(** A feed polled every 9223372037 seconds, added at the instant 0 and due
    five seconds later: its task is put back for 292 years before, again and
    again. *)
Lemma X25_runPendingTasks_wrapped_frequency_never_ends_witness :
  seconds (FrequencySeconds feedWrapping) = -9223372036709551616
  /\ forall fuel, runPending fuel (5 * second) queueWrapping [] = None.
Proof.
  split; [reflexivity|]. intros fuel.
  apply (X25_runPendingTasks_wrapped_frequency_never_ends (5 * second) queueWrapping).
  - unfold queueWrapping. apply Add_heap. exact heapOrdered_nil.
  - change queueWrapping with [mkTask feedWrapping (5 * second) 0].
    apply List.Exists_cons_hd. split; [cbn; lia|vm_compute; discriminate].
Defined.

End HeapOrder.

(* ===================================================================== *)
(** * The store of the bot tokens *)
(* ===================================================================== *)

Section BotStoreFacts.
Import BotStore.

Lemma aesKeySize_nonempty (key : list N) : aesKeySize key = true -> (length key =? 0)%nat = false.
Proof.
  unfold aesKeySize. rewrite !orb_true_iff, !Nat.eqb_eq, Nat.eqb_neq. lia.
Qed.

Lemma InitEncryptionKey_length (keyString : string) :
  length (InitEncryptionKey keyString).1 = 32%nat.
Proof.
  unfold InitEncryptionKey. destruct keyString as [|c s]; [reflexivity|].
  cbn [String.length Nat.eqb fst]. apply length_Sum256.
Qed.

Lemma InitEncryptionKey_aesKeySize (keyString : string) :
  aesKeySize (InitEncryptionKey keyString).1 = true.
Proof. unfold aesKeySize. now rewrite InitEncryptionKey_length. Qed.

(** X17. [InitEncryptionKey] always leaves a key of 32 bytes, the size of
    an AES-256 key: the SHA-256 of the configured string, or the built-in
    default key when the string is empty, which is the one case where it
    returns an error.  With that key [encryptAES] and [decryptAES] never take
    their empty-key fallback, which hands the text back as it came. *)
Theorem X17_InitEncryptionKey_key_size (keyString : string) :
  let key := (InitEncryptionKey keyString).1 in
  length key = 32%nat
  /\ aesKeySize key = true
  /\ ((InitEncryptionKey keyString).2 = None <-> keyString <> "")
  /\ (keyString <> "" -> key = Sha256.Sum256 (Sha256.bytes_of_string keyString))
  /\ (keyString = "" ->
        key = Sha256.bytes_of_string defaultKey
        /\ (InitEncryptionKey keyString).2
           = Some (ErrMsg "encryption key not configured; using highly insecure default for demo"))
  /\ (forall c nonce plaintext,
        encryptAES c (Ok nonce) key plaintext = (seal c key nonce plaintext, None))
  /\ (forall c cryptoText,
        decryptAES c key cryptoText
        = match open c key cryptoText with
          | Ok plaintext => (plaintext, None)
          | Err e => ("", Some e)
          end).
Proof.
  cbn zeta.
  pose proof (InitEncryptionKey_length keyString) as Hlen.
  pose proof (InitEncryptionKey_aesKeySize keyString) as Hsize.
  split; [exact Hlen|]. split; [exact Hsize|]. split; [|split; [|split; [|split]]].
  - unfold InitEncryptionKey. destruct keyString; cbn; split; congruence.
  - unfold InitEncryptionKey. destruct keyString; [congruence|reflexivity].
  - intros ->. split; reflexivity.
  - intros c nonce plaintext. unfold encryptAES.
    now rewrite (aesKeySize_nonempty _ Hsize), Hsize.
  - intros c cryptoText. unfold decryptAES. now rewrite (aesKeySize_nonempty _ Hsize).
Qed.

Lemma hasTokenHash_spec (t : Table) (h : string) :
  hasTokenHash t h = true <-> exists id b, rows t !! id = Some b /\ TokenHash b = h.
Proof. unfold hasTokenHash. rewrite bool_decide_eq_true. reflexivity. Qed.

(** Once the hash of a token is in the table, [CreateBot] of that token
    fails and leaves the table as it is, whatever the database, the key and
    the cipher do. *)
Lemma CreateBot_duplicate (env : DBEnv) (c : Cipher) (nonce : result (list N))
    (key : list N) (t : Table) (rawToken : string) (description : option string) :
  hasTokenHash t (hashToken rawToken) = true ->
  exists e, CreateBot env c nonce key t rawToken description = (t, Err e).
Proof.
  intros Hdup. unfold CreateBot.
  destruct (encryptAES c nonce key rawToken) as [enc [e|]].
  - destruct (String.eqb enc rawToken); [|eauto].
    destruct (failPrepare env); [eauto|]. destruct (failExec env); [eauto|].
    rewrite Hdup. eauto.
  - destruct (failPrepare env); [eauto|]. destruct (failExec env); [eauto|].
    rewrite Hdup. eauto.
Qed.

(** X18. With a database that answers, a key of an AES size, a nonce of
    twelve bytes and a cipher that reads back what it seals, a token that is
    not in the table yet is stored by [CreateBot] under a new id and
    [GetTokenByBotID] gives it back for that id; the rows that were there stay
    as they are.  Storing the same token again fails and changes nothing,
    whatever the database does: on the unique [token_hash] when the database
    answers and the token can be sealed. *)
Theorem X18_CreateBot_then_GetTokenByBotID (env : DBEnv) (c : Cipher) (nonce : list N)
    (key : list N) (t : Table) (rawToken : string) (description : option string) :
  answers env -> sound c -> aesKeySize key = true -> length nonce = nonceSize ->
  idsBelow t -> hasTokenHash t (hashToken rawToken) = false ->
  exists id t',
    CreateBot env c (Ok nonce) key t rawToken description = (t', Ok id)
    /\ rows t !! id = None
    /\ rows t' !! id = Some (mkBot id (hashToken rawToken) (Some (seal c key nonce rawToken))
                                   description)
    /\ GetTokenByBotID env c key t' id = Ok rawToken
    /\ (forall id', id' <> id -> rows t' !! id' = rows t !! id')
    /\ idsBelow t'
    /\ (forall env' nonce' description',
          exists e, CreateBot env' c nonce' key t' rawToken description' = (t', Err e))
    /\ (forall nonce' description',
          CreateBot env c (Ok nonce') key t' rawToken description'
          = (t', Err (ErrWrap "CreateBot exec" (ErrLib "UNIQUE constraint failed")))).
Proof.
  intros (Hprep & Hexec & Hlast & Hquery) Hsound Hsize Hnonce Hids Hnew.
  pose proof (aesKeySize_nonempty _ Hsize) as Hne.
  destruct (Hsound key nonce rawToken Hsize Hnonce) as [Hopen Hnonempty].
  assert (Hfresh : rows t !! (lastID t + 1) = None).
  { destruct (rows t !! (lastID t + 1)) as [b|] eqn:Hb; [|reflexivity].
    specialize (Hids _ _ Hb). lia. }
  set (t' := mkTable (<[lastID t + 1 := mkBot (lastID t + 1) (hashToken rawToken)
                                           (Some (seal c key nonce rawToken)) description]>
                        (rows t)) (lastID t + 1)).
  assert (Hdup : hasTokenHash t' (hashToken rawToken) = true).
  { apply hasTokenHash_spec. eexists _, _. unfold t'. cbn [rows].
    rewrite lookup_insert_eq. split; reflexivity. }
  exists (lastID t + 1), t'. split.
  { unfold CreateBot, encryptAES. rewrite Hne, Hsize. cbn [negb].
    rewrite Hprep, Hexec, Hnew, Hlast. reflexivity. }
  unfold t' at 1 2 3 4. cbn [rows lastID].
  split; [exact Hfresh|]. split; [apply lookup_insert_eq|]. split.
  { unfold GetTokenByBotID. rewrite Hquery. unfold t'. cbn [rows]. rewrite lookup_insert_eq.
    cbn [EncryptedToken]. rewrite Hnonempty. unfold decryptAES. rewrite Hne, Hopen.
    reflexivity. }
  split; [intros id' Hid'; now rewrite lookup_insert_ne|]. split.
  { intros id' b. unfold t'. cbn [rows lastID].
    destruct (decide (id' = lastID t + 1)) as [->|Hid'].
    - intros _. lia.
    - rewrite lookup_insert_ne by congruence. intros Hb. specialize (Hids _ _ Hb). lia. }
  split.
  { intros env' nonce' description'. now apply CreateBot_duplicate. }
  intros nonce' description'. unfold CreateBot, encryptAES. rewrite Hne, Hsize. cbn [negb].
  rewrite Hprep, Hexec, Hdup. reflexivity.
Qed.

(** X19. With no key set and a database that answers, [CreateBot] of a
    token that is not in the table yet reports success and stores the raw
    token in the [encrypted_token] column as it is, whatever the cipher;
    [GetTokenByBotID] then returns that column as the token, unless it is
    empty.  A token that is in the table already fails on the unique
    [token_hash] and the table stays as it is. *)
Theorem X19_CreateBot_without_key_stores_the_raw_token (env : DBEnv) (c : Cipher)
    (nonce : result (list N)) (t : Table) (rawToken : string) (description : option string) :
  answers env ->
  let r := CreateBot env c nonce [] t rawToken description in
  (hasTokenHash t (hashToken rawToken) = false ->
     r.2 = Ok (lastID t + 1)
     /\ rows r.1 !! (lastID t + 1)
        = Some (mkBot (lastID t + 1) (hashToken rawToken) (Some rawToken) description)
     /\ GetTokenByBotID env c [] r.1 (lastID t + 1)
        = if isEmpty rawToken then Err (ErrMsg "no encrypted token found for bot")
          else Ok rawToken)
  /\ (hasTokenHash t (hashToken rawToken) = true ->
      r = (t, Err (ErrWrap "CreateBot exec" (ErrLib "UNIQUE constraint failed")))).
Proof.
  intros (Hprep & Hexec & Hlast & Hquery). cbn zeta.
  unfold CreateBot, encryptAES. cbn [length Nat.eqb].
  rewrite String.eqb_refl, Hprep, Hexec. split.
  - intros Hnew. rewrite Hnew, Hlast. cbn [fst snd rows]. split; [reflexivity|].
    split; [apply lookup_insert_eq|].
    unfold GetTokenByBotID. rewrite Hquery. cbn [rows]. rewrite lookup_insert_eq.
    cbn [EncryptedToken].
    destruct (isEmpty rawToken); [reflexivity|].
    unfold decryptAES. cbn [length Nat.eqb]. now rewrite String.eqb_refl.
  - intros Hdup. now rewrite Hdup.
Qed.

Lemma markCipher_sound : sound markCipher.
Proof. intros key nonce plaintext _ _. split; reflexivity. Qed.

Lemma dbAnswering_answers : answers dbAnswering.
Proof. repeat split. Qed.

Lemma noBots_idsBelow : idsBelow noBots.
Proof. intros id b Hb. cbn [noBots rows] in Hb. rewrite lookup_empty in Hb. discriminate. Qed.

Lemma noBots_hasTokenHash (h : string) : hasTokenHash noBots h = false.
Proof.
  destruct (hasTokenHash noBots h) eqn:Hh; [|reflexivity].
  apply hasTokenHash_spec in Hh as (id & b & Hb & _).
  cbn [noBots rows] in Hb. rewrite lookup_empty in Hb. discriminate.
Qed.

(** The first bot of a table, under the key [InitEncryptionKey] derives
    from a configured string. *)
Lemma X18_CreateBot_then_GetTokenByBotID_witness :
  let key := (InitEncryptionKey "secret").1 in
  exists id t',
    CreateBot dbAnswering markCipher (Ok (repeat 0%N 12)) key noBots "123:abc" None = (t', Ok id)
    /\ GetTokenByBotID dbAnswering markCipher key t' id = Ok "123:abc".
Proof.
  cbn zeta.
  destruct (X18_CreateBot_then_GetTokenByBotID dbAnswering markCipher (repeat 0%N 12)
              (InitEncryptionKey "secret").1 noBots "123:abc" None
              dbAnswering_answers markCipher_sound
              (InitEncryptionKey_aesKeySize "secret")
              eq_refl noBots_idsBelow (noBots_hasTokenHash _))
    as (id & t' & Hcreate & _ & _ & Hget & _).
  exists id, t'. split; assumption.
Defined.

(** The first bot of a table when no key was initialised. *)
Lemma X19_CreateBot_without_key_stores_the_raw_token_witness :
  let r := CreateBot dbAnswering markCipher (Ok (repeat 0%N 12)) [] noBots "123:abc" None in
  r.2 = Ok 1
  /\ rows r.1 !! 1 = Some (mkBot 1 (hashToken "123:abc") (Some "123:abc") None)
  /\ GetTokenByBotID dbAnswering markCipher [] r.1 1 = Ok "123:abc".
Proof.
  exact (proj1 (X19_CreateBot_without_key_stores_the_raw_token dbAnswering markCipher
                  (Ok (repeat 0%N 12)) noBots "123:abc" None dbAnswering_answers)
               (noBots_hasTokenHash _)).
Defined.

End BotStoreFacts.
